(** * PitchMix: the situational recommendation engine and its ingestion

    A shallow embedding of [backend/api/main.py] and
    [backend/etl/load_pitches.py].

    Conventions of the embedding.
    - Python [int] is [Z]. In [Api] a Python [float] is an exact rational
      [Q]: a rate is the exact quotient of its two counts, which serves
      where the rounding of binary64 does not bear on the outcome (the
      cascade, the bounds, the sums of the views). The scorer is given
      once more in binary64, in [Api64], for which candidate wins and
      what the rationale says.
    - Python [str] is [string], the bytes of its UTF-8 encoding; the
      string helpers ([strip], [lower]) are the ASCII ones.
    - [None] is the [None] of [option]; an exception is the [Raise] of
      [Res].
    - A SQLite table is the list of its rows in rowid order; column
      affinities are not modelled, and the statements are those of
      integers that the driver can bind ([Sql.bindable]). *)

From Stdlib Require Import ZArith QArith Qminmax Qround Qpower Lqa String Ascii List Lia.
From Stdlib Require Import SpecFloat.
From Stdlib Require Import Sorted Permutation.
From Stdlib Require OrdersEx.
From stdpp Require Import base option list strings gmap pretty.

Open Scope Z_scope.

(** ** Exceptions and the state-and-exception monad *)

Inductive Exn :=
  | TypeError            (* unpacking [None], ... *)
  | ZeroDivisionError
  | AttributeError       (* a method missing on the receiver *)
  | InterfaceError       (* sqlite3: a parameter of unsupported type *)
  | ReadError.           (* UnicodeDecodeError, csv.Error, OSError while reading *)

Inductive Res (A : Type) :=
  | Ok (a : A)
  | Raise (e : Exn).
Arguments Ok {A} a.
Arguments Raise {A} e.

(** A computation over a mutable state [S] that returns an [A] or raises. *)
Definition M (S A : Type) : Type := S -> Res (A * S).

#[global] Instance M_ret {S} : MRet (M S) := fun A a s => Ok (a, s).

#[global] Instance M_bind {S} : MBind (M S) := fun A B k c s =>
  match c s with
  | Ok (a, s') => k a s'
  | Raise e => Raise e
  end.

Definition raise {S A} (e : Exn) : M S A := fun _ => Raise e.

(** A result that does not touch the state. *)
Definition lift_res {S A} (r : Res A) : M S A :=
  fun s => match r with Ok a => Ok (a, s) | Raise e => Raise e end.

Definition get_state {S} : M S S := fun s => Ok (s, s).

Definition modify {S} (f : S -> S) : M S unit := fun s => Ok (tt, f s).

(** [for x in xs: body x], stopping at the first exception. *)
Fixpoint for_each {S A} (body : A -> M S unit) (xs : list A) : M S unit :=
  match xs with
  | [] => mret tt
  | x :: xs' => body x;; for_each body xs'
  end.

(** ** The Python operations the program uses *)

Module Py.

Definition Qltb (a b : Q) : bool := negb (Qle_bool b a).

(** [max(a, b)]: the first argument unless the second is greater. *)
Definition max (a b : Q) : Q := if Qltb a b then b else a.

(** [min(a, b)]: the first argument unless the second is smaller. *)
Definition min (a b : Q) : Q := if Qltb b a then b else a.

(** [sum(xs)]: starts from 0 and adds from the left. *)
Definition sum (xs : list Q) : Q := fold_left Qplus xs 0%Q.

(** [a / b] on numbers; raises on a zero divisor. *)
Definition truediv (a b : Q) : Res Q :=
  if Qeq_bool b 0 then Raise ZeroDivisionError else Ok (a / b)%Q.

(** Rounding to the nearest integer, ties to even: what [format] does. *)
Definition round_half_even (q : Q) : Z :=
  let f := Qfloor q in
  match Qcompare (q - inject_Z f) (1 # 2) with
  | Lt => f
  | Gt => f + 1
  | Eq => if Z.even f then f else f + 1
  end.

(** [f"{x:.0%}"]. *)
Definition format_pct0 (x : Q) : string :=
  let n := round_half_even (x * 100) in
  (if (n =? 0) && Qltb x 0 then "-0" else pretty n) +:+ "%".

(** [f"{n}"] for an integer. *)
Definition format_int (n : Z) : string := pretty n.

Definition is_space (c : ascii) : bool :=
  let n := N_of_ascii c in
  (((9 <=? n) && (n <=? 13)) || ((28 <=? n) && (n <=? 32)))%N.

Fixpoint lstrip_by (p : ascii -> bool) (s : string) : string :=
  match s with
  | String c s' => if p c then lstrip_by p s' else s
  | EmptyString => EmptyString
  end.

Fixpoint rstrip_by (p : ascii -> bool) (s : string) : string :=
  match s with
  | String c s' =>
      match rstrip_by p s' with
      | EmptyString => if p c then EmptyString else String c EmptyString
      | t => String c t
      end
  | EmptyString => EmptyString
  end.

Definition strip_by (p : ascii -> bool) (s : string) : string :=
  rstrip_by p (lstrip_by p s).

(** [s.strip()] *)
Definition strip (s : string) : string := strip_by is_space s.

(** [s.strip(c)] for a one-character argument. *)
Definition strip_char (c : ascii) (s : string) : string :=
  strip_by (Ascii.eqb c) s.

Definition lower_ascii (c : ascii) : ascii :=
  let n := N_of_ascii c in
  if ((65 <=? n) && (n <=? 90))%N then ascii_of_N (n + 32) else c.

(** [s.lower()] *)
Fixpoint lower (s : string) : string :=
  match s with
  | String c s' => String (lower_ascii c) (lower s')
  | EmptyString => EmptyString
  end.

(** [s.startswith(p)] *)
Definition startswith (p s : string) : bool := String.prefix p s.

(** [s.replace(old, "")] for a non-empty [old]: every occurrence, scanning
    from the left. The fuel is the length of [s]. *)
Fixpoint remove_all_fuel (fuel : nat) (old s : string) : string :=
  match fuel with
  | O => s
  | S fuel' =>
      match s with
      | EmptyString => EmptyString
      | String c s' =>
          if String.prefix old s
          then remove_all_fuel fuel' old
                 (String.substring (String.length old)
                    (String.length s - String.length old) s)
          else String c (remove_all_fuel fuel' old s')
      end
  end.

Definition remove_all (old s : string) : string :=
  remove_all_fuel (String.length s) old s.

End Py.

(** ** The store: table [pitches] *)

(** One row of table [pitches], with the sixteen columns that the
    ingestion fills (load_pitches.py, lines 151-157). Every column but the
    owning pitcher is nullable. *)
Record PitchRow := {
  pitcher_id : Z;
  game_date : option string;
  inning : option Z;
  top_bottom : option string;
  batter_hand : option string;
  balls : option Z;
  strikes : option Z;
  pitch_type : option string;
  velocity : option Q;
  plate_x : option Q;
  plate_z : option Q;
  sz_top : option Q;
  sz_bot : option Q;
  description : option string;
  outcome : option string;
  runs_value : option Q
}.

Module Sql.

(** [col = ?] on a nullable integer column: NULL matches nothing. *)
Definition eq_int (col : option Z) (v : Z) : bool :=
  match col with Some c => c =? v | None => false end.

(** [col = ?] on a nullable text column. *)
Definition eq_text (col : option string) (v : string) : bool :=
  match col with Some c => String.eqb c v | None => false end.

(** [col IS NOT NULL] *)
Definition not_null {A} (col : option A) : bool :=
  match col with Some _ => true | None => false end.

(** The bytes of UTF-8, in which the engine keeps a text: a byte from 192
    on begins a character of several bytes, a byte from 128 to 191
    continues one. *)
Definition utf8_lead (c : ascii) : bool := (192 <=? N_of_ascii c)%N.

Definition utf8_continuation (c : ascii) : bool :=
  let n := N_of_ascii c in ((128 <=? n) && (n <? 192))%N.

(** What follows the continuation bytes at the head of a text. *)
Fixpoint skip_continuation (s : string) : string :=
  match s with
  | String c s' => if utf8_continuation c then skip_continuation s' else s
  | EmptyString => EmptyString
  end.

(** A text as LIKE reads it: up to its first NUL byte. *)
Fixpoint c_string (s : string) : string :=
  match s with
  | String c s' =>
      if Ascii.eqb c "000" then EmptyString else String c (c_string s')
  | EmptyString => EmptyString
  end.

(** [k] holds of the text from the start of one of its characters on, or
    of its end; [inside] says that the text begins within a character. *)
Fixpoint from_some_char (k : string -> bool) (inside : bool) (t : string)
  : bool :=
  match t with
  | EmptyString => k t
  | String c t' =>
      if inside && utf8_continuation c then from_some_char k true t'
      else k t || from_some_char k (utf8_lead c) t'
  end.

(** [s LIKE pat] for a pattern in ASCII, as SQLite compares: [%] is any
    run of characters, [_] any one character (a byte, with the
    continuation bytes after it if it is a lead byte), and an ASCII letter
    matches without regard to case. *)
Fixpoint like_text (pat s : string) {struct pat} : bool :=
  match pat with
  | EmptyString => match s with EmptyString => true | _ => false end
  | String "%" pat' => from_some_char (like_text pat') false s
  | String "_" pat' =>
      match s with
      | EmptyString => false
      | String d s' =>
          like_text pat' (if utf8_lead d then skip_continuation s' else s')
      end
  | String c pat' =>
      match s with
      | EmptyString => false
      | String d s' =>
          Ascii.eqb (Py.lower_ascii c) (Py.lower_ascii d) && like_text pat' s'
      end
  end.

Definition like (pat s : string) : bool := like_text pat (c_string s).

(** The integers that the driver binds to a statement: [sqlite3] passes
    a Python [int] as a 64-bit integer and raises [OverflowError] on any
    other, before the statement runs. The statements of this model are
    those of parameters in that range. *)
Definition bindable (n : Z) : bool := (- 2 ^ 63 <=? n) && (n <? 2 ^ 63).

(** [LIMIT ?]: a negative limit is no limit. *)
Definition limit {A} (n : Z) (rows : list A) : list A :=
  if n <? 0 then rows else take (Z.to_nat n) rows.

(** The number of rows of a group that satisfy a condition: [COUNT( * )]
    for the always-true condition, [SUM(CASE WHEN c THEN 1 ELSE 0 END)]
    for [c]. *)
Definition count_where {A} (c : A -> bool) (group : list A) : Z :=
  Z.of_nat (length (List.filter c group)).

(** The distinct keys of a list in ascending order (the groups of a
    [GROUP BY] come out in the order of their key). *)
Fixpoint insert_key {K} (cmp : K -> K -> comparison) (k : K) (ks : list K)
  : list K :=
  match ks with
  | [] => [k]
  | x :: ks' =>
      match cmp k x with
      | Lt => k :: ks
      | Eq => ks
      | Gt => x :: insert_key cmp k ks'
      end
  end.

Definition distinct_sorted {K} (cmp : K -> K -> comparison) (ks : list K)
  : list K :=
  fold_right (insert_key cmp) [] ks.

End Sql.

(** ** The query interface: [backend/api/main.py] *)

Module Api.

(** The statements that the endpoints send to the store. *)
Inductive Statement :=
  | SelectSituation (pid b s : Z) (hand : option string)
      (* per pitch type, HAVING total >= 5; [hand = None]: all hands *)
  | SelectUsage (pid : Z) (hand : option string)
  | SelectLocated (pid b s : Z) (hand : option string) (lim : Z).

(** A connection: the table it reads and the statements executed on it,
    oldest first. *)
Record Conn := {
  table : list PitchRow;
  executed : list Statement
}.

Definition log (q : Statement) : M Conn unit :=
  modify (fun c => {| table := table c; executed := executed c ++ [q] |}).

Definition is_whiff (r : PitchRow) : bool :=
  match description r with
  | Some d => Sql.like "swinging_strike%" d
  | None => false
  end.

Definition is_hard_hit (r : PitchRow) : bool :=
  match outcome r with
  | Some o => String.eqb o "home_run" || String.eqb o "double"
              || String.eqb o "triple"
  | None => false
  end.

Definition hand_clause (hand : option string) (r : PitchRow) : bool :=
  match hand with
  | Some h => Sql.eq_text (batter_hand r) h
  | None => true
  end.

(** *** Capability 1: counts per pitch type in one situation *)

Record AggRow := {
  agg_pitch_type : string;
  agg_total : Z;
  agg_whiffs : Z;
  agg_hard_hits : Z
}.

Definition situation_where (pid b s : Z) (hand : option string)
    (r : PitchRow) : bool :=
  (pitcher_id r =? pid) && Sql.eq_int (balls r) b
  && Sql.eq_int (strikes r) s && hand_clause hand r
  && Sql.not_null (pitch_type r).

Definition has_type (pt : string) (r : PitchRow) : bool :=
  Sql.eq_text (pitch_type r) pt.

Definition aggregate_group (rows : list PitchRow) (pt : string) : AggRow :=
  let group := List.filter (has_type pt) rows in
  {| agg_pitch_type := pt;
     agg_total := Sql.count_where (fun _ => true) group;
     agg_whiffs := Sql.count_where is_whiff group;
     agg_hard_hits := Sql.count_where is_hard_hit group |}.

(** The statement of lines 71-88 ([hand = Some h]) and of lines 94-110
    ([hand = None]). The source gives no ORDER BY: the groups are taken in
    the order of their pitch type, as SQLite delivers them. *)
Definition select_situation (pid b s : Z) (hand : option string)
    (tbl : list PitchRow) : list AggRow :=
  let rows := List.filter (situation_where pid b s hand) tbl in
  let groups :=
    map (aggregate_group rows)
        (Sql.distinct_sorted String.compare (omap pitch_type rows)) in
  List.filter (fun g => 5 <=? agg_total g) groups.

(** [cur.execute(...); rows = cur.fetchall()] *)
Definition fetch_situation (pid b s : Z) (hand : option string)
  : M Conn (list AggRow) :=
  log (SelectSituation pid b s hand);;
  c ← get_state;
  mret (select_situation pid b s hand (table c)).

(** *** The recommendation *)

Record RecommendationRequest := {
  req_pitcher_id : Z;
  req_balls : Z;
  req_strikes : Z;
  req_batter_hand : string;
  req_last_pitch_type : option string
}.

Record Outcomes := {
  sample_size : Z;
  whiff_pct : Q;
  in_play_hard_hit_pct : Q
}.

Record Recommendation := {
  recommended_pitch_type : string;
  confidence : Q;
  rationale : list string;
  historical_outcomes : Outcomes
}.

(** [k / total if total else 0.0] *)
Definition rate (k total : Z) : Q :=
  if total =? 0 then 0%Q else (inject_Z k / inject_Z total)%Q.

Definition score (r : AggRow) : Q :=
  (rate (agg_whiffs r) (agg_total r)
   - rate (agg_hard_hits r) (agg_total r))%Q.

(** The tuple kept in [best_pitch]. *)
Record Best := {
  best_type : string;
  best_total : Z;
  best_whiff_pct : Q;
  best_hard_hit_pct : Q
}.

(** One turn of the loop of lines 133-139 on [(best_score, best_pitch)]. *)
Definition scan_step (st : Q * option Best) (r : AggRow)
  : Q * option Best :=
  let whiff := rate (agg_whiffs r) (agg_total r) in
  let hard := rate (agg_hard_hits r) (agg_total r) in
  let sc := (whiff - hard)%Q in
  if Py.Qltb (fst st) sc
  then (sc, Some {| best_type := agg_pitch_type r;
                    best_total := agg_total r;
                    best_whiff_pct := whiff;
                    best_hard_hit_pct := hard |})
  else st.

Definition scan (rows : list AggRow) : Q * option Best :=
  fold_left scan_step rows ((-999)%Q, None).

Definition default_recommendation : Recommendation :=
  {| recommended_pitch_type := "FF";
     confidence := 0.5%Q;
     rationale :=
       ["Insufficient historical data for this situation; defaulting to four-seam fastball."];
     historical_outcomes :=
       {| sample_size := 0; whiff_pct := 0%Q;
          in_play_hard_hit_pct := 0%Q |} |}.

Definition rationale_line (pt : string) (whiff hard : Q) : string :=
  pt +:+ " has a whiff rate of " +:+ Py.format_pct0 whiff
     +:+ " and hard-hit in-play rate of " +:+ Py.format_pct0 hard
     +:+ " in similar situations.".

(** Lines 115-154: from the fetched rows to the response. Unpacking
    [best_pitch] raises when the loop never assigned it. *)
Definition recommend_from (rows : list AggRow) : Res Recommendation :=
  match rows with
  | [] => Ok default_recommendation
  | _ =>
      let '(best_score, best_pitch) := scan rows in
      match best_pitch with
      | None => Raise TypeError
      | Some b =>
          Ok {| recommended_pitch_type := best_type b;
                confidence :=
                  Py.min 0.95%Q (Py.max 0.55%Q (best_score + 0.5)%Q);
                rationale :=
                  [rationale_line (best_type b) (best_whiff_pct b)
                     (best_hard_hit_pct b)];
                historical_outcomes :=
                  {| sample_size := best_total b;
                     whiff_pct := best_whiff_pct b;
                     in_play_hard_hit_pct := best_hard_hit_pct b |} |}
      end
  end.

(** [recommend_pitch], lines 66-154. *)
Definition recommend_pitch (req : RecommendationRequest)
  : M Conn Recommendation :=
  rows ← fetch_situation (req_pitcher_id req) (req_balls req)
           (req_strikes req) (Some (req_batter_hand req));
  rows ← (match rows with
          | [] => fetch_situation (req_pitcher_id req) (req_balls req)
                    (req_strikes req) None
          | _ => mret rows
          end);
  lift_res (recommend_from rows).

(** Opening a connection on a table, running an endpoint, and keeping the
    response and the statements that were executed. *)
Definition run {A} (c : M Conn A) (tbl : list PitchRow)
  : Res (A * list Statement) :=
  match c {| table := tbl; executed := [] |} with
  | Ok (a, conn) => Ok (a, executed conn)
  | Raise e => Raise e
  end.

(** *** Capability 3 and the usage breakdown *)

Definition valid_hand (batter_hand : option string) : bool :=
  match batter_hand with
  | Some h => String.eqb h "L" || String.eqb h "R"
  | None => false
  end.

(** Lines 169-172 and 235-237: the hand that reaches the statement. *)
Definition hand_param (batter_hand : option string) : option string :=
  if valid_hand batter_hand then batter_hand else None.

Record UsageRow := {
  u_balls : Z;
  u_strikes : Z;
  u_pitch_type : string;
  u_total : Z;
  u_whiffs : Z;
  u_hard_hits : Z
}.

Definition usage_where (pid : Z) (hand : option string) (r : PitchRow)
  : bool :=
  (pitcher_id r =? pid) && Sql.not_null (balls r)
  && Sql.not_null (strikes r) && Sql.not_null (pitch_type r)
  && hand_clause hand r.

Definition usage_key (r : PitchRow) : option (Z * Z * string) :=
  b ← balls r; s ← strikes r; pt ← pitch_type r; Some (b, s, pt).

Definition compare_key (k1 k2 : Z * Z * string) : comparison :=
  match Z.compare (fst (fst k1)) (fst (fst k2)) with
  | Eq =>
      match Z.compare (snd (fst k1)) (snd (fst k2)) with
      | Eq => String.compare (snd k1) (snd k2)
      | c => c
      end
  | c => c
  end.

Definition in_usage_group (k : Z * Z * string) (r : PitchRow) : bool :=
  Sql.eq_int (balls r) (fst (fst k)) && Sql.eq_int (strikes r) (snd (fst k))
  && Sql.eq_text (pitch_type r) (snd k).

Definition usage_group (rows : list PitchRow) (k : Z * Z * string)
  : UsageRow :=
  let group := List.filter (in_usage_group k) rows in
  {| u_balls := fst (fst k); u_strikes := snd (fst k);
     u_pitch_type := snd k;
     u_total := Sql.count_where (fun _ => true) group;
     u_whiffs := Sql.count_where is_whiff group;
     u_hard_hits := Sql.count_where is_hard_hit group |}.

(** The statement of lines 174-193. *)
Definition select_usage (pid : Z) (hand : option string)
    (tbl : list PitchRow) : list UsageRow :=
  let rows := List.filter (usage_where pid hand) tbl in
  map (usage_group rows)
      (Sql.distinct_sorted compare_key (omap usage_key rows)).

Definition fetch_usage (pid : Z) (hand : option string)
  : M Conn (list UsageRow) :=
  log (SelectUsage pid hand);;
  c ← get_state;
  mret (select_usage pid hand (table c)).

Record UsageEntry := {
  e_pitch_type : string;
  e_total : Z;
  e_whiff_pct : Q;
  e_hard_hit_pct : Q
}.

(** A [dict] with string keys, in insertion order. *)
Definition Dict (V : Type) : Type := list (string * V).

(** [if k not in d: d[k] = []] followed by [d[k].append(e)]. *)
Fixpoint dict_append {V} (k : string) (e : V) (d : Dict (list V))
  : Dict (list V) :=
  match d with
  | [] => [(k, [e])]
  | (k', es) :: d' =>
      if String.eqb k k' then (k', es ++ [e]) :: d'
      else (k', es) :: dict_append k e d'
  end.

Definition usage_step (d : Dict (list UsageEntry)) (r : UsageRow)
  : Dict (list UsageEntry) :=
  let count_key :=
    Py.format_int (u_balls r) +:+ "-" +:+ Py.format_int (u_strikes r) in
  dict_append count_key
    {| e_pitch_type := u_pitch_type r;
       e_total := u_total r;
       e_whiff_pct := rate (u_whiffs r) (u_total r);
       e_hard_hit_pct := rate (u_hard_hits r) (u_total r) |} d.

Record Usage := {
  usage_pitcher_id : Z;
  usage_by_count : Dict (list UsageEntry)
}.

(** [pitcher_usage], lines 156-213. *)
Definition pitcher_usage (pid : Z) (batter_hand : option string)
  : M Conn Usage :=
  rows ← fetch_usage pid (hand_param batter_hand);
  mret {| usage_pitcher_id := pid;
          usage_by_count := fold_left usage_step rows [] |}.

(** *** Capability 2 and the pitch-location summary *)

(** The seven columns selected at lines 241-248. *)
Record Located := {
  l_plate_x : option Q;
  l_plate_z : option Q;
  l_sz_top : option Q;
  l_sz_bot : option Q;
  l_pitch_type : option string;
  l_description : option string;
  l_outcome : option string
}.

Definition located_where (pid b s : Z) (hand : option string)
    (r : PitchRow) : bool :=
  (pitcher_id r =? pid) && Sql.eq_int (balls r) b
  && Sql.eq_int (strikes r) s && Sql.not_null (plate_x r)
  && Sql.not_null (plate_z r) && hand_clause hand r.

Definition located_of (r : PitchRow) : Located :=
  {| l_plate_x := plate_x r; l_plate_z := plate_z r;
     l_sz_top := sz_top r; l_sz_bot := sz_bot r;
     l_pitch_type := pitch_type r; l_description := description r;
     l_outcome := outcome r |}.

(** The statement of lines 239-259. *)
Definition select_located (pid b s : Z) (hand : option string) (lim : Z)
    (tbl : list PitchRow) : list Located :=
  Sql.limit lim (map located_of (List.filter (located_where pid b s hand) tbl)).

Definition fetch_located (pid b s : Z) (hand : option string) (lim : Z)
  : M Conn (list Located) :=
  log (SelectLocated pid b s hand lim);;
  c ← get_state;
  mret (select_located pid b s hand lim (table c)).

Record PitchPoint := {
  pt_plate_x : option Q;
  pt_plate_z : option Q;
  pt_pitch_type : option string;
  pt_description : option string;
  pt_outcome : option string
}.

Record LocationSummary := {
  loc_pitcher_id : Z;
  loc_balls : Z;
  loc_strikes : Z;
  loc_batter_hand : option string;
  avg_sz_top : option Q;
  avg_sz_bot : option Q;
  pitches : list PitchPoint
}.

(** [xs.append(x) if x is not None] *)
Definition append_some {A} (xs : list A) (x : option A) : list A :=
  match x with Some v => xs ++ [v] | None => xs end.

(** One turn of the loop of lines 268-282 on [(pitches, sz_tops, sz_bots)]. *)
Definition collect_step (acc : list PitchPoint * list Q * list Q)
    (r : Located) : list PitchPoint * list Q * list Q :=
  let '(ps, tops, bots) := acc in
  (ps ++ [{| pt_plate_x := l_plate_x r; pt_plate_z := l_plate_z r;
             pt_pitch_type := l_pitch_type r;
             pt_description := l_description r;
             pt_outcome := l_outcome r |}],
   append_some tops (l_sz_top r),
   append_some bots (l_sz_bot r)).

(** [sum(xs) / len(xs) if xs else None] *)
Definition average (xs : list Q) : Res (option Q) :=
  match xs with
  | [] => Ok None
  | _ =>
      match Py.truediv (Py.sum xs) (inject_Z (Z.of_nat (length xs))) with
      | Ok a => Ok (Some a)
      | Raise e => Raise e
      end
  end.

(** [pitcher_pitches], lines 215-295, past the validation of its
    parameters. *)
Definition pitcher_pitches (pid b s : Z) (batter_hand : option string)
    (lim : Z) : M Conn LocationSummary :=
  rows ← fetch_located pid b s (hand_param batter_hand) lim;
  let '(ps, tops, bots) := fold_left collect_step rows ([], [], []) in
  top ← lift_res (average tops);
  bot ← lift_res (average bots);
  mret {| loc_pitcher_id := pid; loc_balls := b; loc_strikes := s;
          loc_batter_hand := batter_hand;
          avg_sz_top := top; avg_sz_bot := bot; pitches := ps |}.

(** *** The request boundary of [pitcher_pitches]

    FastAPI's [Query(default, **keywords)] for an [int] parameter. Of the
    keywords, [gt], [ge], [lt] and [le] are bounds that the framework
    enforces; any other keyword is carried into the schema as extra
    data and constrains nothing. [q_default = None] is the required
    marker [...]. *)
Record QueryInt := {
  q_default : option Z;
  q_keywords : list (string * Z)
}.

Definition keyword (k : string) (q : QueryInt) : option Z :=
  snd <$> List.find (fun p => String.eqb (fst p) k) (q_keywords q).

Definition bound (k : string) (q : QueryInt) (holds : Z -> bool) : bool :=
  match keyword k q with Some c => holds c | None => true end.

Definition within (q : QueryInt) (v : Z) : bool :=
  bound "gt" q (fun c => c <? v) && bound "ge" q (fun c => c <=? v)
  && bound "lt" q (fun c => v <? c) && bound "le" q (fun c => v <=? c).

(** The value handed to the endpoint, or [None] for a rejected request
    (HTTP 422). An omitted parameter takes the default, unchecked. *)
Definition validate (q : QueryInt) (supplied : option Z) : option Z :=
  match supplied with
  | Some v => if within q v then Some v else None
  | None => q_default q
  end.

(** Line 218 *)
Definition balls_query : QueryInt :=
  {| q_default := None; q_keywords := [("ge0", 0); ("le", 3)] |}.

(** Line 219 *)
Definition strikes_query : QueryInt :=
  {| q_default := None; q_keywords := [("ge0", 0); ("le", 2)] |}.

(** Line 223 *)
Definition limit_query : QueryInt :=
  {| q_default := Some 500; q_keywords := [("ge", 1); ("le", 2000)] |}.

(** GET /api/pitchers/{pitcher_id}/pitches: validation, then the
    endpoint. [None] is the rejection. *)
Definition get_pitches (pid : Z) (balls strikes : option Z)
    (batter_hand : option string) (limit : option Z)
  : M Conn (option LocationSummary) :=
  match validate balls_query balls, validate strikes_query strikes,
        validate limit_query limit with
  | Some b, Some s, Some lim =>
      r ← pitcher_pitches pid b s batter_hand lim; mret (Some r)
  | _, _, _ => mret None
  end.

End Api.

(** ** Ingestion: [backend/etl/load_pitches.py] *)

Module Etl.

(** *** The registry and the connection *)

(** One row of table [pitchers]. *)
Record Pitcher := {
  id : Z;
  mlb_id : Z;
  name : option string;
  throws_hand : option string
}.

Record Db := {
  pitchers : list Pitcher;
  events : list PitchRow
}.

(** What the script prints. *)
Inductive Printed :=
  | Loading (file : string)
  | SkippingNoHeader (file : string)
  | Headers (first_ten : list string)
  | SkippingRequiredMissing (file : string)
  | Finished (file : string) (row_count : Z)
  | DirectoryNotFound
  | NoCsvFiles
  | Found (n : Z)
  | AllIngested.

(** The running script: the connection's view of the database, with the
    changes of the open transaction, and the standard output. *)
Record World := {
  db : Db;
  stdout : list Printed
}.

Definition print (p : Printed) : M World unit :=
  modify (fun w => {| db := db w; stdout := stdout w ++ [p] |}).

(** A Python value that a cell lookup can produce: [None], a [str], or the
    [list] of surplus cells. *)
Inductive Value :=
  | VNone
  | VStr (s : string)
  | VList (l : list string).

Definition truthy (v : Value) : bool :=
  match v with
  | VNone => false
  | VStr s => negb (String.eqb s "")
  | VList l => match l with [] => false | _ => true end
  end.

(** [a or b] *)
Definition or_else (a b : Value) : Value := if truthy a then a else b.

(** Binding a value to a [?] of a statement: [None] is NULL, a [str] is
    text, a [list] is refused by the driver. *)
Definition bind_text (v : Value) : Res (option string) :=
  match v with
  | VNone => Ok None
  | VStr s => Ok (Some s)
  | VList _ => Raise InterfaceError
  end.

(** Modelled from the spec: [db/schema.sql], which declares table
    [pitchers], is not among the sources. The spec's "internal id
    (surrogate, assigned on first sighting)" is taken as the table's
    integer primary key: an inserted record gets one more than the
    largest id in use, 1 in an empty table, and [cur.lastrowid] is that
    id. *)
Definition next_id (ps : list Pitcher) : Z :=
  match ps with
  | [] => 1
  | p :: ps' => fold_left Z.max (map id ps') (id p) + 1
  end.

(** [get_or_create_pitcher], lines 9-22. *)
Definition get_or_create_pitcher (mlb : Z) (nm hand : Value) : M World Z :=
  w ← get_state;
  match List.find (fun p => mlb_id p =? mlb) (pitchers (db w)) with
  | Some row => mret (id row)
  | None =>
      n ← lift_res (bind_text nm);
      h ← lift_res (bind_text hand);
      let lastrowid := next_id (pitchers (db w)) in
      modify (fun w =>
        {| db := {| pitchers :=
                      pitchers (db w) ++
                      [{| id := lastrowid; mlb_id := mlb; name := n;
                          throws_hand := h |}];
                    events := events (db w) |};
           stdout := stdout w |});;
      mret lastrowid
  end.

(** *** Source files *)

(** What a read of the CSV reader gives: the cells of the next record,
    or an exception ([UnicodeDecodeError], [csv.Error]). *)
Inductive CsvRecord :=
  | Cells (cells : list string)
  | Unreadable.

(** The file is opened as text (line 52): the text layer reads and decodes
    it a chunk at a time (8192 bytes), and only when the reader asks for
    a line that is not decoded yet. A chunk is given by the records that
    end in it, in order, a malformed one as [Unreadable]; a chunk with a
    byte that is not UTF-8 cannot be decoded, whichever of its records
    holds the byte. A file shorter than a chunk is one chunk: an
    undecodable byte anywhere in it fails the first read, that of the
    header. *)
Inductive Chunk :=
  | Decoded (completed : list CsvRecord)
  | Undecodable.

Record CsvFile := {
  file_name : string;
  chunks : list Chunk
}.

(** The reads of the reader on the chunks of a file, up to the first
    that raises: the records of the chunks decoded so far, then the
    exception of the chunk that cannot be decoded. *)
Fixpoint reads (cs : list Chunk) : list CsvRecord :=
  match cs with
  | [] => []
  | Decoded rs :: cs' => rs ++ reads cs'
  | Undecodable :: _ => [Unreadable]
  end.

Definition records (f : CsvFile) : list CsvRecord := reads (chunks f).

(** The [dict] that [csv.DictReader] makes of a record: a cell per field
    name ([None] where the record is too short), and the surplus cells
    of a record that is too long, which the reader files under the key
    [None]. *)
Record DictRow := {
  named : gmap string (option string);
  surplus : list string
}.

Definition dict_row (fieldnames cells : list string) : DictRow :=
  let d := fold_left (fun d kv => <[kv.1 := Some kv.2]> d)
             (zip fieldnames cells) ∅ in
  {| named := fold_left (fun d k => <[k := None]> d)
                (drop (length cells) fieldnames) d;
     surplus := drop (length fieldnames) cells |}.

(** [row.get(col)] *)
Definition row_get (row : DictRow) (col : option string) : Value :=
  match col with
  | Some k =>
      match named row !! k with
      | Some (Some s) => VStr s
      | _ => VNone
      end
  | None =>
      match surplus row with
      | [] => VNone
      | l => VList l
      end
  end.

(** [sanitize_header], lines 39-44; the byte-order mark in UTF-8. *)
Definition bom : string := String "239" (String "187" (String "191" "")).

Definition double_quote : ascii := "034"%char.

Definition sanitize_header (nm : string) : string :=
  Py.strip_char double_quote (Py.strip (Py.remove_all bom nm)).

(** Line 62 *)
Definition header_map_of (raw_headers : list string) : gmap string string :=
  fold_left (fun m fn => <[sanitize_header fn := fn]> m) raw_headers ∅.

(** [col], lines 64-69. *)
Definition col (header_map : gmap string string) (nm : string)
    (fallback : option string) : option string :=
  match header_map !! nm with
  | Some raw => Some raw
  | None =>
      match fallback with
      | Some fb => if String.eqb fb "" then None else header_map !! fb
      | None => None
      end
  end.

(** Truth value of a resolved column. *)
Definition present (c : option string) : bool :=
  match c with Some raw => negb (String.eqb raw "") | None => false end.

Record Columns := {
  pitch_type_col : option string;
  pitcher_col : option string;
  player_name_col : option string;
  p_throws_col : option string;
  game_date_col : option string;
  stand_col : option string;
  balls_col : option string;
  strikes_col : option string;
  release_speed_col : option string;
  plate_x_col : option string;
  plate_z_col : option string;
  sz_top_col : option string;
  sz_bot_col : option string;
  inning_col : option string;
  inning_tb_col : option string;
  description_col : option string;
  events_col : option string
}.

(** Lines 71-87 *)
Definition resolve_columns (hm : gmap string string) : Columns :=
  {| pitch_type_col := col hm "pitch_type" (Some "pitch_name");
     pitcher_col := col hm "pitcher" None;
     player_name_col := col hm "player_name" None;
     p_throws_col := col hm "p_throws" None;
     game_date_col := col hm "game_date" None;
     stand_col := col hm "stand" None;
     balls_col := col hm "balls" None;
     strikes_col := col hm "strikes" None;
     release_speed_col := col hm "release_speed" None;
     plate_x_col := col hm "plate_x" None;
     plate_z_col := col hm "plate_z" None;
     sz_top_col := col hm "sz_top" None;
     sz_bot_col := col hm "sz_bot" None;
     inning_col := col hm "inning" None;
     inning_tb_col := col hm "inning_topbot" None;
     description_col := col hm "description" None;
     events_col := col hm "events" None |}.

Section Builtins.

(** The built-ins [int] and [float] applied to a [str]: the number, or
    [None] where they raise [ValueError]. *)
Variable int_of_str : string -> option Z.
Variable float_of_str : string -> option Q.

(** [to_int], lines 25-29: [int] of [None] or of a list raises
    [TypeError], which is caught as well. *)
Definition to_int (v : Value) : option Z :=
  match v with
  | VStr s => int_of_str s
  | VNone | VList _ => None
  end.

(** [to_float], lines 32-36. *)
Definition to_float (v : Value) : option Q :=
  match v with
  | VStr s => if String.eqb s "" then None else float_of_str s
  | VNone | VList _ => None
  end.

(** Lines 119-129. [strip] is a method of [str] only. *)
Definition inning_topbot_of (raw_tb : Value) : Res (option string) :=
  if truthy raw_tb then
    match raw_tb with
    | VStr s =>
        let t := Py.lower (Py.strip s) in
        if Py.startswith "t" t then Ok (Some "Top")
        else if Py.startswith "b" t then Ok (Some "Bottom")
        else Ok None
    | _ => Raise AttributeError
    end
  else Ok None.

(** The INSERT of lines 149-178. *)
Definition insert_pitch (pid : Z) (game_date : Value) (inning : option Z)
    (inning_topbot : option string) (batter_hand : Value)
    (balls strikes : option Z) (pitch_type : Value)
    (velocity plate_x plate_z sz_top sz_bot : option Q)
    (description outcome : Value) : M World unit :=
  gd ← lift_res (bind_text game_date);
  bh ← lift_res (bind_text batter_hand);
  pt ← lift_res (bind_text pitch_type);
  de ← lift_res (bind_text description);
  oc ← lift_res (bind_text outcome);
  modify (fun w =>
    {| db := {| pitchers := pitchers (db w);
                events := events (db w) ++
                  [{| pitcher_id := pid; game_date := gd;
                      inning := inning; top_bottom := inning_topbot;
                      batter_hand := bh; balls := balls;
                      strikes := strikes; pitch_type := pt;
                      velocity := velocity; plate_x := plate_x;
                      plate_z := plate_z; sz_top := sz_top;
                      sz_bot := sz_bot; description := de;
                      outcome := oc; runs_value := None |}] |};
       stdout := stdout w |}).

(** The body of the loop over the rows, lines 99-178. [mret tt] where
    the source says [continue]. *)
Definition process_row (c : Columns) (row : DictRow) : M World unit :=
  let pitcher_raw := row_get row (pitcher_col c) in
  if negb (truthy pitcher_raw) then mret tt else
  match to_int pitcher_raw with
  | None => mret tt
  | Some pitcher_mlb_id =>
      let pitcher_name :=
        or_else (row_get row (player_name_col c)) (VStr "Unknown Pitcher") in
      let throws := or_else (row_get row (p_throws_col c)) (VStr "") in
      pid ← get_or_create_pitcher pitcher_mlb_id pitcher_name throws;
      let game_date :=
        if present (game_date_col c) then row_get row (game_date_col c)
        else VNone in
      let inning :=
        if present (inning_col c) then to_int (row_get row (inning_col c))
        else None in
      inning_topbot ←
        lift_res (inning_topbot_of (row_get row (inning_tb_col c)));
      let batter_hand := or_else (row_get row (stand_col c)) VNone in
      let balls :=
        if present (balls_col c) then to_int (row_get row (balls_col c))
        else None in
      let strikes :=
        if present (strikes_col c) then to_int (row_get row (strikes_col c))
        else None in
      let pitch_type := row_get row (pitch_type_col c) in
      if negb (truthy pitch_type) then mret tt else
      let velocity := to_float (row_get row (release_speed_col c)) in
      let plate_x := to_float (row_get row (plate_x_col c)) in
      let plate_z := to_float (row_get row (plate_z_col c)) in
      let sz_top := to_float (row_get row (sz_top_col c)) in
      let sz_bot := to_float (row_get row (sz_bot_col c)) in
      let description :=
        or_else (row_get row (description_col c)) (VStr "") in
      let outcome := or_else (row_get row (events_col c)) VNone in
      insert_pitch pid game_date inning inning_topbot batter_hand balls
        strikes pitch_type velocity plate_x plate_z sz_top sz_bot
        description outcome
  end.

(** [for row in reader], lines 96-178, returning [row_count], on the
    reads that follow the header. The reader passes over a record without
    cells. *)
Fixpoint read_rows (fieldnames : list string) (c : Columns)
    (rs : list CsvRecord) (row_count : Z) : M World Z :=
  match rs with
  | [] => mret row_count
  | Unreadable :: _ => raise ReadError
  | Cells [] :: rs' => read_rows fieldnames c rs' row_count
  | Cells cells :: rs' =>
      process_row c (dict_row fieldnames cells);;
      read_rows fieldnames c rs' (row_count + 1)
  end.

(** [process_csv], lines 47-180. The first read, at [reader.fieldnames]
    (line 55), is that of the header. *)
Definition process_csv (f : CsvFile) : M World unit :=
  print (Loading (file_name f));;
  match records f with
  | Unreadable :: _ => raise ReadError
  | [] | Cells [] :: _ => print (SkippingNoHeader (file_name f))
  | Cells raw_headers :: body =>
      print (Headers (take 10 raw_headers));;
      let c := resolve_columns (header_map_of raw_headers) in
      if negb (present (pitcher_col c)) || negb (present (pitch_type_col c))
      then print (SkippingRequiredMissing (file_name f))
      else
        row_count ← read_rows raw_headers c body 0;
        print (Finished (file_name f) row_count)
  end.

(** Lines 195-202, on an open connection. *)
Definition ingest (csv_files : list CsvFile) : M World unit :=
  print (Found (Z.of_nat (length csv_files)));;
  for_each process_csv csv_files;;
  print AllIngested.

(** The outcome of a run of the script: what it printed if it ran to
    its end, and the database as committed. *)
Definition main (csv_dir : option (list CsvFile)) (disk : Db)
  : Res (list Printed) * Db :=
  match csv_dir with
  | None => (Ok [DirectoryNotFound], disk)
  | Some [] => (Ok [NoCsvFiles], disk)
  | Some csv_files =>
      match ingest csv_files {| db := disk; stdout := [] |} with
      | Ok (_, w) => (Ok (stdout w), db w)      (* [conn.commit()] *)
      | Raise e => (Raise e, disk)              (* never committed *)
      end
  end.

End Builtins.

(** A reading of [int] on decimal digits with an optional sign, for
    running the model. *)
Fixpoint digits_value (s : string) (acc : Z) : option Z :=
  match s with
  | EmptyString => Some acc
  | String c s' =>
      let n := Z.of_N (N_of_ascii c) in
      if (48 <=? n) && (n <=? 57) then digits_value s' (10 * acc + (n - 48))
      else None
  end.

Definition int_decimal (s : string) : option Z :=
  match Py.strip s with
  | EmptyString => None
  | String "-" EmptyString | String "+" EmptyString => None
  | String "-" ds => Z.opp <$> digits_value ds 0
  | String "+" ds => digits_value ds 0
  | ds => digits_value ds 0
  end.

(** A reading of [float] on what [int_decimal] reads. *)
Definition float_decimal (s : string) : option Q :=
  inject_Z <$> int_decimal s.

End Etl.


(** ** The scorer in binary64

    A Python [float] is a binary64 number of IEEE 754. Here a finite one
    is the rational that it denotes, and an operation is the exact
    operation followed by the rounding of the standard: to the nearest
    number of the format, a tie to the one with an even significand; the
    format has 53 bits and its least exponent is -1074. The sign of zero
    and the overflow to infinity are left out: the scorer divides
    counts by a total that bounds them, so that no value of it exceeds 100
    in magnitude, and it makes no negative zero. *)

Module Binary64.

(** The integer part of the binary logarithm of [|q|], for [q] other
    than 0. *)
Definition ilog2 (q : Q) : Z :=
  let n := Z.abs (Qnum q) in
  let d := Zpos (Qden q) in
  let k := Z.log2 n - Z.log2 d in
  if (if 0 <=? k then d * 2 ^ k <=? n else d <=? n * 2 ^ (- k))
  then k else k - 1.

(** The exponent of the unit in the last place at [q]. *)
Definition ulp_exponent (q : Q) : Z := Z.max (ilog2 q - 52) (-1074).

(** The rounding of a rational to binary64. *)
Definition round (q : Q) : Q :=
  let e := ulp_exponent q in
  (inject_Z (Py.round_half_even (q / 2 ^ e)) * 2 ^ e)%Q.

(** [a / b] on two [int]s, [b] other than 0: the quotient, rounded once. *)
Definition truediv (a b : Z) : Q := round (inject_Z a / inject_Z b).

Definition sub (x y : Q) : Q := round (x - y).

Definition add (x y : Q) : Q := round (x + y).

Definition mul (x y : Q) : Q := round (x * y).

(** [f"{x:.0%}"]: the product by 100 in binary64, then its decimal
    expansion rounded to no digit after the point, ties to even. *)
Definition format_pct0 (x : Q) : string :=
  let y := mul x 100 in
  let n := Py.round_half_even y in
  (if (n =? 0) && Py.Qltb y 0 then "-0" else pretty n) +:+ "%".

(** The same operations in the standard library's specification of
    IEEE 754 ([SpecFloat], 53 bits, largest exponent 1024), for comparing
    the two on examples. *)
Definition of_int (n : Z) : spec_float :=
  match n with
  | Z0 => S754_zero false
  | Zpos p => S754_finite false p 0
  | Zneg p => S754_finite true p 0
  end.

Definition denotes (f : spec_float) (q : Q) : bool :=
  match f with
  | S754_zero _ => Qeq_bool q 0
  | S754_finite s m e =>
      Qeq_bool q ((if s then -1 else 1) * inject_Z (Zpos m) * 2 ^ e)%Q
  | _ => false
  end.

(** The rates and the score of a row of counts, and a rate as a
    percentage, computed both ways. *)
Definition same_as_ieee (total whiffs hard_hits : Z) : bool :=
  let w := SFdiv 53 1024 (of_int whiffs) (of_int total) in
  let h := SFdiv 53 1024 (of_int hard_hits) (of_int total) in
  denotes w (truediv whiffs total)
  && denotes h (truediv hard_hits total)
  && denotes (SFsub 53 1024 w h)
       (sub (truediv whiffs total) (truediv hard_hits total))
  && denotes (SFmul 53 1024 w (of_int 100)) (mul (truediv whiffs total) 100)
  && denotes (SFadd 53 1024 (SFsub 53 1024 w h) (SFdiv 53 1024 (of_int 1) (of_int 2)))
       (add (sub (truediv whiffs total) (truediv hard_hits total)) 0.5).

End Binary64.

Module Api64.

Import Api.

(** [k / total if total else 0.0] *)
Definition rate (k total : Z) : Q :=
  if total =? 0 then 0%Q else Binary64.truediv k total.

Definition score (r : AggRow) : Q :=
  Binary64.sub (rate (agg_whiffs r) (agg_total r))
    (rate (agg_hard_hits r) (agg_total r)).

(** One turn of the loop of lines 133-139 on [(best_score, best_pitch)]. *)
Definition scan_step (st : Q * option Best) (r : AggRow)
  : Q * option Best :=
  let whiff := rate (agg_whiffs r) (agg_total r) in
  let hard := rate (agg_hard_hits r) (agg_total r) in
  let sc := Binary64.sub whiff hard in
  if Py.Qltb (fst st) sc
  then (sc, Some {| best_type := agg_pitch_type r;
                    best_total := agg_total r;
                    best_whiff_pct := whiff;
                    best_hard_hit_pct := hard |})
  else st.

(** Lines 130-139: [best_score] starts at [-999.0]. *)
Definition scan (rows : list AggRow) : Q * option Best :=
  fold_left scan_step rows ((-999)%Q, None).

Definition rationale_line (pt : string) (whiff hard : Q) : string :=
  pt +:+ " has a whiff rate of " +:+ Binary64.format_pct0 whiff
     +:+ " and hard-hit in-play rate of " +:+ Binary64.format_pct0 hard
     +:+ " in similar situations.".

(** The literals [0.95] and [0.55] of line 145. *)
Definition c95 : Q := Binary64.round 0.95.

Definition c55 : Q := Binary64.round 0.55.

(** Lines 115-154: from the fetched rows to the response. Unpacking
    [best_pitch] raises when the loop never assigned it. *)
Definition recommend_from (rows : list AggRow) : Res Recommendation :=
  match rows with
  | [] => Ok default_recommendation
  | _ =>
      let '(best_score, best_pitch) := scan rows in
      match best_pitch with
      | None => Raise TypeError
      | Some b =>
          Ok {| recommended_pitch_type := best_type b;
                confidence :=
                  Py.min c95 (Py.max c55 (Binary64.add best_score 0.5));
                rationale :=
                  [rationale_line (best_type b) (best_whiff_pct b)
                     (best_hard_hit_pct b)];
                historical_outcomes :=
                  {| sample_size := best_total b;
                     whiff_pct := best_whiff_pct b;
                     in_play_hard_hit_pct := best_hard_hit_pct b |} |}
      end
  end.

End Api64.
(** ** Vocabulary of the statements *)

Module Spec.

Import Api.

(** A row of counts: the whiffs and the hard hits are counted among the
    [agg_total] pitches of the group, and the group is not empty. *)
Definition counts_row (r : AggRow) : Prop :=
  (0 < agg_total r)%Z
  /\ (0 <= agg_whiffs r <= agg_total r)%Z
  /\ (0 <= agg_hard_hits r <= agg_total r)%Z.

(** The tuple that the loop stores for a row. *)
Definition best_of (r : AggRow) : Best :=
  {| best_type := agg_pitch_type r;
     best_total := agg_total r;
     best_whiff_pct := rate (agg_whiffs r) (agg_total r);
     best_hard_hit_pct := rate (agg_hard_hits r) (agg_total r) |}.

(** The rows of the end-to-end example: SL with 8 pitches, 5 whiffs and 1
    hard hit; FF with 6 pitches, 1 whiff and 2 hard hits. *)
Definition example_rows : list AggRow :=
  [ {| agg_pitch_type := "SL"; agg_total := 8; agg_whiffs := 5;
       agg_hard_hits := 1 |};
    {| agg_pitch_type := "FF"; agg_total := 6; agg_whiffs := 1;
       agg_hard_hits := 2 |} ].

(** Two rows whose scores are both one fifth as rationals; in binary64
    the first is 0.3 - 0.1, which is less than 0.2. *)
Definition close_rows : list AggRow :=
  [ {| agg_pitch_type := "AA"; agg_total := 10; agg_whiffs := 3;
       agg_hard_hits := 1 |};
    {| agg_pitch_type := "BB"; agg_total := 5; agg_whiffs := 1;
       agg_hard_hits := 0 |} ].

(** The pitch type of an answer. *)
Definition recommended (r : Res Recommendation) : option string :=
  match r with
  | Ok resp => Some (recommended_pitch_type resp)
  | Raise _ => None
  end.

(** The rows of counts with a total from 1 to [n]. *)
Definition small_counts (n : nat) : list (Z * Z * Z) :=
  t ← map Z.of_nat (seq 1 n);
  w ← map Z.of_nat (seq 0 (S (Z.to_nat t)));
  h ← map Z.of_nat (seq 0 (S (Z.to_nat t)));
  [(t, w, h)].

(** The number of pitches of type [pt] among the rows of a situation. *)
Definition pitches_of_type (pid b s : Z) (hand : option string)
    (tbl : list PitchRow) (pt : string) : Z :=
  Sql.count_where (has_type pt)
    (List.filter (situation_where pid b s hand) tbl).

(** A pitch of pitcher 7 at one ball and two strikes to a right-handed
    batter, and a table that realises [example_rows]. *)
Definition example_pitch (pt desc : string) (oc : option string)
  : PitchRow :=
  {| pitcher_id := 7; game_date := None; inning := None;
     top_bottom := None; batter_hand := Some "R"; balls := Some 1;
     strikes := Some 2; pitch_type := Some pt; velocity := None;
     plate_x := None; plate_z := None; sz_top := None; sz_bot := None;
     description := Some desc; outcome := oc; runs_value := None |}.

Definition example_table : list PitchRow :=
  repeat (example_pitch "SL" "swinging_strike" None) 5
  ++ [example_pitch "SL" "hit_into_play" (Some "home_run")]
  ++ repeat (example_pitch "SL" "ball" None) 2
  ++ [example_pitch "FF" "swinging_strike_blocked" None]
  ++ repeat (example_pitch "FF" "hit_into_play" (Some "double")) 2
  ++ repeat (example_pitch "FF" "called_strike" None) 3.

Definition example_request : RecommendationRequest :=
  {| req_pitcher_id := 7; req_balls := 1; req_strikes := 2;
     req_batter_hand := "R"; req_last_pitch_type := None |}.

(** The point that the location summary returns for a located row. *)
Definition point_of (r : Located) : PitchPoint :=
  {| pt_plate_x := l_plate_x r; pt_plate_z := l_plate_z r;
     pt_pitch_type := l_pitch_type r;
     pt_description := l_description r; pt_outcome := l_outcome r |}.

(** The arithmetic mean of a list of numbers, none for the empty list. *)
Definition arithmetic_mean (xs : list Q) : option Q :=
  match length xs with
  | O => None
  | S n => Some (fold_right Qplus 0 xs / inject_Z (Z.of_nat (S n)))%Q
  end.

(** Two optional numbers are both absent, or equal as rationals. *)
Definition same_number (a b : option Q) : Prop :=
  match a, b with
  | Some x, Some y => (x == y)%Q
  | None, None => True
  | _, _ => False
  end.

(** A location summary with another batter hand in its echo field. *)
Definition echoing (hand : option string) (r : LocationSummary)
  : LocationSummary :=
  {| loc_pitcher_id := loc_pitcher_id r; loc_balls := loc_balls r;
     loc_strikes := loc_strikes r; loc_batter_hand := hand;
     avg_sz_top := avg_sz_top r; avg_sz_bot := avg_sz_bot r;
     pitches := pitches r |}.

(** Located pitches of pitcher 7 at one ball and two strikes. *)
Definition located_pitch (hand : string) (x z : Q) (top bot : option Q)
  : PitchRow :=
  {| pitcher_id := 7; game_date := None; inning := None;
     top_bottom := None; batter_hand := Some hand; balls := Some 1;
     strikes := Some 2; pitch_type := Some "FF"; velocity := None;
     plate_x := Some x; plate_z := Some z; sz_top := top; sz_bot := bot;
     description := Some "ball"; outcome := None; runs_value := None |}.

Definition located_table : list PitchRow :=
  [ located_pitch "R" 0.5 2 (Some 3.5) (Some 1.5);
    located_pitch "L" (-0.25) 3 (Some 3) None;
    located_pitch "R" 0 1 None (Some 2) ]%Q.

End Spec.

Module EtlSpec.

Import Etl.

(** A value that the driver can bind: [None] or a [str]. *)
Definition is_text (v : Value) : Prop :=
  match v with VList _ => False | _ => True end.

Definition text_of (v : Value) : option string :=
  match v with VStr s => Some s | _ => None end.

(** The internal id registered for an external id. *)
Definition internal_id (mlb : Z) (ps : list Pitcher) : option Z :=
  id <$> List.find (fun p => mlb_id p =? mlb) ps.

Definition one_record_per_id (ps : list Pitcher) : Prop :=
  List.NoDup (map mlb_id ps).

(** A call of the registry: [resolve(external_id, name, hand)]. *)
Record Call := {
  call_mlb : Z;
  call_name : Value;
  call_hand : Value
}.

Definition text_call (c : Call) : Prop :=
  is_text (call_name c) /\ is_text (call_hand c).

(** The calls of a run, one after the other, and the ids they return. *)
Fixpoint resolve_all (calls : list Call) : M World (list Z) :=
  match calls with
  | [] => mret []
  | c :: cs =>
      i ← get_or_create_pitcher (call_mlb c) (call_name c) (call_hand c);
      rest ← resolve_all cs;
      mret (i :: rest)
  end.

(** The calls that meet an external id for the first time, given the
    external ids already known. *)
Fixpoint first_sightings (known : list Z) (calls : list Call) : list Call :=
  match calls with
  | [] => []
  | c :: cs =>
      if existsb (Z.eqb (call_mlb c)) known then first_sightings known cs
      else c :: first_sightings (known ++ [call_mlb c]) cs
  end.

(** The record that a first sighting creates. *)
Definition created_by (c : Call) (p : Pitcher) : Prop :=
  mlb_id p = call_mlb c /\ name p = text_of (call_name c)
  /\ throws_hand p = text_of (call_hand c).

Definition empty_db : Db := {| pitchers := []; events := [] |}.

Definition start (d : Db) : World := {| db := d; stdout := [] |}.

(** A file that the reader cannot get through: the read of its header
    raises, or it has the two required columns and a later read
    raises. *)
Definition fails_to_read (f : CsvFile) : Prop :=
  match records f with
  | Unreadable :: _ => True
  | Cells (h :: hs) :: body =>
      let c := resolve_columns (header_map_of (h :: hs)) in
      present (pitcher_col c) = true /\ present (pitch_type_col c) = true
      /\ In Unreadable body
  | _ => False
  end.

(** A file without a header, or whose header lacks a required column. *)
Definition lacks_header (f : CsvFile) : Prop :=
  match records f with
  | [] | Cells [] :: _ => True
  | _ => False
  end.

Definition lacks_required (f : CsvFile) : Prop :=
  match records f with
  | Cells (h :: hs) :: _ =>
      let c := resolve_columns (header_map_of (h :: hs)) in
      present (pitcher_col c) = false \/ present (pitch_type_col c) = false
  | _ => False
  end.

(** Three calls of one run: the third repeats the external id of the
    first with another name and hand. *)
Definition example_calls : list Call :=
  [ {| call_mlb := 123; call_name := VStr "Bob"; call_hand := VStr "R" |};
    {| call_mlb := 456; call_name := VStr "Al"; call_hand := VStr "L" |};
    {| call_mlb := 123; call_name := VStr "Robert"; call_hand := VStr "L" |} ].

(** Example files. *)
Definition good_file : CsvFile :=
  {| file_name := "good.csv";
     chunks := [Decoded [Cells ["pitcher"; "pitch_type"; "player_name"];
                 Cells ["123"; "FF"; "Bob"]]] |}.

(** A short file with a byte that is not UTF-8 in its second row, and a
    long one with such a byte in its second chunk. *)
Definition broken_file : CsvFile :=
  {| file_name := "broken.csv"; chunks := [Undecodable] |}.

Definition long_broken_file : CsvFile :=
  {| file_name := "long.csv";
     chunks := [Decoded [Cells ["pitcher"; "pitch_type"];
                         Cells ["456"; "SL"]];
                Undecodable] |}.

Definition blank_type_file : CsvFile :=
  {| file_name := "blank.csv";
     chunks := [Decoded [Cells ["pitcher"; "pitch_type"]; Cells ["123"; ""]]] |}.

Definition surplus_file : CsvFile :=
  {| file_name := "surplus.csv";
     chunks := [Decoded [Cells ["pitcher"; "pitch_type"];
                 Cells ["123"; ""; "x"]]] |}.

(** A file with the name and hand columns, no half-inning column, and a
    row with a surplus cell. *)
Definition surplus_file_named : CsvFile :=
  {| file_name := "surplus2.csv";
     chunks := [Decoded [Cells ["pitcher"; "pitch_type"; "player_name"; "p_throws"];
                 Cells ["123"; ""; "Bob"; "R"; "x"]]] |}.

(** The columns of a header made of the two required names. *)
Definition two_columns : Columns :=
  resolve_columns (header_map_of ["pitcher"; "pitch_type"]).

End EtlSpec.


(** ** Vocabulary of the further properties *)

Module View.

Import Api.

(** The pitches of a table thrown to batters of one hand. *)
Definition with_hand (h : string) (tbl : list PitchRow) : list PitchRow :=
  List.filter (fun r => Sql.eq_text (batter_hand r) h) tbl.

(** The label of a count in the usage breakdown. *)
Definition count_label (b s : Z) : string :=
  Py.format_int b +:+ "-" +:+ Py.format_int s.

(** [d.get(k)] on a dictionary in insertion order. *)
Fixpoint dict_get {V} (k : string) (d : Dict V) : option V :=
  match d with
  | [] => None
  | (k', v) :: d' => if String.eqb k k' then Some v else dict_get k d'
  end.

(** The entry that the usage loop appends for a row of the statement. *)
Definition entry_of (r : UsageRow) : UsageEntry :=
  {| e_pitch_type := u_pitch_type r;
     e_total := u_total r;
     e_whiff_pct := rate (u_whiffs r) (u_total r);
     e_hard_hit_pct := rate (u_hard_hits r) (u_total r) |}.

(** The number of pitches of a table at one count and of one type, under
    the filter of the usage statement. *)
Definition pitches_at (pid : Z) (hand : option string) (tbl : list PitchRow)
    (k : Z * Z * string) : Z :=
  Sql.count_where (in_usage_group k)
    (List.filter (usage_where pid hand) tbl).

(** The pitches that a usage breakdown accounts for. *)
Definition pitches_counted (d : Dict (list UsageEntry)) : Z :=
  fold_right (fun kv acc => fold_right (fun e a => e_total e + a) 0 kv.2 + acc)
    0 d.

(** The whiffs and the hard hits among the pitches of type [pt] of a
    situation. *)
Definition whiffs_of_type (pid b s : Z) (hand : option string)
    (tbl : list PitchRow) (pt : string) : Z :=
  Sql.count_where (fun r => has_type pt r && is_whiff r)
    (List.filter (situation_where pid b s hand) tbl).

Definition hard_hits_of_type (pid b s : Z) (hand : option string)
    (tbl : list PitchRow) (pt : string) : Z :=
  Sql.count_where (fun r => has_type pt r && is_hard_hit r)
    (List.filter (situation_where pid b s hand) tbl).

(** The pattern holds no wildcard. *)
Fixpoint plain (pat : string) : bool :=
  match pat with
  | EmptyString => true
  | String c pat' =>
      negb (Ascii.eqb c "%") && negb (Ascii.eqb c "_") && plain pat'
  end.

(** The letter e with an acute accent, two bytes in UTF-8. *)
Definition e_acute : string := String "195" (String "169" "").

(** One character of a text in UTF-8 that LIKE can read: a byte other
    than NUL, followed by continuation bytes, and by nothing else, if it
    is a lead byte. *)
Definition one_char (ch : string) : bool :=
  match ch with
  | EmptyString => false
  | String d t =>
      negb (Ascii.eqb d "000")
      && String.eqb (if Sql.utf8_lead d then Sql.skip_continuation t else t) ""
  end.

(** The pitch is outside the situation of a request: another pitcher,
    other balls or strikes, or no pitch type. *)
Definition outside (req : RecommendationRequest) (r : PitchRow) : Prop :=
  situation_where (req_pitcher_id req) (req_balls req) (req_strikes req)
    None r = false.

(** The same pitch thrown by pitcher [pid]. *)
Definition moved_to (pid : Z) (r : PitchRow) : PitchRow :=
  {| pitcher_id := pid; game_date := game_date r; inning := inning r;
     top_bottom := top_bottom r; batter_hand := batter_hand r;
     balls := balls r; strikes := strikes r; pitch_type := pitch_type r;
     velocity := velocity r; plate_x := plate_x r; plate_z := plate_z r;
     sz_top := sz_top r; sz_bot := sz_bot r;
     description := description r; outcome := outcome r;
     runs_value := runs_value r |}.

(** The bounds that the pitches endpoint declares and the framework
    checks: balls up to 3, strikes up to 2, a limit from 1 to 2000; balls
    and strikes are required, the limit is not. *)
Definition admitted (balls strikes limit : option Z) : bool :=
  match balls, strikes with
  | Some b, Some s =>
      (b <=? 3) && (s <=? 2)
      && match limit with
         | Some l => (1 <=? l) && (l <=? 2000)
         | None => true
         end
  | _, _ => false
  end.

(** The integers of a request can be bound to a statement. *)
Definition bindable_request (req : RecommendationRequest) : Prop :=
  Sql.bindable (req_pitcher_id req) = true
  /\ Sql.bindable (req_balls req) = true
  /\ Sql.bindable (req_strikes req) = true.

Definition bindable_if_given (v : option Z) : Prop :=
  forall n, v = Some n -> Sql.bindable n = true.

(** The order of two keys under a comparison. *)
Definition before {K} (cmp : K -> K -> comparison) (a b : K) : Prop :=
  cmp a b = Lt.

(** The confidence as a function of the best score, by cases. *)
Definition confidence_by_cases (sc : Q) : Q :=
  if Qle_bool sc 0.05 then 0.55%Q
  else if Qle_bool 0.45 sc then 0.95%Q
  else (sc + 0.5)%Q.

End View.

Module EtlView.

Import Etl EtlSpec.

(** The event belongs to a pitcher of the registry. *)
Definition refers (ps : list Pitcher) (e : PitchRow) : Prop :=
  exists p, In p ps /\ id p = pitcher_id e.

(** The shape of an event that the ingestion writes. *)
Definition well_formed_event (e : PitchRow) : Prop :=
  (exists pt, pitch_type e = Some pt /\ pt <> "")
  /\ description e <> None
  /\ runs_value e = None
  /\ (top_bottom e = None \/ top_bottom e = Some "Top"
      \/ top_bottom e = Some "Bottom").

(** The database [d'] is [d] with more pitchers and more events at the
    end, the new events being well formed and owned by registered
    pitchers, and with one record per external id if [d] had so. *)
Definition grows (d d' : Db) : Prop :=
  exists ps es,
    pitchers d' = pitchers d ++ ps
    /\ events d' = events d ++ es
    /\ Forall (fun e => refers (pitchers d') e /\ well_formed_event e) es
    /\ (one_record_per_id (pitchers d) -> one_record_per_id (pitchers d')).

(** The record has no more cells than the header has names. *)
Definition fits (fieldnames : list string) (r : CsvRecord) : Prop :=
  match r with
  | Cells cells => (length cells <= length fieldnames)%nat
  | Unreadable => False
  end.

(** The rows that the reader makes of the records after the header. *)
Definition data_rows (fieldnames : list string) (rs : list CsvRecord)
  : list DictRow :=
  omap (fun r => match r with
                 | Cells (c :: cells) => Some (dict_row fieldnames (c :: cells))
                 | _ => None
                 end) rs.

(** The row passes the three checks of the loop. *)
Definition accepted (int_of_str : string -> option Z) (c : Columns)
    (row : DictRow) : bool :=
  truthy (row_get row (pitcher_col c))
  && match to_int int_of_str (row_get row (pitcher_col c)) with
     | Some _ => true
     | None => false
     end
  && truthy (row_get row (pitch_type_col c)).

(** The integers that the loop reads from a row (the pitcher id, the
    inning, the balls and the strikes) can be bound to a statement. *)
Definition binds (int_of_str : string -> option Z) (c : Columns)
    (row : DictRow) : bool :=
  forallb (fun k => match to_int int_of_str (row_get row k) with
                    | Some n => Sql.bindable n
                    | None => true
                    end)
    [pitcher_col c; inning_col c; balls_col c; strikes_col c].

(** The last header of the list whose sanitized name is [nm]. *)
Definition last_named (raw_headers : list string) (nm : string)
  : option string :=
  List.find (fun h => String.eqb (sanitize_header h) nm) (rev raw_headers).

(** Some header of the list has the sanitized name [nm]. *)
Definition names (raw_headers : list string) (nm : string) : Prop :=
  exists h, In h raw_headers /\ sanitize_header h = nm.

(** Every character of the text satisfies [p]. *)
Fixpoint all_of (p : ascii -> bool) (s : string) : bool :=
  match s with
  | EmptyString => true
  | String c s' => p c && all_of p s'
  end.

Definition seven_bit (c : ascii) : bool := (N_of_ascii c <? 128)%N.

Definition first_char (s : string) : option ascii :=
  match s with
  | String c _ => Some c
  | EmptyString => None
  end.

Fixpoint last_char (s : string) : option ascii :=
  match s with
  | EmptyString => None
  | String c s' =>
      match last_char s' with
      | Some d => Some d
      | None => Some c
      end
  end.

(** Neither end of the text satisfies [p]. *)
Definition bare_by (p : ascii -> bool) (s : string) : Prop :=
  forall c, first_char s = Some c \/ last_char s = Some c -> p c = false.

(** A column name in ASCII that neither begins nor ends with white space
    or a double quote. *)
Definition bare (nm : string) : Prop :=
  all_of seven_bit nm = true
  /\ bare_by Py.is_space nm
  /\ bare_by (Ascii.eqb double_quote) nm.

(** A file of three rows under a complete pair of required columns. *)
Definition tidy_file : CsvFile :=
  {| file_name := "tidy.csv";
     chunks := [Decoded [Cells ["pitcher"; "pitch_name"; "inning_topbot"];
                 Cells ["123"; "FF"; "Top"];
                 Cells [];
                 Cells ["x"; "SL"; "Bot"];
                 Cells ["123"; "CU"]]] |}.

End EtlView.
(** * Properties of the model *)

(** ** Arithmetic of rates and of the confidence clamp *)

Section Arithmetic.

Local Open Scope Q_scope.

Lemma Qltb_lt (a b : Q) : Py.Qltb a b = true <-> a < b.
Proof.
  unfold Py.Qltb. rewrite negb_true_iff. split.
  - intros H. apply Qnot_le_lt. intros Hle.
    apply Qle_bool_iff in Hle. congruence.
  - intros H. destruct (Qle_bool b a) eqn:E; auto.
    apply Qle_bool_iff in E. lra.
Qed.

Lemma Qltb_ge (a b : Q) : Py.Qltb a b = false <-> b <= a.
Proof.
  split.
  - intros H. destruct (Qlt_le_dec a b) as [Hlt | Hle]; auto.
    apply Qltb_lt in Hlt. congruence.
  - intros H. destruct (Py.Qltb a b) eqn:E; auto.
    apply Qltb_lt in E. lra.
Qed.



Lemma clamp_bounds (x : Q) :
  0.55 <= Py.min 0.95 (Py.max 0.55 x) <= 0.95.
Proof.
  unfold Py.min, Py.max.
  destruct (Py.Qltb 0.55 x) eqn:E1.
  - apply Qltb_lt in E1. destruct (Py.Qltb x 0.95) eqn:E2.
    + apply Qltb_lt in E2. lra.
    + lra.
  - destruct (Py.Qltb 0.55 0.95) eqn:E2; [lra | discriminate E2].
Qed.

Lemma rate_bounds (k t : Z) :
  (0 < t)%Z -> (0 <= k <= t)%Z -> 0 <= Api.rate k t <= 1.
Proof.
  intros Ht [H0 H1]. unfold Api.rate.
  destruct (Z.eqb_spec t 0) as [-> | _]; [lia |].
  assert (Hq : 0 < inject_Z t) by (change 0 with (inject_Z 0); rewrite <- Zlt_Qlt; lia).
  split.
  - apply Qle_shift_div_l; [exact Hq |]. rewrite Qmult_0_l.
    change 0 with (inject_Z 0). rewrite <- Zle_Qle. exact H0.
  - apply Qle_shift_div_r; [exact Hq |]. rewrite Qmult_1_l.
    rewrite <- Zle_Qle. exact H1.
Qed.

Lemma rate_is_quotient (k t : Z) :
  (0 < t)%Z -> Api.rate k t = inject_Z k / inject_Z t.
Proof.
  intros Ht. unfold Api.rate.
  destruct (Z.eqb_spec t 0) as [-> | _]; [lia | reflexivity].
Qed.

End Arithmetic.

(** ** Running a computation *)

Section Running.

Lemma bind_run {S A B} (c : M S A) (k : A -> M S B) (st : S) :
  (c ≫= k) st =
    match c st with
    | Ok (a, st') => k a st'
    | Raise e => Raise e
    end.
Proof. reflexivity. Qed.

Lemma lift_res_run {S A} (r : Res A) (st : S) :
  lift_res r st = match r with Ok a => Ok (a, st) | Raise e => Raise e end.
Proof. reflexivity. Qed.

End Running.

(** ** The scorer *)

Section Scorer.

Local Open Scope Q_scope.
Import Api Spec.

Lemma score_bounds (r : AggRow) : counts_row r -> -1 <= score r <= 1.
Proof.
  intros (Ht & Hw & Hh). unfold score.
  pose proof (rate_bounds _ _ Ht Hw). pose proof (rate_bounds _ _ Ht Hh).
  lra.
Qed.

Lemma scan_step_eq (bs : Q) (bp : option Best) (r : AggRow) :
  scan_step (bs, bp) r =
    if Py.Qltb bs (score r) then (score r, Some (best_of r)) else (bs, bp).
Proof. reflexivity. Qed.

(** The loop from any starting state: either no row beats the starting
    score and the state is unchanged, or the state is that of the first
    row among those of greatest score. *)
Lemma scan_from (rows : list AggRow) (bs : Q) (bp : option Best) :
  (Forall (fun x => score x <= bs) rows
   /\ fold_left scan_step rows (bs, bp) = (bs, bp))
  \/ (exists pre r post,
        rows = pre ++ r :: post
        /\ bs < score r
        /\ Forall (fun x => score x < score r) pre
        /\ Forall (fun x => score x <= score r) post
        /\ fold_left scan_step rows (bs, bp) = (score r, Some (best_of r))).
Proof.
  revert bs bp. induction rows as [| a rows IH]; intros bs bp.
  - left. split; [constructor | reflexivity].
  - cbn [fold_left]. rewrite scan_step_eq.
    destruct (Py.Qltb bs (score a)) eqn:E.
    + apply Qltb_lt in E. right.
      destruct (IH (score a) (Some (best_of a)))
        as [[Hall Hf] | (pre & r & post & -> & Hlt & Hpre & Hpost & Hf)].
      * exists [], a, rows.
        split; [reflexivity |]. split; [exact E |].
        split; [constructor |]. split; assumption.
      * exists (a :: pre), r, post.
        split; [reflexivity |]. split; [lra |].
        split; [constructor; assumption |]. split; assumption.
    + apply Qltb_ge in E.
      destruct (IH bs bp)
        as [[Hall Hf] | (pre & r & post & -> & Hlt & Hpre & Hpost & Hf)].
      * left. split; [constructor; assumption | exact Hf].
      * right. exists (a :: pre), r, post.
        split; [reflexivity |]. split; [exact Hlt |].
        split; [constructor; [lra | exact Hpre] |]. split; assumption.
Qed.

(** On rows of counts the loop always assigns [best_pitch]. *)
Lemma scan_finds (rows : list AggRow) :
  rows <> [] -> Forall counts_row rows ->
  exists pre r post,
    rows = pre ++ r :: post
    /\ Forall (fun x => score x < score r) pre
    /\ Forall (fun x => score x <= score r) post
    /\ scan rows = (score r, Some (best_of r)).
Proof.
  intros Hne Hrows. unfold scan.
  destruct (scan_from rows (-999) None)
    as [[Hall _] | (pre & r & post & E & _ & Hpre & Hpost & Hf)].
  - destruct rows as [| a rows]; [congruence |].
    apply Forall_cons in Hall as [Ha _]. apply Forall_cons in Hrows as [Hc _].
    pose proof (score_bounds a Hc). lra.
  - exists pre, r, post. auto.
Qed.

End Scorer.

(** ** The aggregate of a situation *)

Section Aggregate.

Import Api Spec.

Lemma count_where_all {A} (g : list A) :
  Sql.count_where (fun _ => true) g = Z.of_nat (length g).
Proof. unfold Sql.count_where. rewrite filter_true. reflexivity. Qed.

Lemma count_where_bounds {A} (c : A -> bool) (g : list A) :
  0 <= Sql.count_where c g <= Sql.count_where (fun _ => true) g.
Proof.
  rewrite count_where_all. unfold Sql.count_where.
  pose proof (filter_length_le c g). lia.
Qed.

Context {K : Type} (cmp : K -> K -> comparison).
Hypothesis cmp_eq : forall a b, cmp a b = Eq -> a = b.

Lemma insert_key_In (k x : K) (ks : list K) :
  In x (Sql.insert_key cmp k ks) <-> x = k \/ In x ks.
Proof.
  induction ks as [| y ks IH]; simpl.
  - intuition.
  - destruct (cmp k y) eqn:E; simpl.
    + apply cmp_eq in E as ->. intuition.
    + intuition.
    + rewrite IH. intuition.
Qed.

Lemma distinct_sorted_In (x : K) (ks : list K) :
  In x (Sql.distinct_sorted cmp ks) <-> In x ks.
Proof.
  unfold Sql.distinct_sorted. induction ks as [| k ks IH]; simpl.
  - reflexivity.
  - rewrite insert_key_In, IH. intuition.
Qed.

End Aggregate.

Section Situation.

Import Api Spec.

Variables (pid b s : Z) (hand : option string) (tbl : list PitchRow).

Lemma aggregate_group_total (rows : list PitchRow) (pt : string) :
  agg_total (aggregate_group rows pt) = Sql.count_where (has_type pt) rows.
Proof. unfold aggregate_group; simpl. apply count_where_all. Qed.

(** Every row that the statement returns has at least five pitches, and
    its two counts are taken among them. *)
Lemma select_situation_rows :
  Forall (fun r => 5 <= agg_total r /\ counts_row r)
    (select_situation pid b s hand tbl).
Proof.
  apply List.Forall_forall. intros r Hin. unfold select_situation in Hin.
  apply filter_In in Hin as [Hin H5]. apply Z.leb_le in H5.
  apply in_map_iff in Hin as (pt & <- & _).
  split; [exact H5 |]. unfold counts_row.
  split; [lia |]. unfold aggregate_group; simpl.
  split; apply count_where_bounds.
Qed.

Lemma select_situation_counts :
  Forall counts_row (select_situation pid b s hand tbl).
Proof.
  eapply List.Forall_impl; [| exact select_situation_rows].
  intros r [_ H]. exact H.
Qed.

(** The statement returns no row exactly when no pitch type has five
    pitches in the situation. *)
Lemma select_situation_nil :
  select_situation pid b s hand tbl = []
  <-> forall pt, pitches_of_type pid b s hand tbl pt < 5.
Proof.
  unfold select_situation, pitches_of_type.
  set (rows := List.filter (situation_where pid b s hand) tbl).
  split.
  - intros Hnil pt.
    destruct (Z.lt_ge_cases (Sql.count_where (has_type pt) rows) 5)
      as [Hlt | Hge]; [exact Hlt | exfalso].
    assert (Hin : In pt (omap pitch_type rows)).
    { unfold Sql.count_where in Hge.
      destruct (List.filter (has_type pt) rows) as [| r g] eqn:E;
        [simpl in Hge; lia |].
      assert (Hr : In r (List.filter (has_type pt) rows))
        by (rewrite E; left; reflexivity).
      apply filter_In in Hr as [Hr Ht].
      apply list_elem_of_In, list_elem_of_omap. exists r.
      split; [apply list_elem_of_In; exact Hr |].
      unfold has_type, Sql.eq_text in Ht.
      destruct (pitch_type r) as [q |]; [| discriminate].
      apply String.eqb_eq in Ht as ->. reflexivity. }
    apply (distinct_sorted_In String.compare String.compare_eq_iff) in Hin.
    assert (Hg : In (aggregate_group rows pt)
                   (List.filter (fun g => 5 <=? agg_total g)
                      (map (aggregate_group rows)
                         (Sql.distinct_sorted String.compare
                            (omap pitch_type rows))))).
    { apply filter_In. split; [apply in_map; exact Hin |].
      apply Z.leb_le. rewrite aggregate_group_total. lia. }
    rewrite Hnil in Hg. destruct Hg.
  - intros Hall.
    destruct (List.filter (fun g => 5 <=? agg_total g) _) as [| g gs] eqn:E;
      [reflexivity | exfalso].
    assert (Hg : In g (g :: gs)) by (left; reflexivity).
    rewrite <- E in Hg. apply filter_In in Hg as [Hg H5].
    apply Z.leb_le in H5. apply in_map_iff in Hg as (pt & <- & _).
    rewrite aggregate_group_total in H5. specialize (Hall pt). lia.
Qed.

End Situation.

(** ** The recommendation *)

Section Recommendation.

Import Api Spec.
Local Open Scope Q_scope.

Lemma rationale_line_nonempty (pt : string) (w h : Q) :
  rationale_line pt w h <> "".
Proof. unfold rationale_line. destruct pt; discriminate. Qed.

Lemma recommend_from_rows (rows : list AggRow) :
  rows <> [] -> Forall counts_row rows ->
  exists pre r post,
    rows = pre ++ r :: post
    /\ Forall (fun x => score x < score r) pre
    /\ Forall (fun x => score x <= score r) post
    /\ recommend_from rows =
         Ok {| recommended_pitch_type := agg_pitch_type r;
               confidence := Py.min 0.95 (Py.max 0.55 (score r + 0.5));
               rationale :=
                 [rationale_line (agg_pitch_type r)
                    (rate (agg_whiffs r) (agg_total r))
                    (rate (agg_hard_hits r) (agg_total r))];
               historical_outcomes :=
                 {| sample_size := agg_total r;
                    whiff_pct := rate (agg_whiffs r) (agg_total r);
                    in_play_hard_hit_pct :=
                      rate (agg_hard_hits r) (agg_total r) |} |}.
Proof.
  intros Hne Hrows.
  destruct (scan_finds rows Hne Hrows) as (pre & r & post & E & Hpre & Hpost & Hs).
  exists pre, r, post. repeat (split; [assumption |]).
  unfold recommend_from. destruct rows as [| a rows]; [congruence |].
  rewrite Hs. reflexivity.
Qed.

(** The example, from the table to the response. *)
Example recommend_example_run :
  run (recommend_pitch example_request) example_table =
    Ok ({| recommended_pitch_type := "SL";
           confidence := 0.95;
           rationale :=
             ["SL has a whiff rate of 62% and hard-hit in-play rate of 12% in similar situations."];
           historical_outcomes :=
             {| sample_size := 8; whiff_pct := 5 # 8;
                in_play_hard_hit_pct := 1 # 8 |} |},
        [SelectSituation 7 1 2 (Some "R")]).
Proof. vm_compute. reflexivity. Qed.

End Recommendation.

(** ** The cascade of statements *)

Section Cascade.

Import Api Spec.
Local Open Scope Q_scope.

Lemma fetch_situation_run (pid b s : Z) (hand : option string) (c : Conn) :
  fetch_situation pid b s hand c =
    Ok (select_situation pid b s hand (table c),
        {| table := table c;
           executed := executed c ++ [SelectSituation pid b s hand] |}).
Proof. reflexivity. Qed.

Variable tbl : list PitchRow.
Variable req : RecommendationRequest.

Let pid := req_pitcher_id req.
Let b := req_balls req.
Let s := req_strikes req.
Let exact := select_situation pid b s (Some (req_batter_hand req)) tbl.
Let pooled := select_situation pid b s None tbl.
Let exact_hand := SelectSituation pid b s (Some (req_batter_hand req)).
Let pooled_hands := SelectSituation pid b s None.

(** The run of the endpoint, statement by statement. *)
Lemma recommend_pitch_run :
  run (recommend_pitch req) tbl =
    match exact with
    | [] =>
        match recommend_from pooled with
        | Ok resp => Ok (resp, [exact_hand; pooled_hands])
        | Raise e => Raise e
        end
    | _ =>
        match recommend_from exact with
        | Ok resp => Ok (resp, [exact_hand])
        | Raise e => Raise e
        end
    end.
Proof.
  unfold run, recommend_pitch.
  rewrite bind_run, fetch_situation_run. cbn [table executed app].
  fold pid b s. fold exact.
  destruct exact as [| a rows] eqn:E.
  - rewrite bind_run, fetch_situation_run, lift_res_run.
    cbn [table executed app]. fold pooled.
    destruct (recommend_from pooled); reflexivity.
  - rewrite bind_run. unfold mret, M_ret. rewrite lift_res_run.
    destruct (recommend_from (a :: rows)); reflexivity.
Qed.

Lemma recommend_from_answers (rows : list AggRow) :
  Forall counts_row rows ->
  exists resp,
    recommend_from rows = Ok resp
    /\ (rows = [] -> resp = default_recommendation)
    /\ (rows <> [] ->
          rationale resp <> []
          /\ Forall (fun line => line <> "") (rationale resp)
          /\ 0.55 <= confidence resp <= 0.95).
Proof.
  intros Hrows. destruct rows as [| a rows].
  - exists default_recommendation. split; [reflexivity |].
    split; [reflexivity | congruence].
  - destruct (recommend_from_rows (a :: rows)) as (pre & r & post & _ & _ & _ & Hr);
      [discriminate | exact Hrows |].
    eexists. split; [exact Hr |]. split; [discriminate |].
    intros _. cbn. split; [discriminate |].
    split; [| apply clamp_bounds].
    constructor; [apply rationale_line_nonempty | constructor].
Qed.

Lemma endpoint_answers :
  exists resp,
    run (recommend_pitch req) tbl =
      Ok (resp, exact_hand :: match exact with
                              | [] => [pooled_hands]
                              | _ => []
                              end)
    /\ recommend_from (match exact with [] => pooled | _ => exact end)
       = Ok resp.
Proof.
  rewrite recommend_pitch_run. destruct exact as [| a rows] eqn:E.
  - destruct (recommend_from_answers pooled) as (resp & Hr & _);
      [apply select_situation_counts |].
    exists resp. rewrite Hr. split; reflexivity.
  - destruct (recommend_from_answers (a :: rows)) as (resp & Hr & _).
    { rewrite <- E. apply select_situation_counts. }
    exists resp. rewrite Hr. split; reflexivity.
Qed.

(** C2. The endpoint sends the exact-hand statement once, first. It sends
    the pooled statement (same pitcher, balls and strikes, no condition
    on the batter hand, the same floor of five pitches) exactly when the
    exact-hand statement returned no row, that is when no pitch type has
    five pitches for that hand, and then once, with its rows deciding the
    answer; otherwise the pooled statement is never sent. *)
Theorem recommend_cascade :
  exists resp trace,
    run (recommend_pitch req) tbl = Ok (resp, trace)
    /\ trace = exact_hand :: match exact with
                             | [] => [pooled_hands]
                             | _ => []
                             end
    /\ List.NoDup trace
    /\ (In pooled_hands trace <-> exact = [])
    /\ (exact = [] <->
          forall pt,
            (pitches_of_type pid b s (Some (req_batter_hand req)) tbl pt < 5)%Z)
    /\ Forall (fun r => (5 <= agg_total r)%Z) pooled
    /\ recommend_from (match exact with [] => pooled | _ => exact end)
       = Ok resp.
Proof.
  destruct endpoint_answers as (resp & Hrun & Hresp).
  exists resp. eexists. split; [exact Hrun |]. split; [reflexivity |].
  split; [| split; [| split; [| split]]].
  - destruct exact.
    + apply List.NoDup_cons; [simpl; intuition discriminate |].
      apply List.NoDup_cons; [simpl; tauto | apply List.NoDup_nil].
    + apply List.NoDup_cons; [simpl; tauto | apply List.NoDup_nil].
  - destruct exact; simpl; intuition discriminate.
  - apply select_situation_nil.
  - eapply List.Forall_impl; [| apply select_situation_rows].
    intros r [H _]. exact H.
  - exact Hresp.
Qed.

(** C3. The endpoint always answers. When the exact-hand or the pooled
    statement returns a row, the rationale has a line, no line of it is
    empty, and the confidence lies between 0.55 and 0.95. When neither
    returns a row, the answer is exactly: pitch type "FF", confidence 0.5,
    sample size 0, both rates 0, and the note on insufficient data. *)
Theorem recommend_always_answers :
  exists resp trace,
    run (recommend_pitch req) tbl = Ok (resp, trace)
    /\ (exact <> [] \/ pooled <> [] ->
          rationale resp <> []
          /\ Forall (fun line => line <> "") (rationale resp)
          /\ 0.55 <= confidence resp <= 0.95)
    /\ (exact = [] -> pooled = [] ->
          resp =
            {| recommended_pitch_type := "FF";
               confidence := 0.5;
               rationale :=
                 ["Insufficient historical data for this situation; defaulting to four-seam fastball."];
               historical_outcomes :=
                 {| sample_size := 0; whiff_pct := 0;
                    in_play_hard_hit_pct := 0 |} |}).
Proof.
  destruct endpoint_answers as (resp & Hrun & Hresp).
  exists resp. eexists. split; [exact Hrun |].
  set (rows := match exact with [] => pooled | _ => exact end) in Hresp.
  destruct (recommend_from_answers rows) as (resp' & Hr & Hnil & Hcons).
  { subst rows. destruct exact eqn:E; [apply select_situation_counts |].
    rewrite <- E. apply select_situation_counts. }
  assert (resp' = resp) as -> by congruence.
  split.
  - intros Hdata. apply Hcons. subst rows.
    destruct exact; [| discriminate]. destruct Hdata; [congruence | assumption].
  - intros He Hp. rewrite Hnil; [reflexivity |].
    subst rows. rewrite He. exact Hp.
Qed.

End Cascade.

(** ** The pitch-location summary and the usage breakdown *)

Section Location.

Import Api Spec.
Local Open Scope Q_scope.

Lemma fetch_located_run (pid b s : Z) (hand : option string) (lim : Z)
    (c : Conn) :
  fetch_located pid b s hand lim c =
    Ok (select_located pid b s hand lim (table c),
        {| table := table c;
           executed := executed c ++ [SelectLocated pid b s hand lim] |}).
Proof. reflexivity. Qed.

Lemma collect_from (rows : list Located) (ps : list PitchPoint)
    (tops bots : list Q) :
  fold_left collect_step rows (ps, tops, bots) =
    (ps ++ map point_of rows,
     tops ++ omap l_sz_top rows,
     bots ++ omap l_sz_bot rows).
Proof.
  revert ps tops bots. induction rows as [| r rows IH]; intros ps tops bots.
  - cbn. rewrite !app_nil_r. reflexivity.
  - cbn [fold_left collect_step]. rewrite IH. cbn [map].
    rewrite <- !app_assoc. f_equal; [f_equal |].
    + unfold append_some. cbn. destruct (l_sz_top r); cbn;
        rewrite <- ?app_assoc; reflexivity.
    + unfold append_some. cbn. destruct (l_sz_bot r); cbn;
        rewrite <- ?app_assoc; reflexivity.
Qed.

Lemma sum_from (xs : list Q) (a : Q) :
  fold_left Qplus xs a == a + fold_right Qplus 0 xs.
Proof.
  revert a. induction xs as [| x xs IH]; intros a; cbn.
  - lra.
  - rewrite IH. lra.
Qed.

(** The guarded quotient never divides by zero, and is the mean. *)
Lemma average_is_mean (xs : list Q) :
  exists a, average xs = Ok a
            /\ same_number a (arithmetic_mean xs)
            /\ (a = None <-> xs = []).
Proof.
  destruct xs as [| x xs].
  - exists None. cbn. intuition.
  - unfold average, Py.truediv.
    destruct (Qeq_bool (inject_Z (Z.of_nat (length (x :: xs)))) 0) eqn:E.
    + apply Qeq_bool_eq in E. unfold Qeq in E. cbn in E. lia.
    + eexists. split; [reflexivity |]. split.
      * unfold arithmetic_mean, same_number. cbn [length].
        unfold Py.sum. rewrite sum_from. rewrite Qplus_0_l. reflexivity.
      * split; discriminate.
Qed.

Variables (tbl : list PitchRow) (pid b s lim : Z).

Lemma pitcher_pitches_run (hand : option string) :
  let rows := select_located pid b s (hand_param hand) lim tbl in
  exists top bot,
    average (omap l_sz_top rows) = Ok top
    /\ average (omap l_sz_bot rows) = Ok bot
    /\ run (pitcher_pitches pid b s hand lim) tbl =
         Ok ({| loc_pitcher_id := pid; loc_balls := b; loc_strikes := s;
                loc_batter_hand := hand;
                avg_sz_top := top; avg_sz_bot := bot;
                pitches := map point_of rows |},
             [SelectLocated pid b s (hand_param hand) lim]).
Proof.
  intros rows.
  destruct (average_is_mean (omap l_sz_top rows)) as (top & Ht & _).
  destruct (average_is_mean (omap l_sz_bot rows)) as (bot & Hb & _).
  exists top, bot. split; [exact Ht |]. split; [exact Hb |].
  unfold run, pitcher_pitches.
  rewrite bind_run, fetch_located_run. cbn [table executed app].
  fold rows. rewrite collect_from. cbn [app].
  rewrite bind_run, lift_res_run, Ht.
  rewrite bind_run, lift_res_run, Hb. reflexivity.
Qed.

(** C8. The location summary always answers, with one statement. Its
    pitch list is the returned rows, point by point; [avg_sz_top] is the
    arithmetic mean of the [sz_top] values that are not null among the
    returned rows, and [avg_sz_bot] that of the [sz_bot] values, each
    null exactly when there is no such value. With no located pitch the
    pitch list is empty and both averages are null. No run ends in a
    division by zero. *)
Theorem location_summary_averages (hand : option string) :
  let rows := select_located pid b s (hand_param hand) lim tbl in
  exists resp,
    run (pitcher_pitches pid b s hand lim) tbl =
      Ok (resp, [SelectLocated pid b s (hand_param hand) lim])
    /\ pitches resp = map point_of rows
    /\ same_number (avg_sz_top resp) (arithmetic_mean (omap l_sz_top rows))
    /\ same_number (avg_sz_bot resp) (arithmetic_mean (omap l_sz_bot rows))
    /\ (avg_sz_top resp = None <-> omap l_sz_top rows = [])
    /\ (avg_sz_bot resp = None <-> omap l_sz_bot rows = [])
    /\ (rows = [] ->
          pitches resp = [] /\ avg_sz_top resp = None
          /\ avg_sz_bot resp = None).
Proof.
  intros rows.
  destruct (pitcher_pitches_run hand) as (top & bot & Ht & Hb & Hrun).
  fold rows in Ht, Hb, Hrun.
  destruct (average_is_mean (omap l_sz_top rows)) as (top' & Ht' & Hmt & Hnt).
  destruct (average_is_mean (omap l_sz_bot rows)) as (bot' & Hb' & Hmb & Hnb).
  assert (top' = top) as -> by congruence.
  assert (bot' = bot) as -> by congruence.
  eexists. split; [exact Hrun |]. cbn.
  split; [reflexivity |]. split; [exact Hmt |]. split; [exact Hmb |].
  split; [exact Hnt |]. split; [exact Hnb |].
  intros Hnil. rewrite Hnil in *. cbn.
  split; [reflexivity |]. split; [apply Hnt | apply Hnb]; reflexivity.
Qed.

End Location.

Section LocationRuns.

Import Api Spec.
Local Open Scope Q_scope.

Lemma location_summary_averages_witness :
  select_located 7 1 2 (hand_param None) 500 [] = []
  /\ exists resp,
       run (pitcher_pitches 7 1 2 None 500) [] =
         Ok (resp, [SelectLocated 7 1 2 None 500])
       /\ pitches resp = [] /\ avg_sz_top resp = None
       /\ avg_sz_bot resp = None.
Proof.
  split; [reflexivity |].
  destruct (location_summary_averages [] 7 1 2 500 None)
    as (resp & Hrun & _ & _ & _ & _ & _ & Hnil).
  exists resp. split; [exact Hrun |]. apply Hnil. reflexivity.
Defined.

Example location_summary_run :
  run (pitcher_pitches 7 1 2 (Some "R") 500) located_table =
    Ok ({| loc_pitcher_id := 7; loc_balls := 1; loc_strikes := 2;
           loc_batter_hand := Some "R";
           avg_sz_top := Some 3.5;
           avg_sz_bot := Some (35 # 20);
           pitches :=
             [ {| pt_plate_x := Some 0.5; pt_plate_z := Some 2;
                  pt_pitch_type := Some "FF";
                  pt_description := Some "ball"; pt_outcome := None |};
               {| pt_plate_x := Some 0; pt_plate_z := Some 1;
                  pt_pitch_type := Some "FF";
                  pt_description := Some "ball"; pt_outcome := None |} ] |},
        [SelectLocated 7 1 2 (Some "R") 500]).
Proof. reflexivity. Qed.

End LocationRuns.

(** ** The batter-hand parameter of the two views *)

Section BatterHand.

Import Api Spec.

Lemma hand_param_other (h : string) :
  h <> "L" -> h <> "R" -> hand_param (Some h) = None.
Proof.
  intros HL HR. unfold hand_param, valid_hand.
  destruct (String.eqb_spec h "L"); [contradiction |].
  destruct (String.eqb_spec h "R"); [contradiction |]. reflexivity.
Qed.

Lemma hand_param_valid (h : string) :
  h = "L" \/ h = "R" -> hand_param (Some h) = Some h.
Proof. intros [-> | ->]; reflexivity. Qed.

Lemma pitcher_usage_run (tbl : list PitchRow) (pid : Z)
    (hand : option string) :
  run (pitcher_usage pid hand) tbl =
    Ok ({| usage_pitcher_id := pid;
           usage_by_count :=
             fold_left usage_step
               (select_usage pid (hand_param hand) tbl) [] |},
        [SelectUsage pid (hand_param hand)]).
Proof. reflexivity. Qed.

(** C10, as the code has it. A [batter_hand] other than "L" and "R" puts
    no condition on the batter hand in either view: the statement sent
    is the one sent when the parameter is omitted. The usage view then
    answers exactly as when it is omitted; the pitches view answers
    with the same averages and the same pitch list, and echoes the
    value it was given in its [batter_hand] field. *)
Theorem invalid_hand_is_ignored (tbl : list PitchRow) (pid b s lim : Z)
    (h : string) :
  h <> "L" -> h <> "R" ->
  run (pitcher_usage pid (Some h)) tbl = run (pitcher_usage pid None) tbl
  /\ (exists u,
        run (pitcher_usage pid (Some h)) tbl = Ok (u, [SelectUsage pid None]))
  /\ exists resp,
       run (pitcher_pitches pid b s None lim) tbl =
         Ok (resp, [SelectLocated pid b s None lim])
       /\ run (pitcher_pitches pid b s (Some h) lim) tbl =
            Ok (echoing (Some h) resp, [SelectLocated pid b s None lim]).
Proof.
  intros HL HR. pose proof (hand_param_other h HL HR) as Hp.
  split; [| split].
  - rewrite !pitcher_usage_run, Hp. reflexivity.
  - eexists. rewrite pitcher_usage_run, Hp. reflexivity.
  - destruct (pitcher_pitches_run tbl pid b s lim None)
      as (top & bot & Ht & Hb & Hnone).
    destruct (pitcher_pitches_run tbl pid b s lim (Some h))
      as (top' & bot' & Ht' & Hb' & Hsome).
    rewrite Hp in Ht', Hb', Hsome. change (hand_param None) with (@None string) in *.
    assert (top' = top) as -> by congruence.
    assert (bot' = bot) as -> by congruence.
    eexists. split; [exact Hnone |]. rewrite Hsome. reflexivity.
Qed.

End BatterHand.

Section BatterHandRuns.

Import Api Spec.

(** C10 as stated fails: with a hand that is neither "L" nor "R" the
    pitches view does not answer as it does when the hand is omitted. *)
Lemma invalid_hand_same_result_fails :
  run (pitcher_pitches 7 1 2 (Some "l") 500) located_table
  <> run (pitcher_pitches 7 1 2 None 500) located_table.
Proof. vm_compute. discriminate. Qed.

Lemma invalid_hand_is_ignored_witness :
  "l" <> "L" /\ "l" <> "R"
  /\ run (pitcher_usage 7 (Some "l")) located_table
     = run (pitcher_usage 7 None) located_table
  /\ exists resp,
       run (pitcher_pitches 7 1 2 None 500) located_table =
         Ok (resp, [SelectLocated 7 1 2 None 500])
       /\ run (pitcher_pitches 7 1 2 (Some "l") 500) located_table =
            Ok (echoing (Some "l") resp, [SelectLocated 7 1 2 None 500]).
Proof.
  assert (HL : "l" <> "L") by discriminate.
  assert (HR : "l" <> "R") by discriminate.
  split; [exact HL |]. split; [exact HR |].
  destruct (invalid_hand_is_ignored located_table 7 1 2 500 "l" HL HR)
    as (Hu & _ & Hp).
  split; [exact Hu | exact Hp].
Defined.

End BatterHandRuns.

(** ** The request boundary of the pitches view *)

Section Boundary.

Import Api Spec.

Lemma within_balls (v : Z) : within balls_query v = (v <=? 3).
Proof. reflexivity. Qed.

Lemma within_strikes (v : Z) : within strikes_query v = (v <=? 2).
Proof. reflexivity. Qed.

Lemma within_limit (v : Z) :
  within limit_query v = (1 <=? v) && (v <=? 2000).
Proof. unfold within, bound, keyword. cbn. rewrite andb_true_r. reflexivity. Qed.

(** What the boundary does enforce: the upper bounds of balls and
    strikes, the range of the limit and its default. *)
Lemma get_pitches_rejects (tbl : list PitchRow) (pid b s : Z)
    (hand : option string) (lim : option Z) :
  3 < b \/ 2 < s \/ (exists l, lim = Some l /\ (l < 1 \/ 2000 < l)) ->
  run (get_pitches pid (Some b) (Some s) hand lim) tbl = Ok (None, []).
Proof.
  intros H. unfold get_pitches, validate.
  rewrite within_balls, within_strikes.
  destruct (Z.leb_spec b 3), (Z.leb_spec s 2);
    try reflexivity; try (destruct lim; reflexivity).
  destruct H as [H | [H | (l & -> & H)]]; [lia | lia |].
  rewrite within_limit.
  destruct (Z.leb_spec 1 l), (Z.leb_spec l 2000); try reflexivity; lia.
Qed.

Lemma get_pitches_default_limit (tbl : list PitchRow) (pid b s : Z)
    (hand : option string) :
  b <= 3 -> s <= 2 ->
  exists resp,
    run (get_pitches pid (Some b) (Some s) hand None) tbl =
      Ok (Some resp, [SelectLocated pid b s (hand_param hand) 500]).
Proof.
  intros Hb Hs. unfold get_pitches, validate.
  rewrite within_balls, within_strikes.
  destruct (Z.leb_spec b 3); [| lia]. destruct (Z.leb_spec s 2); [| lia].
  cbn [limit_query q_default].
  destruct (pitcher_pitches_run tbl pid b s 500 hand)
    as (top & bot & _ & _ & Hrun).
  unfold run in *. rewrite bind_run.
  destruct (pitcher_pitches pid b s hand 500 _) as [[r c] | e];
    [| discriminate].
  exists r. injection Hrun as _ Hc. cbn. rewrite Hc. reflexivity.
Qed.

(** C6 at its failing input: a request with [balls = -1] passes the
    boundary and the statement runs. The lower bounds of lines 218 and
    219 are written [ge0=0], which is not a bound. *)
Theorem negative_balls_reach_the_query (tbl : list PitchRow) (pid : Z) :
  exists resp,
    run (get_pitches pid (Some (-1)) (Some 0) None None) tbl =
      Ok (Some resp, [SelectLocated pid (-1) 0 None 500]).
Proof. apply (get_pitches_default_limit tbl pid (-1) 0 None); lia. Qed.

End Boundary.

Section RecommendationRuns.

Import Api Spec.
Local Open Scope Q_scope.

Lemma recommend_always_answers_witness :
  select_situation 7 1 2 (Some "R") example_table <> []
  /\ exists resp trace,
       run (recommend_pitch example_request) example_table = Ok (resp, trace)
       /\ rationale resp <> []
       /\ Forall (fun line => line <> "") (rationale resp)
       /\ 0.55 <= confidence resp <= 0.95.
Proof.
  assert (H : select_situation 7 1 2 (Some "R") example_table <> [])
    by (vm_compute; discriminate).
  split; [exact H |].
  destruct (recommend_always_answers example_table example_request)
    as (resp & trace & Hrun & Hdata & _).
  exists resp, trace. split; [exact Hrun |]. apply Hdata. left. exact H.
Defined.

End RecommendationRuns.

(** ** The scorer in binary64 *)

Section Rounding.

Local Open Scope Q_scope.







End Rounding.

Section Scorer64.

Import Api Api64 Spec.
Local Open Scope Q_scope.






(** The rounding is that of IEEE 754, as the standard library specifies
    it, on the rates, the score, the percentage and the confidence of
    every row of counts with a total of at most 12. *)
Example round_is_ieee_on_small_counts :
  forallb (fun '(t, w, h) => Binary64.same_as_ieee t w h) (small_counts 12)
  = true.
Proof. vm_compute. reflexivity. Qed.

(** Where binary64 and the rationals part: of two rows that tie as
    rationals the loop takes the second, whose score in binary64 is the
    greater; and 23 of 40 is shown as 57 percent, the product by 100
    being below 57.5. *)
Example recommend_rounds_scores :
  recommended (recommend_from close_rows) = Some "BB"
  /\ recommended (Api.recommend_from close_rows) = Some "AA"
  /\ Binary64.format_pct0 (rate 23 40) = "57%"
  /\ Py.format_pct0 (Api.rate 23 40) = "58%".
Proof. vm_compute. repeat split; reflexivity. Qed.



End Scorer64.

(** ** The pitcher registry *)

Section Registry.

Import Etl EtlSpec.

Lemma bind_text_text (v : Value) : is_text v -> bind_text v = Ok (text_of v).
Proof. destruct v; simpl; intros H; [reflexivity | reflexivity | destruct H]. Qed.

Lemma find_known (m : Z) (ps : list Pitcher) :
  List.find (fun p => mlb_id p =? m) ps = None
  <-> existsb (Z.eqb m) (map mlb_id ps) = false.
Proof.
  induction ps as [| p ps IH]; simpl; [tauto |].
  rewrite (Z.eqb_sym m). destruct (mlb_id p =? m); simpl; [| exact IH].
  split; discriminate.
Qed.

Lemma existsb_not_In (m : Z) (l : list Z) :
  existsb (Z.eqb m) l = false <-> ~ In m l.
Proof.
  split.
  - intros H Hin. assert (existsb (Z.eqb m) l = true); [| congruence].
    apply existsb_exists. exists m. split; [exact Hin | apply Z.eqb_refl].
  - intros H. destruct (existsb (Z.eqb m) l) eqn:E; [| reflexivity].
    apply existsb_exists in E as (x & Hx & Heq).
    apply Z.eqb_eq in Heq as ->. contradiction.
Qed.

(** A repeat sighting: the id of the record, and nothing changes. *)
Lemma resolve_known (m : Z) (nm hand : Value) (w : World) (row : Pitcher) :
  List.find (fun p => mlb_id p =? m) (pitchers (db w)) = Some row ->
  get_or_create_pitcher m nm hand w = Ok (id row, w).
Proof.
  intros H. unfold get_or_create_pitcher.
  rewrite bind_run. cbn [get_state]. rewrite H. reflexivity.
Qed.

(** A first sighting: one record more, with the candidate name and hand. *)
Lemma resolve_new (m : Z) (nm hand : Value) (w : World) :
  List.find (fun p => mlb_id p =? m) (pitchers (db w)) = None ->
  is_text nm -> is_text hand ->
  get_or_create_pitcher m nm hand w =
    Ok (next_id (pitchers (db w)),
        {| db := {| pitchers :=
                      pitchers (db w) ++
                      [{| id := next_id (pitchers (db w)); mlb_id := m;
                          name := text_of nm;
                          throws_hand := text_of hand |}];
                    events := events (db w) |};
           stdout := stdout w |}).
Proof.
  intros H Hn Hh. unfold get_or_create_pitcher.
  rewrite bind_run. cbn [get_state]. rewrite H.
  rewrite bind_run, lift_res_run, (bind_text_text _ Hn).
  rewrite bind_run, lift_res_run, (bind_text_text _ Hh).
  reflexivity.
Qed.

Lemma internal_id_app (m i : Z) (ps more : list Pitcher) :
  internal_id m ps = Some i -> internal_id m (ps ++ more) = Some i.
Proof.
  unfold internal_id. induction ps as [| p ps IH]; simpl; [discriminate |].
  destruct (mlb_id p =? m); [intros H; exact H | exact IH].
Qed.

Lemma internal_id_new (m i : Z) (ps : list Pitcher) (n h : option string) :
  List.find (fun p => mlb_id p =? m) ps = None ->
  internal_id m (ps ++ [{| id := i; mlb_id := m; name := n;
                           throws_hand := h |}]) = Some i.
Proof.
  unfold internal_id. induction ps as [| p ps IH]; simpl.
  - rewrite Z.eqb_refl. reflexivity.
  - destruct (mlb_id p =? m); [discriminate | exact IH].
Qed.

(** The registry after a list of calls. *)
Lemma resolve_all_spec (calls : list Call) (w : World) :
  one_record_per_id (pitchers (db w)) -> Forall text_call calls ->
  exists ids created,
    resolve_all calls w =
      Ok (ids, {| db := {| pitchers := pitchers (db w) ++ created;
                           events := events (db w) |};
                  stdout := stdout w |})
    /\ one_record_per_id (pitchers (db w) ++ created)
    /\ Forall2 created_by
         (first_sightings (map mlb_id (pitchers (db w))) calls) created
    /\ Forall2 (fun c i =>
                  internal_id (call_mlb c) (pitchers (db w) ++ created)
                  = Some i)
         calls ids.
Proof.
  revert w. induction calls as [| c calls IH]; intros w Hok Hcalls.
  - exists [], []. rewrite app_nil_r. destruct w as [[ps ev] out].
    split; [reflexivity |]. split; [exact Hok |]. split; constructor.
  - apply Forall_cons in Hcalls as [[Hn Hh] Hcalls].
    cbn [resolve_all first_sightings]. rewrite bind_run.
    destruct (List.find (fun p => mlb_id p =? call_mlb c) (pitchers (db w)))
      as [row |] eqn:E.
    + rewrite (resolve_known _ _ _ _ _ E).
      assert (Hk : existsb (Z.eqb (call_mlb c)) (map mlb_id (pitchers (db w)))
                   = true).
      { destruct (existsb _ _) eqn:Ex; [reflexivity |].
        apply find_known in Ex. congruence. }
      rewrite Hk.
      destruct (IH w Hok Hcalls) as (ids & created & Hrun & Hnd & Hcr & Hids).
      exists (id row :: ids), created. rewrite bind_run, Hrun.
      split; [reflexivity |]. split; [exact Hnd |]. split; [exact Hcr |].
      constructor; [| exact Hids].
      apply internal_id_app. unfold internal_id. rewrite E. reflexivity.
    + rewrite (resolve_new _ _ _ _ E Hn Hh).
      pose proof (proj1 (find_known _ _) E) as Hk. rewrite Hk.
      set (p := {| id := next_id (pitchers (db w)); mlb_id := call_mlb c;
                   name := text_of (call_name c);
                   throws_hand := text_of (call_hand c) |}).
      set (w1 := {| db := {| pitchers := pitchers (db w) ++ [p];
                             events := events (db w) |};
                    stdout := stdout w |}).
      assert (Hok1 : one_record_per_id (pitchers (db w1))).
      { unfold one_record_per_id. cbn. rewrite map_app. cbn.
        apply List.NoDup_app; [exact Hok | repeat constructor; simpl; tauto |].
        intros a Ha [<- | []]. apply existsb_not_In in Hk. contradiction. }
      destruct (IH w1 Hok1 Hcalls) as (ids & created & Hrun & Hnd & Hcr & Hids).
      cbn [w1 db pitchers events stdout] in Hrun, Hnd, Hcr, Hids.
      rewrite map_app in Hcr. cbn [map] in Hcr.
      rewrite <- app_assoc in Hrun, Hnd, Hids. cbn [app] in Hrun, Hnd, Hids.
      exists (next_id (pitchers (db w)) :: ids), (p :: created).
      rewrite bind_run, Hrun.
      split; [reflexivity |]. split; [exact Hnd |].
      split; [constructor; [repeat split | exact Hcr] |].
      constructor; [| exact Hids].
      change (pitchers (db w) ++ p :: created)
        with (pitchers (db w) ++ [p] ++ created).
      rewrite app_assoc. apply internal_id_app.
      apply internal_id_new. exact E.
Qed.

Lemma internal_id_resolves (m i : Z) (nm hand : Value) (w : World) :
  internal_id m (pitchers (db w)) = Some i ->
  get_or_create_pitcher m nm hand w = Ok (i, w).
Proof.
  unfold internal_id. intros H.
  destruct (List.find _ _) as [row |] eqn:E; [| discriminate].
  injection H as <-. apply resolve_known. exact E.
Qed.

(** C5. Over any sequence of calls of a run, on a registry with one record
    per external id: every call returns; the registry still has one
    record per external id; the records created are, in order, one per
    external id met for the first time, each with the name and the hand of
    that first call; old records and the events are untouched; two calls
    with the same external id return the same internal id; and calling
    again with an external id of the run, whatever the name and the hand,
    returns that id and changes nothing. *)
Theorem resolve_is_idempotent (calls : list Call) (w : World) :
  one_record_per_id (pitchers (db w)) -> Forall text_call calls ->
  exists ids created w',
    resolve_all calls w = Ok (ids, w')
    /\ pitchers (db w') = pitchers (db w) ++ created
    /\ events (db w') = events (db w)
    /\ one_record_per_id (pitchers (db w'))
    /\ Forall2 created_by
         (first_sightings (map mlb_id (pitchers (db w))) calls) created
    /\ (forall j k cj ck ij ik,
          calls !! j = Some cj -> calls !! k = Some ck ->
          ids !! j = Some ij -> ids !! k = Some ik ->
          call_mlb cj = call_mlb ck -> ij = ik)
    /\ (forall k c i nm hand,
          calls !! k = Some c -> ids !! k = Some i ->
          get_or_create_pitcher (call_mlb c) nm hand w' = Ok (i, w')).
Proof.
  intros Hok Hcalls.
  destruct (resolve_all_spec calls w Hok Hcalls)
    as (ids & created & Hrun & Hnd & Hcr & Hids).
  exists ids, created. eexists. split; [exact Hrun |]. cbn.
  split; [reflexivity |]. split; [reflexivity |]. split; [exact Hnd |].
  split; [exact Hcr |]. split.
  - intros j k cj ck ij ik Hj Hk Hij Hik Heq.
    pose proof (Forall2_lookup_lr _ _ _ _ _ _ Hids Hj Hij) as H1.
    pose proof (Forall2_lookup_lr _ _ _ _ _ _ Hids Hk Hik) as H2.
    cbn in H1, H2. rewrite Heq in H1. congruence.
  - intros k c i nm hand Hk Hi.
    pose proof (Forall2_lookup_lr _ _ _ _ _ _ Hids Hk Hi) as H1.
    apply internal_id_resolves. exact H1.
Qed.

End Registry.

Section RegistryRuns.

Import Etl EtlSpec.

Lemma resolve_is_idempotent_witness :
  one_record_per_id (pitchers (db (start empty_db)))
  /\ Forall text_call example_calls
  /\ exists ids created w',
       resolve_all example_calls (start empty_db) = Ok (ids, w')
       /\ pitchers (db w') = created
       /\ one_record_per_id (pitchers (db w'))
       /\ Forall2 created_by
            (first_sightings [] example_calls) created.
Proof.
  assert (Hok : one_record_per_id (pitchers (db (start empty_db))))
    by apply List.NoDup_nil.
  assert (Hcalls : Forall text_call example_calls)
    by (repeat constructor).
  split; [exact Hok |]. split; [exact Hcalls |].
  destruct (resolve_is_idempotent example_calls (start empty_db) Hok Hcalls)
    as (ids & created & w' & Hrun & Hps & _ & Hnd & Hcr & _).
  exists ids, created, w'.
  split; [exact Hrun |]. split; [exact Hps |]. split; [exact Hnd | exact Hcr].
Defined.

Example resolve_example_run :
  resolve_all example_calls (start empty_db) =
    Ok ([1; 2; 1],
        {| db := {| pitchers :=
                      [ {| id := 1; mlb_id := 123; name := Some "Bob";
                           throws_hand := Some "R" |};
                        {| id := 2; mlb_id := 456; name := Some "Al";
                           throws_hand := Some "L" |} ];
                    events := [] |};
           stdout := [] |}).
Proof. reflexivity. Qed.

End RegistryRuns.

(** ** Ingestion of rows *)

Section Rows.

Import Etl EtlSpec.

Variable int_of_str : string -> option Z.
Variable float_of_str : string -> option Q.

#[local] Abbreviation process_row := (Etl.process_row int_of_str float_of_str).
#[local] Abbreviation to_int := (Etl.to_int int_of_str).

(** A row whose pitcher value is absent, blank or not an integer is
    passed over: nothing changes. *)
Lemma process_row_unresolved (c : Columns) (row : DictRow) (w : World) :
  truthy (row_get row (pitcher_col c)) = false
  \/ to_int (row_get row (pitcher_col c)) = None ->
  process_row c row w = Ok (tt, w).
Proof.
  intros H. unfold Etl.process_row.
  destruct (truthy (row_get row (pitcher_col c))); [| reflexivity].
  destruct H as [H | H]; [discriminate |]. cbn [negb]. rewrite H. reflexivity.
Qed.

Lemma row_get_text (row : DictRow) (col : option string) :
  surplus row = [] -> is_text (row_get row col).
Proof.
  intros H. unfold row_get. destruct col as [k |].
  - destruct (named row !! k) as [[v |] |]; exact I.
  - rewrite H. exact I.
Qed.

Lemma or_else_text (a b : Value) :
  is_text a -> is_text b -> is_text (or_else a b).
Proof. unfold or_else. destruct (truthy a); auto. Qed.

Lemma inning_topbot_text (v : Value) :
  is_text v -> exists tb, inning_topbot_of v = Ok tb.
Proof.
  intros H. unfold inning_topbot_of. destruct v as [| t | l]; cbn.
  - eexists; reflexivity.
  - destruct (negb (String.eqb t "")); [| eexists; reflexivity].
    destruct (Py.startswith "t" _); [eexists; reflexivity |].
    destruct (Py.startswith "b" _); eexists; reflexivity.
  - destruct H.
Qed.

(** The registry is consulted before the pitch type is looked at: a row
    without surplus cells whose pitcher value is a new integer and whose
    pitch type is blank leaves one record more and no event. *)
Lemma process_row_blank_type (c : Columns) (row : DictRow) (w : World)
    (raw : string) (m : Z) :
  surplus row = [] ->
  row_get row (pitcher_col c) = VStr raw -> raw <> "" ->
  int_of_str raw = Some m ->
  internal_id m (pitchers (db w)) = None ->
  truthy (row_get row (pitch_type_col c)) = false ->
  process_row c row w =
    Ok (tt,
        {| db := {| pitchers :=
                      pitchers (db w) ++
                      [{| id := next_id (pitchers (db w)); mlb_id := m;
                          name :=
                            text_of (or_else (row_get row (player_name_col c))
                                       (VStr "Unknown Pitcher"));
                          throws_hand :=
                            text_of (or_else (row_get row (p_throws_col c))
                                       (VStr "")) |}];
                    events := events (db w) |};
           stdout := stdout w |}).
Proof.
  intros Hs Hraw Hne Hint Hnew Hblank. unfold Etl.process_row.
  rewrite Hraw. cbn [truthy].
  destruct (String.eqb_spec raw ""); [contradiction |]. cbn [negb Etl.to_int].
  rewrite Hint. rewrite bind_run.
  rewrite resolve_new.
  - destruct (inning_topbot_text (row_get row (inning_tb_col c))
                (row_get_text row _ Hs)) as (tb & Htb).
    rewrite bind_run, lift_res_run, Htb. rewrite Hblank. reflexivity.
  - unfold internal_id in Hnew.
    destruct (List.find _ _); [discriminate | reflexivity].
  - apply or_else_text; [apply row_get_text; exact Hs | exact I].
  - apply or_else_text; [apply row_get_text; exact Hs | exact I].
Qed.

Lemma resolve_outcome (m : Z) (nm hand : Value) (w w1 : World) (i : Z) :
  get_or_create_pitcher m nm hand w = Ok (i, w1) ->
  events (db w1) = events (db w)
  /\ stdout w1 = stdout w
  /\ internal_id m (pitchers (db w1)) = Some i.
Proof.
  unfold get_or_create_pitcher. rewrite bind_run. cbn [get_state].
  destruct (List.find _ _) as [row |] eqn:E.
  - intros H. injection H as <- <-. unfold internal_id. rewrite E. auto.
  - rewrite bind_run, lift_res_run.
    destruct (bind_text nm) as [n | e]; [| discriminate].
    rewrite bind_run, lift_res_run.
    destruct (bind_text hand) as [h | e]; [| discriminate].
    intros H. injection H as <- <-. cbn.
    split; [reflexivity |]. split; [reflexivity |].
    apply internal_id_new. exact E.
Qed.

(** Every event that a row adds has a pitch type that is not blank and
    belongs to the registered pitcher whose external id is the integer
    read from the row. *)
Lemma process_row_event (c : Columns) (row : DictRow) (w w' : World) :
  process_row c row w = Ok (tt, w') ->
  events (db w') = events (db w)
  \/ exists e pt raw m,
       events (db w') = events (db w) ++ [e]
       /\ pitch_type e = Some pt /\ pt <> ""
       /\ row_get row (pitcher_col c) = VStr raw
       /\ int_of_str raw = Some m
       /\ internal_id m (pitchers (db w')) = Some (pitcher_id e).
Proof.
  unfold Etl.process_row.
  destruct (truthy (row_get row (pitcher_col c))) eqn:Ht; cbn [negb];
    [| intros H; injection H as <-; left; reflexivity].
  destruct (row_get row (pitcher_col c)) as [| raw | l] eqn:Hraw;
    cbn [Etl.to_int]; try (intros H; injection H as <-; left; reflexivity).
  destruct (int_of_str raw) as [m |] eqn:Hint;
    [| intros H; injection H as <-; left; reflexivity].
  rewrite bind_run.
  destruct (get_or_create_pitcher m _ _ w) as [[i w1] | e] eqn:Hres;
    [| discriminate].
  apply resolve_outcome in Hres as (Hev & _ & Hid).
  rewrite bind_run, lift_res_run.
  destruct (inning_topbot_of _) as [tb | e]; [| discriminate].
  destruct (truthy (row_get row (pitch_type_col c))) eqn:Hpt; cbn [negb];
    [| intros H; injection H as <-; left; exact Hev].
  unfold insert_pitch.
  rewrite bind_run, lift_res_run.
  destruct (bind_text _) as [gd | e]; [| discriminate].
  rewrite bind_run, lift_res_run.
  destruct (bind_text _) as [bh | e]; [| discriminate].
  rewrite bind_run, lift_res_run.
  destruct (row_get row (pitch_type_col c)) as [| pt | l] eqn:Hptv;
    cbn [bind_text]; [discriminate Hpt | | discriminate].
  rewrite bind_run, lift_res_run.
  destruct (bind_text _) as [de | e]; [| discriminate].
  rewrite bind_run, lift_res_run.
  destruct (bind_text _) as [oc | e]; [| discriminate].
  intros H. injection H as <-. right. cbn.
  eexists _, pt, raw, m. rewrite Hev.
  split; [reflexivity |]. cbn. split; [reflexivity |].
  split; [| auto].
  cbn in Hpt. destruct (String.eqb_spec pt ""); [discriminate | assumption].
Qed.

Lemma resolve_text (m : Z) (nm hand : Value) (w : World) :
  is_text nm -> is_text hand ->
  exists i w1, get_or_create_pitcher m nm hand w = Ok (i, w1).
Proof.
  intros Hn Hh.
  destruct (List.find (fun p => mlb_id p =? m) (pitchers (db w))) as [row |] eqn:E.
  - eexists _, _. apply (resolve_known _ _ _ _ _ E).
  - eexists _, _. apply (resolve_new _ _ _ _ E Hn Hh).
Qed.

(** A row without surplus cells and with a blank pitch type is passed
    over without an exception and adds no event. *)
Lemma process_row_blank_type_skips (c : Columns) (row : DictRow) (w : World) :
  surplus row = [] ->
  truthy (row_get row (pitch_type_col c)) = false ->
  exists w', process_row c row w = Ok (tt, w')
             /\ events (db w') = events (db w).
Proof.
  intros Hs Hblank. unfold Etl.process_row.
  destruct (truthy (row_get row (pitcher_col c))); cbn [negb];
    [| exists w; split; reflexivity].
  destruct (to_int (row_get row (pitcher_col c))) as [m |];
    [| exists w; split; reflexivity].
  rewrite bind_run.
  destruct (resolve_text m
              (or_else (row_get row (player_name_col c)) (VStr "Unknown Pitcher"))
              (or_else (row_get row (p_throws_col c)) (VStr "")) w)
    as (i & w1 & Hres).
  { apply or_else_text; [apply row_get_text; exact Hs | exact I]. }
  { apply or_else_text; [apply row_get_text; exact Hs | exact I]. }
  rewrite Hres. apply resolve_outcome in Hres as (Hev & _ & _).
  destruct (inning_topbot_text (row_get row (inning_tb_col c))
              (row_get_text row _ Hs)) as (tb & Htb).
  rewrite bind_run, lift_res_run, Htb, Hblank. cbn [negb].
  exists w1. split; [reflexivity | exact Hev].
Qed.

End Rows.

(** ** Ingestion of files *)

Section Files.

Import Etl EtlSpec.

Variable int_of_str : string -> option Z.
Variable float_of_str : string -> option Q.

#[local] Abbreviation process_row := (Etl.process_row int_of_str float_of_str).
#[local] Abbreviation read_rows := (Etl.read_rows int_of_str float_of_str).
#[local] Abbreviation process_csv := (Etl.process_csv int_of_str float_of_str).
#[local] Abbreviation ingest := (Etl.ingest int_of_str float_of_str).
#[local] Abbreviation main := (Etl.main int_of_str float_of_str).

Lemma print_run (p : Printed) (w : World) :
  print p w = Ok (tt, {| db := db w; stdout := stdout w ++ [p] |}).
Proof. reflexivity. Qed.

(** A chunk that cannot be decoded is a read that raises. *)
Lemma reads_undecodable (cs : list Chunk) :
  In Undecodable cs -> In Unreadable (reads cs).
Proof.
  induction cs as [| c cs IH]; intros Hin; [destruct Hin |].
  destruct c as [rs |]; cbn [reads]; [| left; reflexivity].
  destruct Hin as [Hin | Hin]; [discriminate |].
  apply in_or_app. right. exact (IH Hin).
Qed.

(** The reader does not get past a read that raises. *)
Lemma read_rows_unreadable (fieldnames : list string) (c : Columns)
    (rs : list CsvRecord) (n : Z) (w : World) :
  In Unreadable rs -> exists e, read_rows fieldnames c rs n w = Raise e.
Proof.
  revert n w. induction rs as [| r rs IH]; intros n w Hin; [destruct Hin |].
  destruct r as [cells |]; [| exists ReadError; reflexivity].
  destruct Hin as [Hin | Hin]; [discriminate |].
  destruct cells as [| x xs]; cbn [Etl.read_rows]; [apply IH; exact Hin |].
  rewrite bind_run. destruct (process_row c _ w) as [[[] w1] | e].
  - apply IH. exact Hin.
  - exists e. reflexivity.
Qed.

Lemma process_csv_fails (f : CsvFile) (w : World) :
  fails_to_read f -> exists e, process_csv f w = Raise e.
Proof.
  unfold fails_to_read, Etl.process_csv. intros H.
  rewrite bind_run, print_run.
  destruct (records f) as [| [[| h hs] | ] body]; try (exfalso; exact H).
  - rewrite bind_run, print_run. destruct H as (Hp & Ht & Hin).
    rewrite Hp, Ht. cbn [negb orb]. rewrite bind_run.
    destruct (read_rows_unreadable (h :: hs)
                (resolve_columns (header_map_of (h :: hs))) body 0
                {| db := db w;
                   stdout := (stdout w ++ [Loading (file_name f)])
                             ++ [Headers (take 10 (h :: hs))] |} Hin)
      as (e & He).
    exists e. cbn [db stdout]. rewrite He. reflexivity.
  - exists ReadError. reflexivity.
Qed.

(** A file without header, or without a required column, is passed over
    with a message and leaves the database as it was. *)
Lemma process_csv_skips (f : CsvFile) (w : World) :
  lacks_header f \/ lacks_required f ->
  exists msg,
    (msg = SkippingNoHeader (file_name f)
     \/ msg = SkippingRequiredMissing (file_name f))
    /\ exists said,
         process_csv f w =
           Ok (tt, {| db := db w; stdout := stdout w ++ said ++ [msg] |}).
Proof.
  unfold lacks_header, lacks_required, Etl.process_csv.
  rewrite bind_run, print_run.
  destruct (records f) as [| [[| h hs] | ] body]; intros [H | H];
    try (exfalso; exact H).
  - exists (SkippingNoHeader (file_name f)). split; [left; reflexivity |].
    exists [Loading (file_name f)]. rewrite print_run. cbn.
    rewrite <- app_assoc. reflexivity.
  - exists (SkippingNoHeader (file_name f)). split; [left; reflexivity |].
    exists [Loading (file_name f)]. rewrite print_run. cbn.
    rewrite <- app_assoc. reflexivity.
  - exists (SkippingRequiredMissing (file_name f)).
    split; [right; reflexivity |].
    exists [Loading (file_name f); Headers (take 10 (h :: hs))].
    rewrite bind_run, print_run.
    assert (Hskip : negb (present (pitcher_col
                            (resolve_columns (header_map_of (h :: hs)))))
                    || negb (present (pitch_type_col
                               (resolve_columns (header_map_of (h :: hs)))))
                    = true).
    { destruct H as [-> | ->]; [reflexivity | apply orb_true_r]. }
    rewrite Hskip, print_run. cbn [db stdout]. rewrite <- !app_assoc.
    reflexivity.
Qed.

Lemma for_each_raises {A} (body : A -> M World unit) (xs : list A) (w : World) :
  Exists (fun x => forall w, exists e, body x w = Raise e) xs ->
  exists e, for_each body xs w = Raise e.
Proof.
  intros H. revert w. induction H as [x xs Hx | x xs _ IH]; intros w;
    cbn [for_each]; rewrite bind_run.
  - destruct (Hx w) as (e & ->). exists e. reflexivity.
  - destruct (body x w) as [[[] w1] | e]; [apply IH | exists e; reflexivity].
Qed.

(** A run that raises commits nothing. *)
Lemma main_raises (csv_files : list CsvFile) (disk : Db) (e : Exn) :
  csv_files <> [] ->
  ingest csv_files (start disk) = Raise e ->
  main (Some csv_files) disk = (Raise e, disk).
Proof.
  intros Hne H. unfold Etl.main. destruct csv_files; [congruence |].
  unfold start in H. rewrite H. reflexivity.
Qed.

Lemma main_aborts (csv_files : list CsvFile) (disk : Db) :
  Exists fails_to_read csv_files ->
  exists e, main (Some csv_files) disk = (Raise e, disk).
Proof.
  intros H.
  assert (Hne : csv_files <> []) by (destruct H; discriminate).
  assert (He : exists e, ingest csv_files (start disk) = Raise e).
  { unfold Etl.ingest. rewrite bind_run, print_run. rewrite bind_run.
    destruct (for_each_raises process_csv csv_files
                {| db := db (start disk);
                   stdout := stdout (start disk)
                             ++ [Found (Z.of_nat (length csv_files))] |})
      as (e & ->).
    - eapply List.Exists_impl; [| exact H].
      intros f Hf w. apply process_csv_fails. exact Hf.
    - exists e. reflexivity. }
  destruct He as (e & He). exists e. apply main_raises; assumption.
Qed.

End Files.

(** ** The claims on ingestion *)

Section IngestionClaims.

Import Etl EtlSpec.

(** C4 at its failing input. Under the header [pitcher,pitch_type], the row
    [123,,x] has an integer pitcher, a blank pitch type and one surplus
    cell. The lookups of the columns that the header lacks return the list
    of surplus cells, the registry refuses it as a name, and the exception
    ends the run: the row is not passed over. With the name and hand
    columns present the same happens at [raw_tb.strip()]. *)
Theorem surplus_cell_row_raises :
  truthy (row_get (dict_row ["pitcher"; "pitch_type"] ["123"; ""; "x"])
            (pitch_type_col two_columns)) = false
  /\ Etl.to_int int_decimal
       (row_get (dict_row ["pitcher"; "pitch_type"] ["123"; ""; "x"])
          (pitcher_col two_columns)) = Some 123
  /\ Etl.process_row int_decimal float_decimal two_columns
       (dict_row ["pitcher"; "pitch_type"] ["123"; ""; "x"]) (start empty_db)
     = Raise InterfaceError
  /\ Etl.main int_decimal float_decimal (Some [surplus_file]) empty_db
     = (Raise InterfaceError, empty_db)
  /\ Etl.main int_decimal float_decimal (Some [surplus_file_named]) empty_db
     = (Raise AttributeError, empty_db).
Proof. vm_compute. repeat split; reflexivity. Qed.

(** C9. The registry is consulted before the pitch type is looked at. For
    every row without surplus cells whose pitcher value reads as an
    integer that the registry does not know and whose pitch type is blank,
    the row leaves one more pitcher record and no event. So a run can end
    with a pitcher in the registry who has no event: the file with the one
    row [123,] does it. *)
Theorem pitcher_created_before_type_check :
  (forall (int_of_str : string -> option Z) (float_of_str : string -> option Q)
          (c : Columns) (row : DictRow) (w : World) (raw : string) (m : Z),
      surplus row = [] ->
      row_get row (pitcher_col c) = VStr raw -> raw <> "" ->
      int_of_str raw = Some m ->
      internal_id m (pitchers (db w)) = None ->
      truthy (row_get row (pitch_type_col c)) = false ->
      exists p,
        Etl.process_row int_of_str float_of_str c row w =
          Ok (tt, {| db := {| pitchers := pitchers (db w) ++ [p];
                              events := events (db w) |};
                     stdout := stdout w |})
        /\ mlb_id p = m)
  /\ exists said after,
       Etl.main int_decimal float_decimal (Some [blank_type_file]) empty_db
       = (Ok said, after)
       /\ events after = []
       /\ exists p, In p (pitchers after) /\ mlb_id p = 123.
Proof.
  split.
  - intros int_of_str float_of_str c row w raw m Hs Hraw Hne Hint Hnew Hblank.
    eexists. split.
    + apply (process_row_blank_type int_of_str float_of_str c row w raw m);
        assumption.
    + reflexivity.
  - eexists _, _. split; [vm_compute; reflexivity |].
    split; [reflexivity |]. eexists. split; [left; reflexivity | reflexivity].
Qed.

Lemma pitcher_created_before_type_check_witness :
  surplus (dict_row ["pitcher"; "pitch_type"] ["123"; ""]) = []
  /\ row_get (dict_row ["pitcher"; "pitch_type"] ["123"; ""])
       (pitcher_col two_columns) = VStr "123"
  /\ int_decimal "123" = Some 123
  /\ internal_id 123 (pitchers (db (start empty_db))) = None
  /\ truthy (row_get (dict_row ["pitcher"; "pitch_type"] ["123"; ""])
               (pitch_type_col two_columns)) = false
  /\ exists p,
       Etl.process_row int_decimal float_decimal two_columns
         (dict_row ["pitcher"; "pitch_type"] ["123"; ""]) (start empty_db)
       = Ok (tt, {| db := {| pitchers := [p]; events := [] |};
                    stdout := [] |})
       /\ mlb_id p = 123.
Proof.
  assert (H1 : surplus (dict_row ["pitcher"; "pitch_type"] ["123"; ""]) = [])
    by reflexivity.
  assert (H2 : row_get (dict_row ["pitcher"; "pitch_type"] ["123"; ""])
                 (pitcher_col two_columns) = VStr "123")
    by (vm_compute; reflexivity).
  assert (H3 : "123" <> "") by discriminate.
  assert (H4 : int_decimal "123" = Some 123) by reflexivity.
  assert (H5 : internal_id 123 (pitchers (db (start empty_db))) = None)
    by reflexivity.
  assert (H6 : truthy (row_get (dict_row ["pitcher"; "pitch_type"] ["123"; ""])
                         (pitch_type_col two_columns)) = false)
    by (vm_compute; reflexivity).
  repeat (split; [assumption |]).
  exact (proj1 pitcher_created_before_type_check int_decimal float_decimal
           two_columns _ (start empty_db) "123" 123 H1 H2 H3 H4 H5 H6).
Defined.

(** C7 as stated fails: the second file, a short one with a byte that is
    not UTF-8, is not skipped: the run raises, and the event of the first
    file, which a run on that file alone commits, is not committed. *)
Lemma unreadable_file_skipped_fails :
  Etl.main int_decimal float_decimal (Some [good_file; broken_file]) empty_db
  = (Raise ReadError, empty_db)
  /\ exists said after,
       Etl.main int_decimal float_decimal (Some [good_file]) empty_db
       = (Ok said, after)
       /\ length (events after) = 1%nat.
Proof.
  split; [vm_compute; reflexivity |].
  eexists _, _. split; [vm_compute; reflexivity | reflexivity].
Qed.

(** C7, as the code has it. A file whose header is read and is empty, or
    lacks the pitcher or the pitch-type column, is passed over with a
    message and the run goes on with the database as it was. A file with
    a read that raises, that of the header or a later one under both
    required columns, is not passed over: the exception ends the run,
    where the only commit is the last step, so the run commits nothing,
    the rows of earlier files included. Such is a file whose first chunk
    cannot be decoded, whatever its header says (any file shorter than a
    chunk with a byte that is not UTF-8), and a file with both required
    columns and a later chunk that cannot be decoded. *)
Theorem unreadable_file_aborts_the_run
    (int_of_str : string -> option Z) (float_of_str : string -> option Q) :
  (forall (f : CsvFile) (w : World),
      lacks_header f \/ lacks_required f ->
      exists msg,
        (msg = SkippingNoHeader (file_name f)
         \/ msg = SkippingRequiredMissing (file_name f))
        /\ exists said,
             Etl.process_csv int_of_str float_of_str f w =
               Ok (tt, {| db := db w; stdout := stdout w ++ said ++ [msg] |}))
  /\ (forall (f : CsvFile) (rest : list CsvFile) (w : World),
        lacks_header f \/ lacks_required f ->
        exists said,
          for_each (Etl.process_csv int_of_str float_of_str) (f :: rest) w =
            for_each (Etl.process_csv int_of_str float_of_str) rest
              {| db := db w; stdout := stdout w ++ said |})
  /\ (forall (csv_files : list CsvFile) (disk : Db),
        Exists fails_to_read csv_files ->
        exists e,
          Etl.main int_of_str float_of_str (Some csv_files) disk
          = (Raise e, disk))
  /\ (forall (f : CsvFile) (cs : list Chunk),
        chunks f = Undecodable :: cs ->
        fails_to_read f /\ ~ (lacks_header f \/ lacks_required f))
  /\ (forall (f : CsvFile) (h : string) (hs : list string)
             (body : list CsvRecord),
        records f = Cells (h :: hs) :: body ->
        present (pitcher_col (resolve_columns (header_map_of (h :: hs))))
        = true ->
        present (pitch_type_col (resolve_columns (header_map_of (h :: hs))))
        = true ->
        In Undecodable (chunks f) ->
        fails_to_read f).
Proof.
  split; [| split; [| split; [| split]]].
  - intros f w H. apply process_csv_skips. exact H.
  - intros f rest w H.
    destruct (process_csv_skips int_of_str float_of_str f w H)
      as (msg & _ & said & Hrun).
    exists (said ++ [msg]). cbn [for_each]. rewrite bind_run, Hrun.
    reflexivity.
  - intros csv_files disk H. apply main_aborts. exact H.
  - intros f cs E. unfold fails_to_read, lacks_header, lacks_required, records.
    rewrite E. cbn [reads]. split; [exact I |]. intros [[] | []].
  - intros f h hs body E Hp Ht Hin. unfold fails_to_read. rewrite E.
    split; [exact Hp |]. split; [exact Ht |].
    apply reads_undecodable in Hin. fold (records f) in Hin. rewrite E in Hin.
    destruct Hin as [Hin | Hin]; [discriminate | exact Hin].
Qed.

Lemma unreadable_file_aborts_the_run_witness :
  chunks broken_file = [Undecodable]
  /\ Exists fails_to_read [good_file; broken_file]
  /\ (exists e,
        Etl.main int_decimal float_decimal (Some [good_file; broken_file])
          empty_db = (Raise e, empty_db))
  /\ In Undecodable (chunks long_broken_file)
  /\ exists e,
       Etl.main int_decimal float_decimal (Some [good_file; long_broken_file])
         empty_db = (Raise e, empty_db).
Proof.
  pose proof (unreadable_file_aborts_the_run int_decimal float_decimal)
    as (_ & _ & Haborts & Hshort & Hlong).
  assert (E : chunks broken_file = [Undecodable]) by reflexivity.
  assert (H : Exists fails_to_read [good_file; broken_file]).
  { apply Exists_cons_tl, Exists_cons_hd. exact (proj1 (Hshort _ _ E)). }
  assert (Hin : In Undecodable (chunks long_broken_file))
    by (right; left; reflexivity).
  assert (H' : Exists fails_to_read [good_file; long_broken_file]).
  { apply Exists_cons_tl, Exists_cons_hd.
    apply (Hlong long_broken_file "pitcher" ["pitch_type"]
             [Cells ["456"; "SL"]; Unreadable]);
      [reflexivity | vm_compute; reflexivity | vm_compute; reflexivity
      | exact Hin]. }
  split; [exact E |]. split; [exact H |].
  split; [exact (Haborts _ empty_db H) |].
  split; [exact Hin |]. exact (Haborts _ empty_db H').
Defined.

End IngestionClaims.

(** * Further properties *)

(** ** Groups come out distinct and in order *)

Section KeyOrder.

Import View.

Context {K : Type} (cmp : K -> K -> comparison).
Hypothesis cmp_eq : forall a b, cmp a b = Eq -> a = b.
Hypothesis cmp_trans :
  forall a b c, cmp a b = Lt -> cmp b c = Lt -> cmp a c = Lt.
Hypothesis cmp_antisym : forall a b, cmp a b = CompOpp (cmp b a).

Lemma cmp_irrefl (a : K) : cmp a a <> Lt.
Proof.
  intros H. pose proof (cmp_antisym a a) as E. rewrite H in E. discriminate.
Qed.

Lemma insert_key_sorted (k : K) (ks : list K) :
  StronglySorted (before cmp) ks ->
  StronglySorted (before cmp) (Sql.insert_key cmp k ks).
Proof.
  induction ks as [| x ks IH]; intros Hs; cbn.
  - repeat constructor.
  - apply StronglySorted_inv in Hs as [Hs Hx].
    destruct (cmp k x) eqn:E.
    + constructor; assumption.
    + constructor; [constructor; assumption |].
      constructor; [exact E |].
      eapply List.Forall_impl; [| exact Hx].
      intros y Hy. exact (cmp_trans _ _ _ E Hy).
    + constructor; [apply IH; exact Hs |].
      apply List.Forall_forall. intros y Hy.
      apply (insert_key_In cmp cmp_eq) in Hy as [-> | Hy].
      * unfold before. rewrite cmp_antisym, E. reflexivity.
      * rewrite List.Forall_forall in Hx. apply Hx. exact Hy.
Qed.

Lemma distinct_sorted_sorted (ks : list K) :
  StronglySorted (before cmp) (Sql.distinct_sorted cmp ks).
Proof.
  unfold Sql.distinct_sorted. induction ks as [| k ks IH]; cbn.
  - constructor.
  - apply insert_key_sorted. exact IH.
Qed.

Lemma sorted_NoDup (ks : list K) :
  StronglySorted (before cmp) ks -> List.NoDup ks.
Proof.
  induction 1 as [| x ks Hs IH Hx]; constructor; [| exact IH].
  intros Hin. rewrite List.Forall_forall in Hx.
  exact (cmp_irrefl x (Hx x Hin)).
Qed.

Lemma distinct_sorted_NoDup (ks : list K) :
  List.NoDup (Sql.distinct_sorted cmp ks).
Proof. apply sorted_NoDup, distinct_sorted_sorted. Qed.

End KeyOrder.

Section KeyOrderInstances.

Import Api View.

Lemma string_compare_trans (a b c : string) :
  String.compare a b = Lt -> String.compare b c = Lt -> String.compare a c = Lt.
Proof.
  intros H1 H2.
  exact (StrictOrder_Transitive (R := OrdersEx.String_as_OT.lt) a b c H1 H2).
Qed.

Lemma string_compare_refl (a : string) : String.compare a a = Eq.
Proof.
  pose proof (String.compare_antisym a a) as E.
  destruct (String.compare a a); [reflexivity | discriminate | discriminate].
Qed.

Lemma compare_key_eq (a b : Z * Z * string) : compare_key a b = Eq -> a = b.
Proof.
  destruct a as [[a1 a2] a3], b as [[b1 b2] b3]. unfold compare_key; cbn.
  destruct (Z.compare_spec a1 b1) as [E1 | L1 | G1]; try discriminate.
  destruct (Z.compare_spec a2 b2) as [E2 | L2 | G2]; try discriminate.
  intros E3. apply String.compare_eq_iff in E3. congruence.
Qed.

Lemma compare_key_antisym (a b : Z * Z * string) :
  compare_key a b = CompOpp (compare_key b a).
Proof.
  destruct a as [[a1 a2] a3], b as [[b1 b2] b3]. unfold compare_key; cbn.
  rewrite (Z.compare_antisym a1 b1), (Z.compare_antisym a2 b2),
    (String.compare_antisym b3 a3).
  destruct (a1 ?= b1); cbn; try reflexivity.
  destruct (a2 ?= b2); cbn; try reflexivity.
  destruct (String.compare a3 b3); reflexivity.
Qed.

Lemma compare_key_trans (a b c : Z * Z * string) :
  compare_key a b = Lt -> compare_key b c = Lt -> compare_key a c = Lt.
Proof.
  destruct a as [[a1 a2] a3], b as [[b1 b2] b3], c as [[c1 c2] c3].
  unfold compare_key; cbn.
  destruct (Z.compare_spec a1 b1) as [E1 | L1 | G1],
           (Z.compare_spec b1 c1) as [E1' | L1' | G1']; try discriminate;
    subst; intros H1 H2.
  - rewrite Z.compare_refl.
    destruct (Z.compare_spec a2 b2) as [E2 | L2 | G2],
             (Z.compare_spec b2 c2) as [E2' | L2' | G2']; try discriminate;
      subst.
    + rewrite Z.compare_refl. exact (string_compare_trans _ _ _ H1 H2).
    + rewrite (proj2 (Z.compare_lt_iff _ _)); [reflexivity | assumption].
    + rewrite (proj2 (Z.compare_lt_iff _ _)); [reflexivity | assumption].
    + rewrite (proj2 (Z.compare_lt_iff _ _)); [reflexivity | lia].
  - rewrite (proj2 (Z.compare_lt_iff _ _)); [reflexivity | assumption].
  - rewrite (proj2 (Z.compare_lt_iff _ _)); [reflexivity | assumption].
  - rewrite (proj2 (Z.compare_lt_iff _ _)); [reflexivity | lia].
Qed.

End KeyOrderInstances.

(** ** The candidates of a situation *)

Section Filters.

Context {A : Type}.

Lemma filter_twice (f g : A -> bool) (l : list A) :
  List.filter f (List.filter g l) = List.filter (fun x => g x && f x) l.
Proof.
  induction l as [| x l IH]; cbn; [reflexivity |].
  destruct (g x); cbn; [destruct (f x) |]; rewrite IH; reflexivity.
Qed.

Lemma filter_length_mono (f g : A -> bool) (l : list A) :
  (forall x, f x = true -> g x = true) ->
  (length (List.filter f l) <= length (List.filter g l))%nat.
Proof.
  intros H. induction l as [| x l IH]; cbn; [lia |].
  destruct (f x) eqn:E.
  - rewrite (H x E). cbn. lia.
  - destruct (g x); cbn; lia.
Qed.

Lemma NoDup_map_filter {B} (f : A -> B) (p : A -> bool) (l : list A) :
  List.NoDup (map f l) -> List.NoDup (map f (List.filter p l)).
Proof.
  induction l as [| x l IH]; cbn; intros H; [constructor |].
  apply List.NoDup_cons_iff in H as [Hx Hl].
  destruct (p x); cbn; [| apply IH; exact Hl].
  constructor; [| apply IH; exact Hl].
  intros Hin. apply Hx. apply in_map_iff in Hin as (y & Hy & Hin).
  apply filter_In in Hin as [Hin _]. apply in_map_iff. exists y. auto.
Qed.

End Filters.

Section Candidates.

Import Api Spec View.

Variables (pid b s : Z) (tbl : list PitchRow).

Lemma group_key_present (rows : list PitchRow) (pt : string) :
  0 < Sql.count_where (has_type pt) rows -> In pt (omap pitch_type rows).
Proof.
  unfold Sql.count_where. intros H.
  destruct (List.filter (has_type pt) rows) as [| r g] eqn:E;
    [cbn in H; lia |].
  assert (Hr : In r (List.filter (has_type pt) rows))
    by (rewrite E; left; reflexivity).
  apply filter_In in Hr as [Hr Ht].
  apply list_elem_of_In, list_elem_of_omap. exists r.
  split; [apply list_elem_of_In; exact Hr |].
  unfold has_type, Sql.eq_text in Ht.
  destruct (pitch_type r) as [q |]; [| discriminate].
  apply String.eqb_eq in Ht as ->. reflexivity.
Qed.

(** The rows of the statement are the groups of five pitches or more. *)
Lemma select_situation_In (hand : option string) (r : AggRow) :
  In r (select_situation pid b s hand tbl)
  <-> exists pt,
        r = aggregate_group
              (List.filter (situation_where pid b s hand) tbl) pt
        /\ 5 <= pitches_of_type pid b s hand tbl pt.
Proof.
  unfold select_situation, pitches_of_type.
  set (rows := List.filter (situation_where pid b s hand) tbl).
  rewrite filter_In, in_map_iff. split.
  - intros [(pt & <- & _) H5]. exists pt. split; [reflexivity |].
    apply Z.leb_le in H5. rewrite aggregate_group_total in H5. exact H5.
  - intros (pt & -> & H5). split.
    + exists pt. split; [reflexivity |].
      apply (distinct_sorted_In String.compare String.compare_eq_iff).
      apply group_key_present. lia.
    + apply Z.leb_le. rewrite aggregate_group_total. exact H5.
Qed.

Lemma situation_where_pooled (h : string) (r : PitchRow) :
  situation_where pid b s (Some h) r = true ->
  situation_where pid b s None r = true.
Proof.
  unfold situation_where, hand_clause. intros H.
  repeat (apply andb_true_iff in H as [H ?]).
  repeat (apply andb_true_iff; split); auto.
Qed.

(** A count over the pitches of one hand is at most the count over all. *)
Lemma count_pooled (h : string) (c : PitchRow -> bool) (pt : string) :
  Sql.count_where c
    (List.filter (has_type pt)
       (List.filter (situation_where pid b s (Some h)) tbl))
  <= Sql.count_where c
       (List.filter (has_type pt)
          (List.filter (situation_where pid b s None) tbl)).
Proof.
  unfold Sql.count_where. rewrite !filter_twice.
  apply inj_le, filter_length_mono. intros x H.
  apply andb_true_iff in H as [Hw Hrest].
  apply andb_true_iff. split; [| exact Hrest].
  apply situation_where_pooled with (h := h). exact Hw.
Qed.

Lemma aggregate_group_counts (hand : option string) (pt : string) :
  let g := aggregate_group
             (List.filter (situation_where pid b s hand) tbl) pt in
  agg_pitch_type g = pt
  /\ agg_total g = pitches_of_type pid b s hand tbl pt
  /\ agg_whiffs g = whiffs_of_type pid b s hand tbl pt
  /\ agg_hard_hits g = hard_hits_of_type pid b s hand tbl pt.
Proof.
  cbn. unfold pitches_of_type, whiffs_of_type, hard_hits_of_type.
  split; [reflexivity |]. split; [apply count_where_all |].
  unfold Sql.count_where. rewrite !filter_twice. split; reflexivity.
Qed.

(** X1. The candidates that the situation statement returns are the pitch
    types with at least five pitches in the situation: each such type is
    returned, once, and no other; the three numbers of a candidate are the
    numbers of pitches, of whiffs and of hard hits of its type in the
    situation. *)
Theorem candidates_are_the_frequent_types (hand : option string) :
  let rows := select_situation pid b s hand tbl in
  List.NoDup (map agg_pitch_type rows)
  /\ (forall pt,
        In pt (map agg_pitch_type rows)
        <-> 5 <= pitches_of_type pid b s hand tbl pt)
  /\ Forall (fun r =>
               agg_total r =
                 pitches_of_type pid b s hand tbl (agg_pitch_type r)
               /\ agg_whiffs r =
                    whiffs_of_type pid b s hand tbl (agg_pitch_type r)
               /\ agg_hard_hits r =
                    hard_hits_of_type pid b s hand tbl (agg_pitch_type r))
       rows.
Proof.
  intros rows. split; [| split].
  - unfold rows, select_situation. apply NoDup_map_filter.
    rewrite map_map. cbn. rewrite map_id.
    apply (distinct_sorted_NoDup String.compare String.compare_eq_iff
             string_compare_trans String.compare_antisym).
  - intros pt. rewrite in_map_iff. split.
    + intros (r & <- & Hr). apply select_situation_In in Hr as (q & -> & H5).
      exact H5.
    + intros H5. eexists. split; [| apply select_situation_In; eauto].
      reflexivity.
  - apply List.Forall_forall. intros r Hr.
    apply select_situation_In in Hr as (q & -> & _).
    destruct (aggregate_group_counts hand q) as (_ & H1 & H2 & H3).
    cbn [agg_pitch_type aggregate_group]. auto.
Qed.

(** X2. Every candidate of the exact-hand statement is a candidate of the
    pooled statement, with a total, a number of whiffs and a number of hard
    hits that are at least as large; so the pooled statement returns no row
    only if the exact-hand one returns none. *)
Theorem pooled_counts_dominate (h : string) :
  Forall (fun r =>
            exists r',
              In r' (select_situation pid b s None tbl)
              /\ agg_pitch_type r' = agg_pitch_type r
              /\ agg_total r <= agg_total r'
              /\ agg_whiffs r <= agg_whiffs r'
              /\ agg_hard_hits r <= agg_hard_hits r')
    (select_situation pid b s (Some h) tbl)
  /\ (select_situation pid b s None tbl = [] ->
      select_situation pid b s (Some h) tbl = []).
Proof.
  assert (Hall : Forall (fun r =>
            exists r',
              In r' (select_situation pid b s None tbl)
              /\ agg_pitch_type r' = agg_pitch_type r
              /\ agg_total r <= agg_total r'
              /\ agg_whiffs r <= agg_whiffs r'
              /\ agg_hard_hits r <= agg_hard_hits r')
    (select_situation pid b s (Some h) tbl)).
  { apply List.Forall_forall. intros r Hr.
    apply select_situation_In in Hr as (pt & -> & H5).
    exists (aggregate_group
              (List.filter (situation_where pid b s None) tbl) pt).
    pose proof (count_pooled h (fun _ => true) pt) as Ht.
    pose proof (count_pooled h is_whiff pt) as Hw.
    pose proof (count_pooled h is_hard_hit pt) as Hh.
    split; [| cbn; auto].
    apply select_situation_In. exists pt. split; [reflexivity |].
    rewrite !count_where_all in Ht.
    unfold pitches_of_type, Sql.count_where in *. lia. }
  split; [exact Hall |].
  intros Hnil. destruct (select_situation pid b s (Some h) tbl) as [| r rows];
    [reflexivity |].
  apply Forall_cons in Hall as [(r' & Hin & _) _].
  rewrite Hnil in Hin. destruct Hin.
Qed.

End Candidates.

(** ** What the recommendation can be *)

Section Recommended.

Import Api Spec View.
Local Open Scope Q_scope.

Lemma recommend_from_member (rows : list AggRow) :
  rows <> [] -> Forall counts_row rows ->
  exists r,
    In r rows
    /\ Forall (fun x => score x <= score r) rows
    /\ recommend_from rows =
         Ok {| recommended_pitch_type := agg_pitch_type r;
               confidence := Py.min 0.95 (Py.max 0.55 (score r + 0.5));
               rationale :=
                 [rationale_line (agg_pitch_type r)
                    (rate (agg_whiffs r) (agg_total r))
                    (rate (agg_hard_hits r) (agg_total r))];
               historical_outcomes :=
                 {| sample_size := agg_total r;
                    whiff_pct := rate (agg_whiffs r) (agg_total r);
                    in_play_hard_hit_pct :=
                      rate (agg_hard_hits r) (agg_total r) |} |}.
Proof.
  intros Hne Hrows.
  destruct (recommend_from_rows rows Hne Hrows)
    as (pre & r & post & -> & Hpre & Hpost & Hr).
  exists r. split; [apply in_elt |]. split; [| exact Hr].
  apply Forall_app. split.
  - eapply List.Forall_impl; [| exact Hpre].
    intros x Hx. apply Qlt_le_weak. exact Hx.
  - constructor; [apply Qle_refl | exact Hpost].
Qed.

Lemma clamp_by_cases (sc : Q) :
  Py.min 0.95 (Py.max 0.55 (sc + 0.5)) == confidence_by_cases sc.
Proof.
  unfold confidence_by_cases, Py.min, Py.max.
  destruct (Qle_bool sc 0.05) eqn:E1.
  - apply Qle_bool_iff in E1.
    destruct (Py.Qltb 0.55 (sc + 0.5)) eqn:E2;
      [apply Qltb_lt in E2; lra |].
    destruct (Py.Qltb 0.55 0.95) eqn:E3; [reflexivity | discriminate E3].
  - assert (H1 : 0.05 < sc).
    { apply Qnot_le_lt. intros H. apply Qle_bool_iff in H. congruence. }
    destruct (Py.Qltb 0.55 (sc + 0.5)) eqn:E2;
      [| apply Qltb_ge in E2; lra].
    destruct (Qle_bool 0.45 sc) eqn:E3.
    + apply Qle_bool_iff in E3.
      destruct (Py.Qltb (sc + 0.5) 0.95) eqn:E4;
        [apply Qltb_lt in E4; lra | reflexivity].
    + assert (H2 : sc < 0.45).
      { apply Qnot_le_lt. intros H. apply Qle_bool_iff in H. congruence. }
      destruct (Py.Qltb (sc + 0.5) 0.95) eqn:E4;
        [reflexivity | apply Qltb_ge in E4; lra].
Qed.

Lemma confidence_by_cases_mono (s1 s2 : Q) :
  s1 <= s2 -> confidence_by_cases s1 <= confidence_by_cases s2.
Proof.
  intros H. unfold confidence_by_cases.
  destruct (Qle_bool s1 0.05) eqn:A1, (Qle_bool s2 0.05) eqn:A2,
           (Qle_bool 0.45 s1) eqn:B1, (Qle_bool 0.45 s2) eqn:B2;
    repeat match goal with
           | E : Qle_bool _ _ = true |- _ => apply Qle_bool_iff in E
           | E : Qle_bool ?x ?y = false |- _ =>
               assert (y < x)
                 by (apply Qnot_le_lt; intros Hc; apply Qle_bool_iff in Hc;
                     congruence);
               clear E
           end; lra.
Qed.

(** X3. The confidence is a function of the best score that never
    decreases: 0.55 up to a best score of 0.05, the best score plus one
    half between 0.05 and 0.45, and 0.95 from 0.45 on. *)
Theorem confidence_follows_best_score :
  (forall rows : list AggRow,
      rows <> [] -> Forall counts_row rows ->
      exists r resp,
        In r rows
        /\ Forall (fun x => score x <= score r) rows
        /\ recommend_from rows = Ok resp
        /\ confidence resp == confidence_by_cases (score r))
  /\ (forall s1 s2 : Q,
        s1 <= s2 -> confidence_by_cases s1 <= confidence_by_cases s2).
Proof.
  split; [| exact confidence_by_cases_mono].
  intros rows Hne Hrows.
  destruct (recommend_from_member rows Hne Hrows) as (r & Hin & Hmax & Hr).
  exists r. eexists. split; [exact Hin |]. split; [exact Hmax |].
  split; [exact Hr |]. cbn. apply clamp_by_cases.
Qed.

Lemma confidence_follows_best_score_witness :
  example_rows <> [] /\ Forall counts_row example_rows
  /\ exists r resp,
       In r example_rows
       /\ recommend_from example_rows = Ok resp
       /\ confidence resp == confidence_by_cases (score r).
Proof.
  assert (Hne : example_rows <> []) by discriminate.
  assert (Hrows : Forall counts_row example_rows).
  { repeat constructor; simpl; lia. }
  split; [exact Hne |]. split; [exact Hrows |].
  destruct (proj1 confidence_follows_best_score example_rows Hne Hrows)
    as (r & resp & Hin & _ & Hr & Hc).
  exists r, resp. split; [exact Hin |]. split; [exact Hr | exact Hc].
Defined.

(** X4. To a request whose integers the driver can bind, the endpoint
    answers with the default, or with a pitch type that this pitcher has
    thrown at least five times at this count: the sample size is the
    number of those pitches for the hand asked or for all hands, it is at
    least five, both rates lie between 0 and 1, and they are the numbers
    of whiffs and of hard hits of that type divided by the sample size
    (as exact rationals). *)
Theorem recommendation_is_a_frequent_type
    (tbl : list PitchRow) (req : RecommendationRequest) :
  bindable_request req ->
  exists resp trace,
    run (recommend_pitch req) tbl = Ok (resp, trace)
    /\ (resp = default_recommendation
        \/ exists hand,
             (hand = Some (req_batter_hand req) \/ hand = None)
             /\ sample_size (historical_outcomes resp) =
                  pitches_of_type (req_pitcher_id req) (req_balls req)
                    (req_strikes req) hand tbl (recommended_pitch_type resp)
             /\ (5 <= sample_size (historical_outcomes resp))%Z
             /\ (5 <= pitches_of_type (req_pitcher_id req) (req_balls req)
                       (req_strikes req) None tbl
                       (recommended_pitch_type resp))%Z
             /\ whiff_pct (historical_outcomes resp) =
                  inject_Z (whiffs_of_type (req_pitcher_id req) (req_balls req)
                              (req_strikes req) hand tbl
                              (recommended_pitch_type resp))
                  / inject_Z (sample_size (historical_outcomes resp))
             /\ in_play_hard_hit_pct (historical_outcomes resp) =
                  inject_Z (hard_hits_of_type (req_pitcher_id req)
                              (req_balls req) (req_strikes req) hand tbl
                              (recommended_pitch_type resp))
                  / inject_Z (sample_size (historical_outcomes resp))
             /\ 0 <= whiff_pct (historical_outcomes resp) <= 1
             /\ 0 <= in_play_hard_hit_pct (historical_outcomes resp) <= 1).
Proof.
  intros _.
  destruct (endpoint_answers tbl req) as (resp & Hrun & Hresp).
  exists resp. eexists. split; [exact Hrun |].
  set (pid := req_pitcher_id req) in *. set (b := req_balls req) in *.
  set (s := req_strikes req) in *.
  assert (Hstage : exists hand,
             (hand = Some (req_batter_hand req) \/ hand = None)
             /\ recommend_from (select_situation pid b s hand tbl) = Ok resp).
  { destruct (select_situation pid b s (Some (req_batter_hand req)) tbl)
      as [| a rows] eqn:E.
    - exists None. split; [right; reflexivity | exact Hresp].
    - exists (Some (req_batter_hand req)). split; [left; reflexivity |].
      rewrite E. exact Hresp. }
  destruct Hstage as (hand & Hhand & Hfrom).
  destruct (select_situation pid b s hand tbl) as [| a rows] eqn:E.
  - left. cbn in Hfrom. congruence.
  - right. exists hand. split; [exact Hhand |].
    destruct (recommend_from_member (a :: rows)) as (r & Hin & _ & Hr);
      [discriminate | rewrite <- E; apply select_situation_counts |].
    rewrite Hr in Hfrom. injection Hfrom as <-.
    cbn [recommended_pitch_type historical_outcomes sample_size whiff_pct
         in_play_hard_hit_pct].
    rewrite <- E in Hin.
    pose proof Hin as Hin'.
    apply select_situation_In in Hin' as (pt & -> & H5).
    destruct (aggregate_group_counts pid b s tbl hand pt) as (Hn & Ht & Hw & Hh).
    cbn zeta in Hn, Ht, Hw, Hh. rewrite Hn, Ht, Hw, Hh.
    assert (Hpos : (0 < pitches_of_type pid b s hand tbl pt)%Z) by lia.
    rewrite (rate_is_quotient (whiffs_of_type pid b s hand tbl pt) _ Hpos).
    rewrite (rate_is_quotient (hard_hits_of_type pid b s hand tbl pt) _ Hpos).
    assert (Hc : counts_row
                   (aggregate_group
                      (List.filter (situation_where pid b s hand) tbl) pt)).
    { pose proof (select_situation_counts pid b s hand tbl) as Hall.
      rewrite List.Forall_forall in Hall. apply Hall. exact Hin. }
    destruct Hc as (_ & Hcw & Hch). rewrite Ht, ?Hw, ?Hh in Hcw, Hch.
    pose proof (rate_bounds _ _ Hpos Hcw) as Bw.
    pose proof (rate_bounds _ _ Hpos Hch) as Bh.
    rewrite (rate_is_quotient _ _ Hpos) in Bw.
    rewrite (rate_is_quotient _ _ Hpos) in Bh.
    split; [reflexivity |]. split; [exact H5 |]. split.
    { destruct Hhand as [-> | ->]; [| exact H5].
      pose proof (count_pooled pid b s tbl (req_batter_hand req)
                    (fun _ => true) pt) as Hp.
      rewrite !count_where_all in Hp.
      unfold pitches_of_type, Sql.count_where in *. lia. }
    split; [reflexivity |]. split; [reflexivity |].
    rewrite Hw in Bw. rewrite Hh in Bh. split; [exact Bw | exact Bh].
Qed.

Lemma recommendation_is_a_frequent_type_witness :
  bindable_request example_request
  /\ exists resp trace,
       run (recommend_pitch example_request) example_table
       = Ok (resp, trace)
       /\ recommended_pitch_type resp = "SL"
       /\ sample_size (historical_outcomes resp) = 8%Z.
Proof.
  assert (H : bindable_request example_request)
    by (split; [reflexivity |]; split; reflexivity).
  split; [exact H |].
  destruct (recommendation_is_a_frequent_type example_table example_request H)
    as (resp & trace & Hrun & _).
  exists resp, trace. split; [exact Hrun |].
  assert (E : run (recommend_pitch example_request) example_table
              = Ok (resp, trace)) by exact Hrun.
  rewrite recommend_example_run in E. injection E as <- _.
  split; reflexivity.
Defined.

End Recommended.

(** ** The hand filter and the cap of the views *)

Section HandFilter.

Import Api Spec View.

Lemma situation_with_hand (pid b s : Z) (h : string) (tbl : list PitchRow) :
  List.filter (situation_where pid b s (Some h)) tbl
  = List.filter (situation_where pid b s None) (with_hand h tbl).
Proof.
  unfold with_hand. rewrite filter_twice. apply filter_ext. intros r.
  unfold situation_where, hand_clause.
  destruct (pitcher_id r =? pid), (Sql.eq_int (balls r) b),
    (Sql.eq_int (strikes r) s), (Sql.eq_text (batter_hand r) h),
    (Sql.not_null (pitch_type r)); reflexivity.
Qed.

Lemma usage_with_hand (pid : Z) (h : string) (tbl : list PitchRow) :
  List.filter (usage_where pid (Some h)) tbl
  = List.filter (usage_where pid None) (with_hand h tbl).
Proof.
  unfold with_hand. rewrite filter_twice. apply filter_ext. intros r.
  unfold usage_where, hand_clause.
  destruct (pitcher_id r =? pid), (Sql.not_null (balls r)),
    (Sql.not_null (strikes r)), (Sql.eq_text (batter_hand r) h),
    (Sql.not_null (pitch_type r)); reflexivity.
Qed.

Lemma located_with_hand (pid b s : Z) (h : string) (tbl : list PitchRow) :
  List.filter (located_where pid b s (Some h)) tbl
  = List.filter (located_where pid b s None) (with_hand h tbl).
Proof.
  unfold with_hand. rewrite filter_twice. apply filter_ext. intros r.
  unfold located_where, hand_clause.
  destruct (pitcher_id r =? pid), (Sql.eq_int (balls r) b),
    (Sql.eq_int (strikes r) s), (Sql.eq_text (batter_hand r) h),
    (Sql.not_null (plate_x r)), (Sql.not_null (plate_z r)); reflexivity.
Qed.

(** X5. With a batter hand "L" or "R" each view answers as it does, without
    a hand, on the pitches of the table that were thrown to batters of
    that hand (the pitches view echoing the hand); and the exact-hand
    statement of the recommendation returns, for any hand, what the pooled
    statement returns on those pitches. *)
Theorem valid_hand_restricts_the_table (tbl : list PitchRow)
    (pid b s lim : Z) (h : string) :
  h = "L" \/ h = "R" ->
  (exists u,
     run (pitcher_usage pid (Some h)) tbl = Ok (u, [SelectUsage pid (Some h)])
     /\ run (pitcher_usage pid None) (with_hand h tbl)
        = Ok (u, [SelectUsage pid None]))
  /\ (exists resp,
        run (pitcher_pitches pid b s None lim) (with_hand h tbl)
        = Ok (resp, [SelectLocated pid b s None lim])
        /\ run (pitcher_pitches pid b s (Some h) lim) tbl
           = Ok (echoing (Some h) resp, [SelectLocated pid b s (Some h) lim]))
  /\ (forall h' : string,
        select_situation pid b s (Some h') tbl
        = select_situation pid b s None (with_hand h' tbl)).
Proof.
  intros Hh. pose proof (hand_param_valid h Hh) as Hp. split; [| split].
  - eexists. rewrite !pitcher_usage_run, Hp.
    change (hand_param None) with (@None string).
    unfold select_usage. rewrite usage_with_hand. split; reflexivity.
  - destruct (pitcher_pitches_run (with_hand h tbl) pid b s lim None)
      as (top & bot & Ht & Hb & Hnone).
    destruct (pitcher_pitches_run tbl pid b s lim (Some h))
      as (top' & bot' & Ht' & Hb' & Hsome).
    rewrite Hp in Ht', Hb', Hsome.
    change (hand_param None) with (@None string) in *.
    unfold select_located in Ht', Hb', Hsome.
    rewrite located_with_hand in Ht', Hb', Hsome.
    fold (select_located pid b s None lim (with_hand h tbl)) in Ht', Hb', Hsome.
    assert (top' = top) as -> by congruence.
    assert (bot' = bot) as -> by congruence.
    eexists. split; [exact Hnone |]. rewrite Hsome. reflexivity.
  - intros h'. unfold select_situation. rewrite situation_with_hand.
    reflexivity.
Qed.

End HandFilter.

Section HandFilterRuns.

Import Api Spec View.

Lemma valid_hand_restricts_the_table_witness :
  ("R" = "L" \/ "R" = "R")
  /\ exists resp,
       run (pitcher_pitches 7 1 2 None 500) (with_hand "R" located_table)
       = Ok (resp, [SelectLocated 7 1 2 None 500])
       /\ run (pitcher_pitches 7 1 2 (Some "R") 500) located_table
          = Ok (echoing (Some "R") resp, [SelectLocated 7 1 2 (Some "R") 500]).
Proof.
  assert (H : "R" = "L" \/ "R" = "R") by (right; reflexivity).
  split; [exact H |].
  exact (proj1 (proj2 (valid_hand_restricts_the_table located_table 7 1 2 500
                         "R" H))).
Defined.

End HandFilterRuns.

Section Cap.

Import Api Spec View.

Lemma limit_length {A} (n : Z) (rows : list A) :
  0 <= n -> Z.of_nat (length (Sql.limit n rows)) <= n.
Proof.
  intros H. unfold Sql.limit. destruct (Z.ltb_spec n 0); [lia |].
  rewrite length_take. lia.
Qed.

Lemma select_located_coordinates (pid b s : Z) (hand : option string)
    (lim : Z) (tbl : list PitchRow) :
  Forall (fun r => l_plate_x r <> None /\ l_plate_z r <> None)
    (select_located pid b s hand lim tbl).
Proof.
  unfold select_located, Sql.limit.
  assert (H : Forall (fun r => l_plate_x r <> None /\ l_plate_z r <> None)
                (map located_of
                   (List.filter (located_where pid b s hand) tbl))).
  { apply List.Forall_forall. intros r Hr.
    apply in_map_iff in Hr as (x & <- & Hx).
    apply filter_In in Hx as [_ Hx]. unfold located_where in Hx.
    repeat (apply andb_true_iff in Hx as [Hx ?]).
    cbn. destruct (plate_x x), (plate_z x); try discriminate.
    split; discriminate. }
  destruct (lim <? 0); [exact H | apply Forall_take; exact H].
Qed.

(** X6. A request to the pitches view whose integers the driver can bind
    is answered or rejected, not an error. An answer has at most as many
    pitches as the limit asked, at most 500 when no limit is asked and
    never more than 2000; every pitch of it has both plate coordinates. *)
Theorem pitches_are_capped (tbl : list PitchRow) (pid : Z)
    (balls strikes : option Z) (hand : option string) (lim : option Z) :
  Sql.bindable pid = true ->
  bindable_if_given balls -> bindable_if_given strikes ->
  exists answer trace,
    run (get_pitches pid balls strikes hand lim) tbl = Ok (answer, trace)
    /\ forall resp,
         answer = Some resp ->
         (length (pitches resp) <= 2000)%nat
         /\ (lim = None -> (length (pitches resp) <= 500)%nat)
         /\ (forall l, lim = Some l -> Z.of_nat (length (pitches resp)) <= l)
         /\ Forall (fun p => pt_plate_x p <> None /\ pt_plate_z p <> None)
              (pitches resp).
Proof.
  intros _ _ _. unfold get_pitches.
  destruct (validate balls_query balls) as [b |];
    [| eexists _, _; split; [reflexivity | discriminate]].
  destruct (validate strikes_query strikes) as [s |];
    [| eexists _, _; split; [reflexivity | discriminate]].
  destruct (validate limit_query lim) as [n |] eqn:Hn;
    [| eexists _, _; split; [reflexivity | discriminate]].
  assert (Hrange : 1 <= n <= 2000 /\ (lim = None -> n = 500)
                   /\ (forall l, lim = Some l -> n = l)).
  { unfold validate in Hn. destruct lim as [l |].
    - rewrite within_limit in Hn.
      destruct (Z.leb_spec 1 l), (Z.leb_spec l 2000); try discriminate.
      injection Hn as <-. split; [lia |]. split; [discriminate |].
      intros l' [= ->]. reflexivity.
    - injection Hn as <-. split; [lia |]. split; [reflexivity | discriminate]. }
  destruct Hrange as (Hr & Hnone & Hsome).
  destruct (pitcher_pitches_run tbl pid b s n hand)
    as (top & bot & _ & _ & Hrun).
  unfold run in *. rewrite bind_run.
  destruct (pitcher_pitches pid b s hand n _) as [[r c] | e]; [| discriminate].
  injection Hrun as -> Hc. eexists _, _. split; [reflexivity |].
  intros resp [= <-]. cbn [pitches].
  assert (Hlen : Z.of_nat (length (select_located pid b s (hand_param hand)
                                     n tbl)) <= n)
    by (apply limit_length; lia).
  rewrite length_map.
  split; [lia |]. split; [intros H; pose proof (Hnone H); lia |].
  split; [intros l H; pose proof (Hsome l H); lia |].
  apply Forall_map. cbn.
  exact (select_located_coordinates pid b s (hand_param hand) n tbl).
Qed.

Lemma pitches_are_capped_witness :
  Sql.bindable 7 = true
  /\ bindable_if_given (Some 1) /\ bindable_if_given (Some 2)
  /\ exists answer trace,
       run (get_pitches 7 (Some 1) (Some 2) (Some "R") (Some 1)) located_table
       = Ok (answer, trace)
       /\ forall resp,
            answer = Some resp -> (length (pitches resp) <= 1)%nat.
Proof.
  assert (H1 : bindable_if_given (Some 1)) by (intros n [= <-]; reflexivity).
  assert (H2 : bindable_if_given (Some 2)) by (intros n [= <-]; reflexivity).
  split; [reflexivity |]. split; [exact H1 |]. split; [exact H2 |].
  destruct (pitches_are_capped located_table 7 (Some 1) (Some 2) (Some "R")
              (Some 1) eq_refl H1 H2)
    as (answer & trace & Hrun & Hcap).
  exists answer, trace. split; [exact Hrun |].
  intros resp Hresp. destruct (Hcap resp Hresp) as (_ & _ & Hl & _).
  pose proof (Hl 1 eq_refl). lia.
Defined.

End Cap.

(** ** The usage breakdown *)

Section Partition.

Context {K A : Type} (g : K -> A -> bool).
Hypothesis g_unique : forall k k' r, g k r = true -> g k' r = true -> k = k'.

Lemma one_group (r : A) (keys : list K) (k0 : K) :
  List.NoDup keys -> In k0 keys -> g k0 r = true ->
  fold_right (fun k acc => (if g k r then 1 else 0) + acc) 0 keys = 1.
Proof.
  intros Hnd. induction Hnd as [| k keys Hk Hnd IH]; intros Hin Hg;
    [destruct Hin |].
  cbn. destruct Hin as [-> | Hin].
  - rewrite Hg.
    assert (Hz : fold_right (fun k acc => (if g k r then 1 else 0) + acc) 0 keys
                 = 0).
    { clear IH Hnd. induction keys as [| k keys IH]; [reflexivity |].
      cbn. destruct (g k r) eqn:E.
      - exfalso. apply Hk. left. exact (g_unique _ _ _ E Hg).
      - rewrite IH; [reflexivity |]. intros H. apply Hk. right. exact H. }
    rewrite Hz. reflexivity.
  - destruct (g k r) eqn:E.
    + exfalso. apply Hk. rewrite (g_unique _ _ _ E Hg). exact Hin.
    + rewrite (IH Hin Hg). reflexivity.
Qed.

(** Groups that every row falls into, one group each, add up to the rows. *)
Lemma groups_add_up (keys : list K) (rows : list A) :
  List.NoDup keys ->
  (forall r, In r rows -> exists k, In k keys /\ g k r = true) ->
  fold_right (fun k acc => Sql.count_where (g k) rows + acc) 0 keys
  = Z.of_nat (length rows).
Proof.
  intros Hnd. induction rows as [| r rows IH]; intros Hall.
  - cbn. clear. induction keys as [| k keys IH]; [reflexivity |].
    cbn. rewrite IH. reflexivity.
  - assert (Hsplit :
      fold_right (fun k acc => Sql.count_where (g k) (r :: rows) + acc) 0 keys
      = fold_right (fun k acc => (if g k r then 1 else 0) + acc) 0 keys
        + fold_right (fun k acc => Sql.count_where (g k) rows + acc) 0 keys).
    { clear. induction keys as [| k keys IH]; [reflexivity |].
      cbn [fold_right]. rewrite IH. unfold Sql.count_where. cbn [List.filter].
      destruct (g k r); cbn [length]; lia. }
    rewrite Hsplit, IH; [| intros x Hx; apply Hall; right; exact Hx].
    destruct (Hall r (or_introl eq_refl)) as (k0 & Hin & Hg).
    rewrite (one_group r keys k0 Hnd Hin Hg). cbn [length]. lia.
Qed.

End Partition.

Section Dictionary.

Import Api View.

Context {V : Type}.

Lemma dict_get_append_same (k : string) (e : V) (d : Dict (list V)) :
  dict_get k (dict_append k e d)
  = Some (match dict_get k d with Some es => es | None => [] end ++ [e]).
Proof.
  induction d as [| [k' es] d IH]; cbn.
  - rewrite String.eqb_refl. reflexivity.
  - destruct (String.eqb k k') eqn:E; cbn; rewrite E; [reflexivity | exact IH].
Qed.

Lemma dict_get_append_other (k k' : string) (e : V) (d : Dict (list V)) :
  k <> k' -> dict_get k' (dict_append k e d) = dict_get k' d.
Proof.
  intros Hne. induction d as [| [k2 es] d IH]; cbn.
  - destruct (String.eqb_spec k' k); [congruence | reflexivity].
  - destruct (String.eqb_spec k k2) as [-> | Hk]; cbn.
    + destruct (String.eqb_spec k' k2); [congruence | reflexivity].
    + destruct (String.eqb k' k2); [reflexivity | exact IH].
Qed.

Lemma dict_append_key_In (k : string) (e : V) (d : Dict (list V))
    (x : string) :
  In x (map fst (dict_append k e d)) -> x = k \/ In x (map fst d).
Proof.
  induction d as [| [k' es] d IH]; cbn; intros Hx.
  - destruct Hx as [<- | []]. left. reflexivity.
  - destruct (String.eqb k k'); cbn in Hx.
    + right. exact Hx.
    + destruct Hx as [<- | Hx]; [right; left; reflexivity |].
      destruct (IH Hx); [left | right; right]; assumption.
Qed.

(** Appending never repeats a key. *)
Lemma dict_append_keys (k : string) (e : V) (d : Dict (list V)) :
  List.NoDup (map fst d) -> List.NoDup (map fst (dict_append k e d)).
Proof.
  induction d as [| [k' es] d IH]; cbn; intros Hnd.
  - repeat constructor. intros [].
  - apply List.NoDup_cons_iff in Hnd as [Hk Hnd].
    destruct (String.eqb_spec k k') as [-> | Hne]; cbn.
    + constructor; assumption.
    + constructor; [| apply IH; exact Hnd].
      intros Hin. apply dict_append_key_In in Hin as [-> | Hin];
        [congruence | contradiction].
Qed.

Lemma dict_append_holds (k : string) (e : V) (d : Dict (list V)) :
  exists es, dict_get k (dict_append k e d) = Some es /\ In e es.
Proof.
  eexists. split; [apply dict_get_append_same |].
  apply in_or_app. right. left. reflexivity.
Qed.

Lemma dict_append_keeps (k k' : string) (e e' : V) (d : Dict (list V)) :
  (exists es, dict_get k d = Some es /\ In e es) ->
  exists es, dict_get k (dict_append k' e' d) = Some es /\ In e es.
Proof.
  intros (es & Hget & Hin). destruct (String.eqb_spec k' k) as [-> | Hne].
  - eexists. split; [apply dict_get_append_same |].
    rewrite Hget. apply in_or_app. left. exact Hin.
  - exists es. rewrite (dict_get_append_other _ _ _ _ Hne). auto.
Qed.

Lemma dict_append_Forall (Q : string -> V -> Prop) (k : string) (e : V)
    (d : Dict (list V)) :
  Forall (fun kv => kv.2 <> [] /\ Forall (Q kv.1) kv.2) d ->
  Q k e ->
  Forall (fun kv => kv.2 <> [] /\ Forall (Q kv.1) kv.2) (dict_append k e d).
Proof.
  intros Hd HQ. induction Hd as [| [k' es] d [Hne Hes] Hd IH]; cbn.
  - repeat constructor; [discriminate | exact HQ].
  - destruct (String.eqb_spec k k') as [-> | Hk].
    + constructor; [| exact Hd]. cbn. split.
      * destruct es; discriminate.
      * apply Forall_app. split; [exact Hes |]. repeat constructor. exact HQ.
    + constructor; [split; assumption | exact IH].
Qed.

End Dictionary.

Section Usage.

Import Api Spec View.
Local Open Scope Q_scope.

Lemma in_usage_group_key (k : Z * Z * string) (r : PitchRow) :
  in_usage_group k r = true <-> usage_key r = Some k.
Proof.
  destruct k as [[b s] pt]. unfold in_usage_group, usage_key; cbn.
  destruct (balls r) as [b' |], (strikes r) as [s' |],
    (pitch_type r) as [pt' |]; cbn;
    try (split; [intros H; repeat (apply andb_true_iff in H as [H ?]);
                 discriminate | discriminate]).
  split.
  - intros H. apply andb_true_iff in H as [H H3].
    apply andb_true_iff in H as [H1 H2].
    apply Z.eqb_eq in H1, H2. apply String.eqb_eq in H3. congruence.
  - intros [= -> -> ->]. rewrite !Z.eqb_refl, String.eqb_refl. reflexivity.
Qed.

Lemma usage_where_key (pid : Z) (hand : option string) (r : PitchRow) :
  usage_where pid hand r = true -> exists k, usage_key r = Some k.
Proof.
  unfold usage_where, usage_key. intros H.
  repeat (apply andb_true_iff in H as [H ?]).
  destruct (balls r), (strikes r), (pitch_type r); try discriminate.
  eexists. reflexivity.
Qed.

Variables (pid : Z) (hand : option string) (tbl : list PitchRow).

Let rows := List.filter (usage_where pid hand) tbl.
Let keys := Sql.distinct_sorted compare_key (omap usage_key rows).

Lemma usage_keys_NoDup : List.NoDup keys.
Proof.
  apply (distinct_sorted_NoDup compare_key compare_key_eq compare_key_trans
           compare_key_antisym).
Qed.

Lemma usage_keys_cover (r : PitchRow) :
  In r rows -> exists k, In k keys /\ in_usage_group k r = true.
Proof.
  intros Hr. pose proof Hr as Hw. apply filter_In in Hw as [_ Hw].
  destruct (usage_where_key _ _ _ Hw) as (k & Hk). exists k.
  split; [| apply in_usage_group_key; exact Hk].
  apply (distinct_sorted_In compare_key compare_key_eq).
  apply list_elem_of_In, list_elem_of_omap. exists r.
  split; [apply list_elem_of_In; exact Hr | exact Hk].
Qed.

Lemma usage_keys_occur (k : Z * Z * string) :
  In k keys -> (1 <= Sql.count_where (in_usage_group k) rows)%Z.
Proof.
  intros Hk. unfold keys in Hk.
  apply (proj1 (distinct_sorted_In compare_key compare_key_eq _ _)) in Hk.
  apply list_elem_of_In, list_elem_of_omap in Hk as (r & Hr & Hkey).
  apply list_elem_of_In in Hr.
  assert (Hin : In r (List.filter (in_usage_group k) rows)).
  { apply filter_In. split; [exact Hr |]. apply in_usage_group_key. exact Hkey. }
  unfold Sql.count_where.
  destruct (List.filter (in_usage_group k) rows); [destruct Hin | cbn; lia].
Qed.

Lemma select_usage_eq :
  select_usage pid hand tbl = map (usage_group rows) keys.
Proof. reflexivity. Qed.

Lemma usage_group_total (k : Z * Z * string) :
  u_total (usage_group rows k) = Sql.count_where (in_usage_group k) rows.
Proof. unfold usage_group; cbn. apply count_where_all. Qed.

Lemma select_usage_sum :
  fold_right (fun r acc => (u_total r + acc)%Z) 0%Z (select_usage pid hand tbl)
  = Sql.count_where (usage_where pid hand) tbl.
Proof.
  rewrite select_usage_eq.
  assert (E : fold_right (fun r acc => (u_total r + acc)%Z) 0%Z
                (map (usage_group rows) keys)
              = fold_right (fun k acc =>
                              (Sql.count_where (in_usage_group k) rows + acc)%Z)
                  0%Z keys).
  { induction keys as [| k ks IH]; [reflexivity |].
    cbn [map fold_right]. rewrite IH, usage_group_total. reflexivity. }
  rewrite E. rewrite (groups_add_up in_usage_group).
  - reflexivity.
  - intros k k' r H1 H2. apply in_usage_group_key in H1, H2. congruence.
  - exact usage_keys_NoDup.
  - exact usage_keys_cover.
Qed.

End Usage.

Section UsageDict.

Import Api Spec View.

Lemma entries_sum_app (es : list UsageEntry) (e : UsageEntry) :
  fold_right (fun e a => e_total e + a) 0 (es ++ [e])
  = fold_right (fun e a => e_total e + a) 0 es + e_total e.
Proof. induction es as [| x es IH]; cbn; [lia | rewrite IH; lia]. Qed.

Lemma pitches_counted_append (k : string) (e : UsageEntry)
    (d : Dict (list UsageEntry)) :
  pitches_counted (dict_append k e d) = pitches_counted d + e_total e.
Proof.
  unfold pitches_counted. induction d as [| [k' es] d IH]; cbn.
  - lia.
  - destruct (String.eqb k k'); cbn.
    + rewrite entries_sum_app. lia.
    + rewrite IH. lia.
Qed.

Lemma pitches_counted_fold (rows : list UsageRow) (d : Dict (list UsageEntry)) :
  pitches_counted (fold_left usage_step rows d)
  = pitches_counted d + fold_right (fun r acc => u_total r + acc) 0 rows.
Proof.
  revert d. induction rows as [| r rows IH]; intros d; cbn [fold_left fold_right].
  - lia.
  - rewrite IH. unfold usage_step. rewrite pitches_counted_append. cbn. lia.
Qed.

(** X7. The usage breakdown accounts for every pitch once: the totals of its
    entries add up to the number of pitches of the pitcher that have balls,
    strikes and a pitch type, and the batter hand asked when it is "L" or
    "R". No group is left out for being small. *)
Theorem usage_counts_every_pitch (tbl : list PitchRow) (pid : Z)
    (hand : option string) :
  exists u,
    run (pitcher_usage pid hand) tbl
    = Ok (u, [SelectUsage pid (hand_param hand)])
    /\ usage_pitcher_id u = pid
    /\ pitches_counted (usage_by_count u)
       = Sql.count_where (usage_where pid (hand_param hand)) tbl.
Proof.
  eexists. split; [apply pitcher_usage_run |]. cbn.
  split; [reflexivity |].
  rewrite pitches_counted_fold, select_usage_sum. reflexivity.
Qed.

Lemma fold_usage_keeps (rows : list UsageRow) (d : Dict (list UsageEntry))
    (k : string) (e : UsageEntry) :
  (exists es, dict_get k d = Some es /\ In e es) ->
  exists es, dict_get k (fold_left usage_step rows d) = Some es /\ In e es.
Proof.
  revert d. induction rows as [| r rows IH]; intros d H; cbn [fold_left];
    [exact H |].
  apply IH. unfold usage_step. apply dict_append_keeps. exact H.
Qed.

Lemma fold_usage_holds (rows : list UsageRow) (d : Dict (list UsageEntry))
    (r : UsageRow) :
  In r rows ->
  exists es,
    dict_get (count_label (u_balls r) (u_strikes r))
      (fold_left usage_step rows d) = Some es
    /\ In (entry_of r) es.
Proof.
  revert d. induction rows as [| x rows IH]; intros d Hin; [destruct Hin |].
  cbn [fold_left]. destruct Hin as [-> | Hin]; [| apply IH; exact Hin].
  apply fold_usage_keeps. unfold usage_step. apply dict_append_holds.
Qed.

Lemma fold_usage_keys (rows : list UsageRow) (d : Dict (list UsageEntry)) :
  List.NoDup (map fst d) ->
  List.NoDup (map fst (fold_left usage_step rows d)).
Proof.
  revert d. induction rows as [| r rows IH]; intros d H; cbn [fold_left];
    [exact H |].
  apply IH. unfold usage_step. apply dict_append_keys. exact H.
Qed.

Lemma fold_usage_Forall (Q : string -> UsageEntry -> Prop)
    (rows : list UsageRow) (d : Dict (list UsageEntry)) :
  Forall (fun r => Q (count_label (u_balls r) (u_strikes r)) (entry_of r)) rows ->
  Forall (fun kv => kv.2 <> [] /\ Forall (Q kv.1) kv.2) d ->
  Forall (fun kv => kv.2 <> [] /\ Forall (Q kv.1) kv.2)
    (fold_left usage_step rows d).
Proof.
  revert d. induction rows as [| r rows IH]; intros d Hrows Hd;
    cbn [fold_left]; [exact Hd |].
  apply Forall_cons in Hrows as [Hr Hrows].
  apply IH; [exact Hrows |]. unfold usage_step.
  apply dict_append_Forall; assumption.
Qed.

(** What the statement returns for a group. *)
Lemma usage_row_facts (pid : Z) (hand : option string) (tbl : list PitchRow)
    (r : UsageRow) :
  In r (select_usage pid hand tbl) ->
  u_total r = pitches_at pid hand tbl (u_balls r, u_strikes r, u_pitch_type r)
  /\ 1 <= u_total r
  /\ 0 <= u_whiffs r <= u_total r
  /\ 0 <= u_hard_hits r <= u_total r.
Proof.
  rewrite select_usage_eq. intros Hr.
  apply in_map_iff in Hr as ([[b s] pt] & <- & Hk).
  pose proof (usage_keys_occur pid hand tbl _ Hk) as H1.
  rewrite usage_group_total. cbn [u_balls u_strikes u_pitch_type usage_group fst snd].
  unfold pitches_at. split; [reflexivity |]. split; [exact H1 |].
  rewrite <- (usage_group_total pid hand tbl (b, s, pt)).
  unfold usage_group; cbn [u_total]. split; apply count_where_bounds.
Qed.

(** X8. Every pitch of the pitcher that passes the filter of the usage view
    is listed: under the label of its count there is an entry of its pitch
    type, whose total is the number of such pitches, at least one. *)
Theorem usage_lists_every_pitch (tbl : list PitchRow) (pid : Z)
    (hand : option string) (x : PitchRow) (b s : Z) (pt : string) :
  In x tbl -> usage_where pid (hand_param hand) x = true ->
  usage_key x = Some (b, s, pt) ->
  exists u es e,
    run (pitcher_usage pid hand) tbl
    = Ok (u, [SelectUsage pid (hand_param hand)])
    /\ dict_get (count_label b s) (usage_by_count u) = Some es
    /\ In e es
    /\ e_pitch_type e = pt
    /\ e_total e = pitches_at pid (hand_param hand) tbl (b, s, pt)
    /\ 1 <= e_total e.
Proof.
  intros Hx Hw Hkey.
  set (rows := List.filter (usage_where pid (hand_param hand)) tbl).
  assert (Hin : In (usage_group rows (b, s, pt))
                  (select_usage pid (hand_param hand) tbl)).
  { rewrite select_usage_eq. apply in_map.
    apply (distinct_sorted_In compare_key compare_key_eq).
    apply list_elem_of_In, list_elem_of_omap. exists x.
    split; [| exact Hkey]. apply list_elem_of_In, filter_In. auto. }
  destruct (fold_usage_holds _ [] _ Hin) as (es & Hget & He).
  destruct (usage_row_facts _ _ _ _ Hin) as (Ht & H1 & _).
  eexists _, es, _. split; [apply pitcher_usage_run |].
  cbn [usage_by_count]. split; [exact Hget |]. split; [exact He |].
  split; [reflexivity |]. split; [exact Ht | exact H1].
Qed.

(** X9. In the usage breakdown no label occurs twice and no label has an
    empty list. Every entry stands under the label of a count and has, for
    that count and its pitch type, the number of pitches as its total, at
    least one, and two rates between 0 and 1. *)
Theorem usage_entries_are_groups (tbl : list PitchRow) (pid : Z)
    (hand : option string) :
  exists u,
    run (pitcher_usage pid hand) tbl
    = Ok (u, [SelectUsage pid (hand_param hand)])
    /\ List.NoDup (map fst (usage_by_count u))
    /\ Forall (fun kv =>
                 kv.2 <> []
                 /\ Forall (fun e =>
                              exists b s,
                                kv.1 = count_label b s
                                /\ e_total e =
                                     pitches_at pid (hand_param hand) tbl
                                       (b, s, e_pitch_type e)
                                /\ 1 <= e_total e
                                /\ (0 <= e_whiff_pct e <= 1)%Q
                                /\ (0 <= e_hard_hit_pct e <= 1)%Q)
                      kv.2)
         (usage_by_count u).
Proof.
  eexists. split; [apply pitcher_usage_run |]. cbn [usage_by_count].
  split; [apply fold_usage_keys; constructor |].
  apply (fold_usage_Forall
           (fun k e =>
              exists b s,
                k = count_label b s
                /\ e_total e =
                     pitches_at pid (hand_param hand) tbl (b, s, e_pitch_type e)
                /\ 1 <= e_total e
                /\ (0 <= e_whiff_pct e <= 1)%Q
                /\ (0 <= e_hard_hit_pct e <= 1)%Q));
    [| constructor].
  apply List.Forall_forall. intros r Hr.
  destruct (usage_row_facts _ _ _ _ Hr) as (Ht & H1 & Hw & Hh).
  exists (u_balls r), (u_strikes r). cbn.
  split; [reflexivity |]. split; [exact Ht |]. split; [exact H1 |].
  split; apply rate_bounds; try lia.
Qed.

End UsageDict.

Section UsageRuns.

Import Api Spec View.

Lemma usage_lists_every_pitch_witness :
  In (example_pitch "FF" "called_strike" None) example_table
  /\ usage_where 7 (hand_param (Some "R"))
       (example_pitch "FF" "called_strike" None) = true
  /\ usage_key (example_pitch "FF" "called_strike" None) = Some (1, 2, "FF")
  /\ exists u es e,
       run (pitcher_usage 7 (Some "R")) example_table
       = Ok (u, [SelectUsage 7 (Some "R")])
       /\ dict_get (count_label 1 2) (usage_by_count u) = Some es
       /\ In e es /\ e_pitch_type e = "FF" /\ 1 <= e_total e.
Proof.
  assert (H1 : In (example_pitch "FF" "called_strike" None) example_table).
  { unfold example_table. cbn. do 11 right. left. reflexivity. }
  assert (H2 : usage_where 7 (hand_param (Some "R"))
                 (example_pitch "FF" "called_strike" None) = true)
    by reflexivity.
  assert (H3 : usage_key (example_pitch "FF" "called_strike" None)
               = Some (1, 2, "FF")) by reflexivity.
  split; [exact H1 |]. split; [exact H2 |]. split; [exact H3 |].
  destruct (usage_lists_every_pitch example_table 7 (Some "R") _ 1 2 "FF"
              H1 H2 H3) as (u & es & e & Hrun & Hget & He & Hpt & _ & Hpos).
  exists u, es, e. auto.
Defined.

End UsageRuns.
(** ** Which descriptions are whiffs *)

Lemma append_cons (c : ascii) (a b : string) :
  String c a +:+ b = String c (a +:+ b).
Proof. reflexivity. Qed.

Lemma append_empty (b : string) : "" +:+ b = b.
Proof. reflexivity. Qed.

Lemma append_assoc (a b c : string) : (a +:+ b) +:+ c = a +:+ (b +:+ c).
Proof.
  induction a as [| x a IH]; [reflexivity |].
  rewrite !append_cons, IH. reflexivity.
Qed.

Section Like.

Import Api View.

Lemma from_some_char_end (k : string -> bool) (s : string) (inside : bool) :
  k "" = true -> Sql.from_some_char k inside s = true.
Proof.
  intros Hk. revert inside. induction s as [| c s IH]; intros inside;
    cbn [Sql.from_some_char]; [exact Hk |].
  destruct (inside && Sql.utf8_continuation c); [apply IH |].
  rewrite IH. apply orb_true_r.
Qed.

Lemma from_some_char_always (k : string -> bool) (s : string) :
  (forall t, k t = true) -> Sql.from_some_char k false s = true.
Proof.
  intros Hk. destruct s as [| c s]; cbn [Sql.from_some_char andb];
    [apply Hk |]. rewrite Hk. reflexivity.
Qed.

Lemma like_text_percent (s : string) : Sql.like_text "%" s = true.
Proof.
  cbn [Sql.like_text]. apply from_some_char_end. reflexivity.
Qed.

(** A letter of the pattern that is no wildcard. *)
Lemma like_text_letter (c : ascii) (pat s : string) :
  Ascii.eqb c "%" = false -> Ascii.eqb c "_" = false ->
  Sql.like_text (String c pat) s =
    match s with
    | EmptyString => false
    | String d s' =>
        Ascii.eqb (Py.lower_ascii c) (Py.lower_ascii d) && Sql.like_text pat s'
    end.
Proof.
  intros Hc Hu.
  destruct c as [[] [] [] [] [] [] [] []];
    try discriminate Hc; try discriminate Hu; destruct s; reflexivity.
Qed.

(** Letters of the pattern match a text letter by letter, in either
    case. *)
Lemma like_text_plain (w pat s : string) :
  plain w = true ->
  Sql.like_text (w +:+ pat) s = true
  <-> exists a s', s = a +:+ s' /\ Py.lower a = Py.lower w
                   /\ Sql.like_text pat s' = true.
Proof.
  intros Hw. revert s. induction w as [| c w IH]; intros s.
  - rewrite append_empty. split.
    + intros H. exists "", s. split; [reflexivity |].
      split; [reflexivity | exact H].
    + intros (a & s' & -> & Ha & H). destruct a; [exact H | discriminate Ha].
  - cbn [plain] in Hw. apply andb_true_iff in Hw as [Hw Hp].
    apply andb_true_iff in Hw as [Hc Hu].
    apply negb_true_iff in Hc. apply negb_true_iff in Hu.
    rewrite append_cons, (like_text_letter _ _ _ Hc Hu).
    destruct s as [| d s].
    + split; [discriminate |]. intros (a & s' & E & Ha & _).
      destruct a; [discriminate Ha | discriminate E].
    + rewrite andb_true_iff, (IH Hp s). split.
      * intros (Hcd & a & s' & -> & Ha & H). apply Ascii.eqb_eq in Hcd.
        exists (String d a), s'. split; [reflexivity |].
        split; [| exact H]. cbn [Py.lower]. rewrite Ha, Hcd. reflexivity.
      * intros (a & s' & E & Ha & H). destruct a as [| d' a]; [discriminate Ha |].
        rewrite append_cons in E. injection E as -> ->.
        cbn [Py.lower] in Ha. injection Ha as Hd Ha.
        split; [apply Ascii.eqb_eq; symmetry; exact Hd |].
        exists a, s'. split; [reflexivity |]. split; [exact Ha | exact H].
Qed.

Lemma like_text_any (pat s : string) (d : ascii) :
  Sql.like_text (String "_" pat) (String d s) =
    Sql.like_text pat (if Sql.utf8_lead d then Sql.skip_continuation s else s).
Proof. reflexivity. Qed.

Lemma skip_continuation_split (s : string) :
  exists t, s = t +:+ Sql.skip_continuation s /\ Sql.skip_continuation t = "".
Proof.
  induction s as [| c s (t & E & Ht)]; [exists ""; split; reflexivity |].
  cbn [Sql.skip_continuation]. destruct (Sql.utf8_continuation c) eqn:Hc.
  - exists (String c t). rewrite append_cons, <- E. split; [reflexivity |].
    cbn [Sql.skip_continuation]. rewrite Hc. exact Ht.
  - exists "". split; reflexivity.
Qed.

Lemma skip_continuation_app (t s : string) :
  Sql.skip_continuation t = "" -> Sql.skip_continuation s = s ->
  Sql.skip_continuation (t +:+ s) = s.
Proof.
  intros Ht Hs. induction t as [| c t IH]; [exact Hs |].
  rewrite append_cons. cbn [Sql.skip_continuation] in *.
  destruct (Sql.utf8_continuation c); [exact (IH Ht) | discriminate Ht].
Qed.

Lemma c_string_split (s : string) : exists tail, s = Sql.c_string s +:+ tail.
Proof.
  induction s as [| c s (tail & E)]; [exists ""; reflexivity |].
  cbn [Sql.c_string]. destruct (Ascii.eqb c "000").
  - exists (String c s). reflexivity.
  - exists tail. rewrite append_cons, <- E. reflexivity.
Qed.

Lemma c_string_idem (s : string) : Sql.c_string (Sql.c_string s) = Sql.c_string s.
Proof.
  induction s as [| c s IH]; [reflexivity |]. cbn [Sql.c_string].
  destruct (Ascii.eqb c "000") eqn:E; [reflexivity |].
  cbn [Sql.c_string]. rewrite E, IH. reflexivity.
Qed.

Lemma c_string_app (a b : string) :
  Sql.c_string a = a -> Sql.c_string (a +:+ b) = a +:+ Sql.c_string b.
Proof.
  induction a as [| c a IH]; [reflexivity |]. rewrite !append_cons.
  cbn [Sql.c_string]. destruct (Ascii.eqb c "000"); [discriminate |].
  intros [= H]. rewrite (IH H). reflexivity.
Qed.

Lemma c_string_app_inv (a b : string) :
  Sql.c_string (a +:+ b) = a +:+ b ->
  Sql.c_string a = a /\ Sql.c_string b = b.
Proof.
  induction a as [| c a IH]; [intros H; split; [reflexivity | exact H] |].
  rewrite !append_cons. cbn [Sql.c_string].
  destruct (Ascii.eqb c "000"); [discriminate |].
  intros [= H]. destruct (IH H) as [Ha Hb]. rewrite Ha. split; [reflexivity | exact Hb].
Qed.

Lemma lower_ascii_nul (c : ascii) :
  Ascii.eqb c "000" = Ascii.eqb (Py.lower_ascii c) "000".
Proof. destruct c as [[] [] [] [] [] [] [] []]; reflexivity. Qed.

(** A text that is, up to case, one without NUL has no NUL. *)
Lemma c_string_lower (a w : string) :
  Py.lower a = w -> Sql.c_string w = w -> Sql.c_string a = a.
Proof.
  revert w. induction a as [| c a IH]; intros w Ha Hw; [reflexivity |].
  cbn [Py.lower] in Ha. subst w. cbn [Sql.c_string] in *.
  rewrite (lower_ascii_nul c).
  destruct (Ascii.eqb (Py.lower_ascii c) "000"); [discriminate Hw |].
  injection Hw as Hw. rewrite (IH _ eq_refl Hw). reflexivity.
Qed.

Lemma continuation_not_nul (c : ascii) :
  Sql.utf8_continuation c = true -> Ascii.eqb c "000" = false.
Proof. destruct c as [[] [] [] [] [] [] [] []]; try discriminate; reflexivity. Qed.

Lemma c_string_continuation (t : string) :
  Sql.skip_continuation t = "" -> Sql.c_string t = t.
Proof.
  induction t as [| c t IH]; [reflexivity |]. cbn [Sql.skip_continuation Sql.c_string].
  destruct (Sql.utf8_continuation c) eqn:Hc; [| discriminate].
  intros Ht. rewrite (continuation_not_nul c Hc), (IH Ht). reflexivity.
Qed.

Lemma c_string_one_char (ch : string) :
  one_char ch = true -> Sql.c_string ch = ch.
Proof.
  destruct ch as [| d t]; [discriminate |]. cbn [one_char Sql.c_string].
  intros H. apply andb_true_iff in H as [Hd Ht].
  apply negb_true_iff in Hd. rewrite Hd. apply String.eqb_eq in Ht.
  destruct (Sql.utf8_lead d).
  - rewrite (c_string_continuation t Ht). reflexivity.
  - subst t. reflexivity.
Qed.

(** A text that begins, up to case, with the letter s does not begin
    with a continuation byte. *)
Lemma strike_starts_a_char (b x : string) :
  Py.lower b = "strike" ->
  Sql.skip_continuation (b +:+ x) = b +:+ x.
Proof.
  destruct b as [| e b]; [discriminate |]. cbn [Py.lower]. intros [= He _].
  rewrite append_cons. cbn [Sql.skip_continuation].
  destruct e as [[] [] [] [] [] [] [] []]; try discriminate He; reflexivity.
Qed.

(** The pattern of the statements, in its parts. *)
Lemma like_whiff (text : string) :
  Sql.like "swinging_strike%" text = true
  <-> exists a ch b rest,
        text = a +:+ ch +:+ b +:+ rest
        /\ Py.lower a = "swinging" /\ one_char ch = true
        /\ Py.lower b = "strike".
Proof.
  unfold Sql.like.
  change "swinging_strike%"
    with ("swinging" +:+ String "_" ("strike" +:+ "%")).
  rewrite (like_text_plain "swinging" _ _ eq_refl).
  change (Py.lower "swinging") with "swinging". split.
  - intros (a & s1 & Ecs & Ha & H1).
    destruct s1 as [| d s0]; [discriminate H1 |].
    rewrite like_text_any in H1.
    apply (like_text_plain "strike" "%" _ eq_refl) in H1
      as (b & s3 & E2 & Hb & _).
    change (Py.lower "strike") with "strike" in Hb.
    destruct (c_string_split text) as (tail & Etext).
    assert (Hd : Ascii.eqb d "000" = false).
    { pose proof (c_string_idem text) as Hi. rewrite Ecs in Hi.
      apply c_string_app_inv in Hi as [_ Hi]. cbn [Sql.c_string] in Hi.
      destruct (Ascii.eqb d "000"); [discriminate Hi | reflexivity]. }
    destruct (Sql.utf8_lead d) eqn:Hl.
    + destruct (skip_continuation_split s0) as (t & E0 & Ht).
      exists a, (String d t), b, (s3 +:+ tail).
      split; [| split; [exact Ha | split; [| exact Hb]]].
      * rewrite Etext, Ecs, E0, E2.
        rewrite !append_cons, !append_assoc, !append_cons, !append_assoc.
        reflexivity.
      * cbn [one_char]. rewrite Hd, Hl, Ht. reflexivity.
    + exists a, (String d ""), b, (s3 +:+ tail).
      split; [| split; [exact Ha | split; [| exact Hb]]].
      * rewrite Etext, Ecs, E2.
        rewrite !append_cons, !append_assoc, !append_cons, append_empty,
          !append_assoc.
        reflexivity.
      * cbn [one_char]. rewrite Hd, Hl. reflexivity.
  - intros (a & ch & b & rest & -> & Ha & Hch & Hb).
    pose proof (c_string_lower a _ Ha eq_refl) as Na.
    pose proof (c_string_one_char ch Hch) as Nch.
    pose proof (c_string_lower b _ Hb eq_refl) as Nb.
    rewrite (c_string_app _ _ Na), (c_string_app _ _ Nch),
      (c_string_app _ _ Nb).
    exists a, (ch +:+ b +:+ Sql.c_string rest).
    split; [reflexivity |]. split; [exact Ha |].
    destruct ch as [| d t]; [discriminate Hch |].
    cbn [one_char] in Hch. apply andb_true_iff in Hch as [_ Ht].
    apply String.eqb_eq in Ht.
    rewrite (append_cons d), like_text_any.
    assert (E : (if Sql.utf8_lead d
                 then Sql.skip_continuation (t +:+ b +:+ Sql.c_string rest)
                 else t +:+ b +:+ Sql.c_string rest)
                = b +:+ Sql.c_string rest).
    { destruct (Sql.utf8_lead d).
      - apply skip_continuation_app; [exact Ht |].
        apply strike_starts_a_char. exact Hb.
      - subst t. reflexivity. }
    rewrite E. apply (like_text_plain "strike" "%" _ eq_refl).
    exists b, (Sql.c_string rest). split; [reflexivity |].
    split; [exact Hb | apply like_text_percent].
Qed.

(** X10. A pitch counts as a whiff exactly when its description begins
    with the letters of "swinging", one character, and the letters of
    "strike", the letters in either case: the character is any one that
    LIKE can read, of one byte or of several (so an accented letter in the
    place of the underscore counts). A pitch without description never
    counts, and every description that begins with "swinging_strike"
    does, whatever follows. *)
Theorem whiff_is_a_prefix_match :
  (forall r : PitchRow,
      is_whiff r = true
      <-> exists a ch b rest,
            description r = Some (a +:+ ch +:+ b +:+ rest)
            /\ Py.lower a = "swinging" /\ one_char ch = true
            /\ Py.lower b = "strike")
  /\ (forall (r : PitchRow) (rest : string),
        description r = Some ("swinging_strike" +:+ rest) ->
        is_whiff r = true).
Proof.
  assert (H : forall r : PitchRow,
      is_whiff r = true
      <-> exists a ch b rest,
            description r = Some (a +:+ ch +:+ b +:+ rest)
            /\ Py.lower a = "swinging" /\ one_char ch = true
            /\ Py.lower b = "strike").
  { intros r. unfold is_whiff. destruct (description r) as [text |].
    - rewrite like_whiff. split.
      + intros (a & ch & b & rest & -> & Hrest). exists a, ch, b, rest.
        split; [reflexivity | exact Hrest].
      + intros (a & ch & b & rest & [= ->] & Hrest). exists a, ch, b, rest.
        split; [reflexivity | exact Hrest].
    - split; [discriminate |]. intros (a & ch & b & rest & E & _).
      discriminate E. }
  split; [exact H |].
  intros r rest E. apply H. exists "swinging", "_", "strike", rest.
  split; [exact E |]. split; [reflexivity |]. split; reflexivity.
Qed.

End Like.

Section LikeRuns.

Import Api Spec View.

Lemma whiff_is_a_prefix_match_witness :
  description (example_pitch "FF" "swinging_strike_blocked" None)
  = Some ("swinging_strike" +:+ "_blocked")
  /\ is_whiff (example_pitch "FF" "swinging_strike_blocked" None) = true
  /\ is_whiff
       (example_pitch "FF" ("Swinging" +:+ e_acute +:+ "STRIKE" +:+ "d") None)
     = true.
Proof.
  assert (E : description (example_pitch "FF" "swinging_strike_blocked" None)
              = Some ("swinging_strike" +:+ "_blocked")) by reflexivity.
  split; [exact E |].
  split; [exact (proj2 whiff_is_a_prefix_match _ "_blocked" E) |].
  apply (proj1 whiff_is_a_prefix_match). exists "Swinging", e_acute, "STRIKE", "d".
  split; [reflexivity |]. split; [reflexivity |]. split; reflexivity.
Defined.

End LikeRuns.

(** ** What ingestion does to the database *)

Section Growth.

Import Etl EtlSpec EtlView.

Lemma refers_app (ps more : list Pitcher) (e : PitchRow) :
  refers ps e -> refers (ps ++ more) e.
Proof.
  intros (p & Hin & Hid). exists p. split; [| exact Hid].
  apply in_or_app. left. exact Hin.
Qed.

Lemma grows_refl (d : Db) : grows d d.
Proof.
  exists [], []. rewrite !app_nil_r. repeat split; [constructor | auto].
Qed.

Lemma grows_trans (d1 d2 d3 : Db) : grows d1 d2 -> grows d2 d3 -> grows d1 d3.
Proof.
  intros (ps & es & Hp & He & Hes & Hu) (ps' & es' & Hp' & He' & Hes' & Hu').
  exists (ps ++ ps'), (es ++ es').
  split; [rewrite Hp', Hp, app_assoc; reflexivity |].
  split; [rewrite He', He, app_assoc; reflexivity |].
  split; [| auto].
  apply Forall_app. split; [| exact Hes'].
  eapply List.Forall_impl; [| exact Hes].
  intros e [Hr Hw]. split; [| exact Hw]. rewrite Hp'. apply refers_app. exact Hr.
Qed.

Lemma internal_id_refers (m i : Z) (ps : list Pitcher) :
  internal_id m ps = Some i -> exists p, In p ps /\ id p = i.
Proof.
  unfold internal_id. destruct (List.find _ ps) as [p |] eqn:E; [| discriminate].
  intros [= <-]. exists p. split; [| reflexivity].
  apply find_some in E as [Hin _]. exact Hin.
Qed.

(** A call of the registry appends at most one record and keeps the
    external ids distinct. *)
Lemma resolve_grows (m : Z) (nm hand : Value) (w w1 : World) (i : Z) :
  get_or_create_pitcher m nm hand w = Ok (i, w1) ->
  exists ps,
    pitchers (db w1) = pitchers (db w) ++ ps
    /\ events (db w1) = events (db w)
    /\ stdout w1 = stdout w
    /\ (one_record_per_id (pitchers (db w)) ->
        one_record_per_id (pitchers (db w1))).
Proof.
  unfold get_or_create_pitcher. rewrite bind_run. cbn [get_state].
  destruct (List.find _ _) as [row |] eqn:E.
  - intros H. injection H as <- <-. exists []. rewrite app_nil_r. auto.
  - rewrite bind_run, lift_res_run.
    destruct (bind_text nm) as [n | e]; [| discriminate].
    rewrite bind_run, lift_res_run.
    destruct (bind_text hand) as [h | e]; [| discriminate].
    intros H. injection H as <- <-. cbn. eexists. split; [reflexivity |].
    split; [reflexivity |]. split; [reflexivity |].
    intros Hok. unfold one_record_per_id. rewrite map_app. cbn.
    apply List.NoDup_app; [exact Hok | repeat constructor; simpl; tauto |].
    intros a Ha [<- | []]. apply find_known, existsb_not_In in E. contradiction.
Qed.

End Growth.

Section RowGrowth.

Import Etl EtlSpec EtlView.

Variable int_of_str : string -> option Z.
Variable float_of_str : string -> option Q.

#[local] Abbreviation process_row := (Etl.process_row int_of_str float_of_str).
#[local] Abbreviation read_rows := (Etl.read_rows int_of_str float_of_str).
#[local] Abbreviation process_csv := (Etl.process_csv int_of_str float_of_str).
#[local] Abbreviation ingest := (Etl.ingest int_of_str float_of_str).
#[local] Abbreviation main := (Etl.main int_of_str float_of_str).

Lemma inning_topbot_values (v : Value) (tb : option string) :
  inning_topbot_of v = Ok tb ->
  tb = None \/ tb = Some "Top" \/ tb = Some "Bottom".
Proof.
  unfold inning_topbot_of. destruct (truthy v); [| intros [= <-]; auto].
  destruct v as [| t | l]; try discriminate.
  destruct (Py.startswith "t" _); [intros [= <-]; auto |].
  destruct (Py.startswith "b" _); intros [= <-]; auto.
Qed.

Lemma bind_text_truthy (v : Value) (t : option string) :
  truthy v = true -> bind_text v = Ok t -> exists s, t = Some s /\ s <> "".
Proof.
  destruct v as [| s | l]; cbn; try discriminate.
  intros Ht [= <-]. exists s. split; [reflexivity |].
  destruct (String.eqb_spec s ""); [discriminate | assumption].
Qed.

Lemma bind_text_or_text (v : Value) (s : string) (t : option string) :
  bind_text (or_else v (VStr s)) = Ok t -> t <> None.
Proof.
  unfold or_else. destruct (truthy v) eqn:E.
  - destruct v; cbn; try discriminate. intros [= <-]. discriminate.
  - cbn. intros [= <-]. discriminate.
Qed.

(** A row that is processed without an exception leaves the standard
    output as it was and the database grown by at most one event. *)
Lemma process_row_grows (c : Columns) (row : DictRow) (w w' : World) :
  process_row c row w = Ok (tt, w') ->
  grows (db w) (db w') /\ stdout w' = stdout w.
Proof.
  unfold Etl.process_row.
  destruct (truthy (row_get row (pitcher_col c))); cbn [negb];
    [| intros H; injection H as <-; split; [apply grows_refl | reflexivity]].
  destruct (Etl.to_int int_of_str (row_get row (pitcher_col c))) as [m |];
    [| intros H; injection H as <-; split; [apply grows_refl | reflexivity]].
  rewrite bind_run.
  destruct (get_or_create_pitcher m _ _ w) as [[i w1] | e] eqn:Hres;
    [| discriminate].
  pose proof (resolve_outcome _ _ _ _ _ _ Hres) as (_ & _ & Hid).
  apply resolve_grows in Hres as (ps & Hps & Hev & Hout & Hone).
  rewrite bind_run, lift_res_run.
  destruct (inning_topbot_of _) as [tb | e] eqn:Htb; [| discriminate].
  apply inning_topbot_values in Htb.
  destruct (truthy (row_get row (pitch_type_col c))) eqn:Hpt; cbn [negb].
  - unfold insert_pitch.
    rewrite bind_run, lift_res_run.
    destruct (bind_text _) as [gd | e]; [| discriminate].
    rewrite bind_run, lift_res_run.
    destruct (bind_text _) as [bh | e]; [| discriminate].
    rewrite bind_run, lift_res_run.
    destruct (bind_text (row_get row (pitch_type_col c))) as [pt | e] eqn:Hb;
      [| discriminate].
    destruct (bind_text_truthy _ _ Hpt Hb) as (s & -> & Hs).
    rewrite bind_run, lift_res_run.
    destruct (bind_text (or_else _ (VStr ""))) as [de | e] eqn:Hde;
      [| discriminate].
    apply bind_text_or_text in Hde.
    rewrite bind_run, lift_res_run.
    destruct (bind_text (or_else (row_get row (events_col c)) VNone))
      as [oc | e]; [| discriminate].
    intros H; injection H as <-. cbn. split; [| exact Hout].
    eexists ps, [_]. cbn. split; [exact Hps |].
    split; [rewrite Hev; reflexivity |]. split; [| exact Hone].
    constructor; [| constructor]. split.
    + cbn. apply internal_id_refers in Hid. exact Hid.
    + repeat split; cbn; eauto.
  - intros H; injection H as <-. split; [| exact Hout].
    exists ps, []. rewrite app_nil_r. split; [exact Hps |].
    split; [exact Hev |]. split; [constructor | exact Hone].
Qed.

Lemma read_rows_grows (fieldnames : list string) (c : Columns)
    (rs : list CsvRecord) (n n' : Z) (w w' : World) :
  read_rows fieldnames c rs n w = Ok (n', w') ->
  grows (db w) (db w') /\ stdout w' = stdout w.
Proof.
  revert n w. induction rs as [| r rs IH]; intros n w; cbn [Etl.read_rows].
  - intros H; injection H as <- <-. split; [apply grows_refl | reflexivity].
  - destruct r as [[| x cells] |]; [apply IH | | discriminate].
    rewrite bind_run.
    destruct (process_row c _ w) as [[[] w1] | e] eqn:Hrow; [| discriminate].
    apply process_row_grows in Hrow as [Hg Ho]. intros H.
    apply IH in H as [Hg' Ho']. split; [| congruence].
    exact (grows_trans _ _ _ Hg Hg').
Qed.

Lemma process_csv_grows (f : CsvFile) (w w' : World) :
  process_csv f w = Ok (tt, w') -> grows (db w) (db w').
Proof.
  unfold Etl.process_csv. rewrite bind_run, print_run.
  destruct (records f) as [| [[| h hs] | ] body].
  - intros H; injection H as <-. apply grows_refl.
  - intros H; injection H as <-. apply grows_refl.
  - rewrite bind_run, print_run.
    destruct (negb _ || negb _); [intros H; injection H as <-; apply grows_refl |].
    rewrite bind_run.
    destruct (read_rows _ _ body 0 _) as [[n w1] | e] eqn:Hrows;
      [| discriminate].
    apply read_rows_grows in Hrows as [Hg _]. intros H; injection H as <-. exact Hg.
  - discriminate.
Qed.

Lemma for_each_grows (fs : list CsvFile) (w w' : World) :
  for_each process_csv fs w = Ok (tt, w') -> grows (db w) (db w').
Proof.
  revert w. induction fs as [| f fs IH]; intros w; cbn [for_each].
  - intros H; injection H as <-. apply grows_refl.
  - rewrite bind_run.
    destruct (process_csv f w) as [[[] w1] | e] eqn:Hf; [| discriminate].
    apply process_csv_grows in Hf. intros H. apply IH in H.
    exact (grows_trans _ _ _ Hf H).
Qed.

(** Whatever the outcome of a run, the committed database is the one before
    the run, grown. *)
Lemma main_grows (csv_dir : option (list CsvFile)) (disk : Db) :
  grows disk (snd (main csv_dir disk)).
Proof.
  unfold Etl.main. destruct csv_dir as [[| f fs] |];
    try (cbn; apply grows_refl).
  destruct (ingest (f :: fs) _) as [[[] w'] | e] eqn:H;
    [| cbn; apply grows_refl].
  cbn [snd]. unfold Etl.ingest in H. rewrite bind_run, print_run in H.
  rewrite bind_run in H.
  destruct (for_each process_csv (f :: fs) _) as [[[] w1] | e'] eqn:Hf;
    [| discriminate].
  apply for_each_grows in Hf. rewrite print_run in H. injection H as <-.
  exact Hf.
Qed.

End RowGrowth.

Section RunInvariants.

Import Etl EtlSpec EtlView.

Variable int_of_str : string -> option Z.
Variable float_of_str : string -> option Q.
Variables (csv_dir : option (list CsvFile)) (disk : Db).

Let after : Db := snd (Etl.main int_of_str float_of_str csv_dir disk).

(** X11. Whatever its outcome, a run of the ingestion only appends: the
    committed pitchers and events begin with those of before, in the same
    order. Every event added belongs to a pitcher of the registry, so if
    every event had an owner before the run, every event has one after. *)
Theorem ingestion_only_appends :
  exists ps es,
    pitchers after = pitchers disk ++ ps
    /\ events after = events disk ++ es
    /\ Forall (refers (pitchers after)) es
    /\ (Forall (refers (pitchers disk)) (events disk) ->
        Forall (refers (pitchers after)) (events after)).
Proof.
  destruct (main_grows int_of_str float_of_str csv_dir disk)
    as (ps & es & Hp & He & Hes & _).
  fold after in Hp, He, Hes. exists ps, es.
  split; [exact Hp |]. split; [exact He |].
  assert (Hr : Forall (refers (pitchers after)) es).
  { eapply List.Forall_impl; [| exact Hes]. intros e [H _]. exact H. }
  split; [exact Hr |]. intros Hold. rewrite He. apply Forall_app.
  split; [| exact Hr]. eapply List.Forall_impl; [| exact Hold].
  intros e H. rewrite Hp. apply refers_app. exact H.
Qed.

(** X12. Every event that a run adds has a pitch type that is not blank, a
    description that is not null (blank when the source has none), a null
    run value, and a half inning that is "Top", "Bottom" or null. *)
Theorem ingested_events_are_well_formed :
  exists es,
    events after = events disk ++ es
    /\ Forall (fun e =>
                 (exists pt, pitch_type e = Some pt /\ pt <> "")
                 /\ description e <> None
                 /\ runs_value e = None
                 /\ (top_bottom e = None \/ top_bottom e = Some "Top"
                     \/ top_bottom e = Some "Bottom")) es.
Proof.
  destruct (main_grows int_of_str float_of_str csv_dir disk)
    as (ps & es & _ & He & Hes & _).
  fold after in He, Hes. exists es. split; [exact He |].
  eapply List.Forall_impl; [| exact Hes]. intros e [_ H]. exact H.
Qed.

(** X13. A run on a registry with one record per external id commits a
    registry with one record per external id, over all the files of the
    run. *)
Theorem ingestion_keeps_one_record_per_id :
  one_record_per_id (pitchers disk) -> one_record_per_id (pitchers after).
Proof.
  destruct (main_grows int_of_str float_of_str csv_dir disk)
    as (ps & es & _ & _ & _ & H).
  exact H.
Qed.

End RunInvariants.

Section RunInvariantsRuns.

Import Etl EtlSpec EtlView.

Lemma ingestion_keeps_one_record_per_id_witness :
  one_record_per_id (pitchers empty_db)
  /\ one_record_per_id
       (pitchers (snd (Etl.main int_decimal float_decimal
                         (Some [good_file; blank_type_file; good_file])
                         empty_db))).
Proof.
  assert (H : one_record_per_id (pitchers empty_db)) by apply List.NoDup_nil.
  split; [exact H |].
  exact (ingestion_keeps_one_record_per_id int_decimal float_decimal
           (Some [good_file; blank_type_file; good_file]) empty_db H).
Defined.

End RunInvariantsRuns.

(** ** Headers and columns *)

Section Headers.

Import Etl EtlSpec EtlView.

Lemma find_append {A} (f : A -> bool) (l l' : list A) :
  List.find f (l ++ l')
  = match List.find f l with
    | Some x => Some x
    | None => List.find f l'
    end.
Proof.
  induction l as [| x l IH]; cbn; [reflexivity |].
  destruct (f x); [reflexivity | exact IH].
Qed.

Lemma header_map_from (hs : list string) (m : gmap string string)
    (k : string) :
  fold_left (fun m fn => <[sanitize_header fn := fn]> m) hs m !! k
  = match last_named hs k with
    | Some h => Some h
    | None => m !! k
    end.
Proof.
  revert m. induction hs as [| h hs IH]; intros m; [reflexivity |].
  cbn [fold_left]. rewrite IH. unfold last_named. cbn [rev].
  rewrite find_append.
  destruct (List.find _ (rev hs)) as [x |]; [reflexivity |]. cbn.
  destruct (String.eqb_spec (sanitize_header h) k) as [<- | Hne].
  - apply lookup_insert_eq.
  - apply lookup_insert_ne. exact Hne.
Qed.

(** The header map sends a name to the last header that sanitizes to it. *)
Lemma header_map_lookup (hs : list string) (k : string) :
  header_map_of hs !! k = last_named hs k.
Proof.
  unfold header_map_of. rewrite header_map_from.
  destruct (last_named hs k); [reflexivity | apply lookup_empty].
Qed.

Lemma last_named_Some (hs : list string) (k h : string) :
  last_named hs k = Some h -> In h hs /\ sanitize_header h = k.
Proof.
  unfold last_named. intros H. apply find_some in H as [Hin Heq].
  apply in_rev in Hin. apply String.eqb_eq in Heq. auto.
Qed.

Lemma last_named_names (hs : list string) (k : string) :
  names hs k <-> exists h, last_named hs k = Some h.
Proof.
  split.
  - intros (h & Hin & Heq). unfold last_named.
    destruct (List.find _ (rev hs)) as [x |] eqn:E; [eauto |].
    exfalso. apply in_rev in Hin.
    pose proof (find_none _ _ E h Hin) as Hf. cbn in Hf.
    rewrite Heq, String.eqb_refl in Hf. discriminate.
  - intros (h & H). apply last_named_Some in H as [Hin Heq].
    exists h. auto.
Qed.

Lemma sanitize_header_empty : sanitize_header "" = "".
Proof. reflexivity. Qed.

Lemma last_named_present (hs : list string) (k : string) :
  k <> "" ->
  present (last_named hs k) = true <-> names hs k.
Proof.
  intros Hk. rewrite last_named_names. unfold present. split.
  - destruct (last_named hs k); [eauto | discriminate].
  - intros (h & H). rewrite H. apply last_named_Some in H as [_ Heq].
    destruct (String.eqb_spec h "") as [-> | _]; [| reflexivity].
    rewrite sanitize_header_empty in Heq. congruence.
Qed.

Lemma col_lookup (hs : list string) (nm : string) (fallback : option string) :
  col (header_map_of hs) nm fallback
  = match last_named hs nm with
    | Some raw => Some raw
    | None =>
        match fallback with
        | Some fb => if String.eqb fb "" then None else last_named hs fb
        | None => None
        end
    end.
Proof.
  unfold col. rewrite header_map_lookup.
  destruct (last_named hs nm); [reflexivity |].
  destruct fallback as [fb |]; [| reflexivity].
  destruct (String.eqb fb ""); [reflexivity | apply header_map_lookup].
Qed.

Lemma required_present (hs : list string) :
  names hs "pitcher" ->
  names hs "pitch_type" \/ names hs "pitch_name" ->
  present (pitcher_col (resolve_columns (header_map_of hs))) = true
  /\ present (pitch_type_col (resolve_columns (header_map_of hs))) = true.
Proof.
  intros Hp Ht. unfold resolve_columns. cbn [pitcher_col pitch_type_col].
  rewrite !col_lookup. cbn [String.eqb Ascii.eqb Bool.eqb]. split.
  - apply last_named_names in Hp as (raw & Hraw). rewrite Hraw.
    apply last_named_Some in Hraw as [_ Heq]. unfold present.
    destruct (String.eqb_spec raw "") as [-> | _]; [| reflexivity].
    rewrite sanitize_header_empty in Heq. discriminate.
  - destruct (last_named hs "pitch_type") as [raw |] eqn:E.
    + apply last_named_Some in E as [_ Heq]. unfold present.
      destruct (String.eqb_spec raw "") as [-> | _]; [| reflexivity].
      rewrite sanitize_header_empty in Heq. discriminate.
    + destruct Ht as [Ht | Ht].
      * apply last_named_names in Ht as (raw & Hraw). congruence.
      * apply last_named_present; [discriminate | exact Ht].
Qed.

(** X14. A column is resolved to the last header whose name, rid of a
    byte-order mark, of surrounding blanks and of surrounding quotes, is the
    name asked; the pitch type falls back to a header named "pitch_name"
    only when none is named "pitch_type". The two required columns are
    found exactly when some header bears such a name. *)
Theorem columns_resolve_by_sanitized_name (raw_headers : list string) :
  let c := resolve_columns (header_map_of raw_headers) in
  pitcher_col c = last_named raw_headers "pitcher"
  /\ pitch_type_col c
     = match last_named raw_headers "pitch_type" with
       | Some raw => Some raw
       | None => last_named raw_headers "pitch_name"
       end
  /\ (present (pitcher_col c) = true <-> names raw_headers "pitcher")
  /\ (present (pitch_type_col c) = true
      <-> names raw_headers "pitch_type" \/ names raw_headers "pitch_name")
  /\ (forall raw, pitcher_col c = Some raw ->
                  In raw raw_headers /\ sanitize_header raw = "pitcher")
  /\ player_name_col c = last_named raw_headers "player_name"
  /\ p_throws_col c = last_named raw_headers "p_throws"
  /\ stand_col c = last_named raw_headers "stand"
  /\ inning_tb_col c = last_named raw_headers "inning_topbot"
  /\ description_col c = last_named raw_headers "description"
  /\ events_col c = last_named raw_headers "events".
Proof.
  intros c. unfold c, resolve_columns.
  cbn [pitcher_col pitch_type_col player_name_col p_throws_col stand_col
       inning_tb_col description_col events_col].
  rewrite !col_lookup. cbn [String.eqb Ascii.eqb Bool.eqb].
  assert (Hopt : forall nm,
             match last_named raw_headers nm with
             | Some raw => Some raw
             | None => None
             end = last_named raw_headers nm)
    by (intros nm; destruct (last_named raw_headers nm); reflexivity).
  rewrite !Hopt.
  split; [reflexivity |]. split; [reflexivity |].
  split; [apply last_named_present; discriminate |]. split.
  - destruct (last_named raw_headers "pitch_type") as [raw |] eqn:E.
    + split; [intros _; left; apply last_named_names; eauto |].
      intros _. pose proof E as E'. apply last_named_Some in E' as [_ Heq].
      unfold present. destruct (String.eqb_spec raw "") as [-> | _];
        [| reflexivity].
      rewrite sanitize_header_empty in Heq. discriminate.
    + rewrite (last_named_present raw_headers "pitch_name") by discriminate.
      split; [auto |]. intros [H | H]; [| exact H].
      apply last_named_names in H as (h & H). congruence.
  - split; [intros raw H; apply last_named_Some; exact H |].
    repeat split; reflexivity.
Qed.

End Headers.

(** ** Files that are read to their end *)

Section TidyFiles.

Import Etl EtlSpec EtlView.

Variable int_of_str : string -> option Z.
Variable float_of_str : string -> option Q.

#[local] Abbreviation process_row := (Etl.process_row int_of_str float_of_str).
#[local] Abbreviation read_rows := (Etl.read_rows int_of_str float_of_str).
#[local] Abbreviation process_csv := (Etl.process_csv int_of_str float_of_str).

Lemma surplus_fits (fieldnames cells : list string) :
  (length cells <= length fieldnames)%nat ->
  surplus (dict_row fieldnames cells) = [].
Proof. intros H. unfold dict_row; cbn. apply drop_ge. exact H. Qed.

Lemma insert_pitch_text (pid : Z) (gd bh pt de oc : Value)
    (inn : option Z) (tb : option string) (b s : option Z)
    (v x z top bot : option Q) (w : World) :
  is_text gd -> is_text bh -> is_text pt -> is_text de -> is_text oc ->
  exists e,
    insert_pitch pid gd inn tb bh b s pt v x z top bot de oc w
    = Ok (tt, {| db := {| pitchers := pitchers (db w);
                          events := events (db w) ++ [e] |};
                 stdout := stdout w |}).
Proof.
  intros H1 H2 H3 H4 H5. unfold insert_pitch.
  rewrite bind_run, lift_res_run, (bind_text_text _ H1).
  rewrite bind_run, lift_res_run, (bind_text_text _ H2).
  rewrite bind_run, lift_res_run, (bind_text_text _ H3).
  rewrite bind_run, lift_res_run, (bind_text_text _ H4).
  rewrite bind_run, lift_res_run, (bind_text_text _ H5).
  eexists. reflexivity.
Qed.

(** A row without surplus cells is processed without an exception, and
    adds an event exactly when it passes the three checks. *)
Lemma process_row_total (c : Columns) (row : DictRow) (w : World) :
  surplus row = [] ->
  exists w',
    process_row c row w = Ok (tt, w')
    /\ stdout w' = stdout w
    /\ length (events (db w'))
       = (length (events (db w))
          + if accepted int_of_str c row then 1 else 0)%nat.
Proof.
  intros Hs. unfold Etl.process_row, accepted.
  destruct (truthy (row_get row (pitcher_col c))); cbn [negb andb];
    [| exists w; split; [reflexivity |]; split; [reflexivity | lia]].
  destruct (Etl.to_int int_of_str (row_get row (pitcher_col c))) as [m |];
    cbn [andb];
    [| exists w; split; [reflexivity |]; split; [reflexivity | lia]].
  rewrite bind_run.
  destruct (resolve_text m
              (or_else (row_get row (player_name_col c)) (VStr "Unknown Pitcher"))
              (or_else (row_get row (p_throws_col c)) (VStr "")) w)
    as (i & w1 & Hres).
  { apply or_else_text; [apply row_get_text; exact Hs | exact I]. }
  { apply or_else_text; [apply row_get_text; exact Hs | exact I]. }
  rewrite Hres. apply resolve_outcome in Hres as (Hev & Hout & _).
  destruct (inning_topbot_text (row_get row (inning_tb_col c))
              (row_get_text row _ Hs)) as (tb & Htb).
  rewrite bind_run, lift_res_run, Htb.
  destruct (truthy (row_get row (pitch_type_col c))); cbn [negb].
  - match goal with
    | |- context [insert_pitch ?a ?b ?c0 ?d ?e ?f ?g ?h ?v ?x ?z ?t ?bo ?de ?oc w1] =>
        destruct (insert_pitch_text a b e h de oc c0 d f g v x z t bo w1)
          as (ev & Hins)
    end.
    + destruct (present (game_date_col c));
        [apply row_get_text; exact Hs | exact I].
    + apply or_else_text; [apply row_get_text; exact Hs | exact I].
    + apply row_get_text; exact Hs.
    + apply or_else_text; [apply row_get_text; exact Hs | exact I].
    + apply or_else_text; [apply row_get_text; exact Hs | exact I].
    + rewrite Hins. eexists. split; [reflexivity |]. cbn.
      split; [exact Hout |]. rewrite length_app, Hev. cbn. lia.
  - exists w1. split; [reflexivity |]. split; [exact Hout |].
    rewrite Hev. lia.
Qed.

Lemma read_rows_total (fieldnames : list string) (c : Columns)
    (rs : list CsvRecord) (n : Z) (w : World) :
  Forall (fits fieldnames) rs ->
  exists w',
    read_rows fieldnames c rs n w
    = Ok (n + Z.of_nat (length (data_rows fieldnames rs)), w')
    /\ stdout w' = stdout w
    /\ length (events (db w'))
       = (length (events (db w))
          + length (List.filter (accepted int_of_str c)
                      (data_rows fieldnames rs)))%nat.
Proof.
  intros Hfit. revert n w.
  induction Hfit as [| r rs Hr Hfit IH]; intros n w.
  - exists w. cbn. rewrite Z.add_0_r.
    split; [reflexivity |]. split; [reflexivity | lia].
  - destruct r as [[| x cells] |]; [| | destruct Hr].
    + cbn [Etl.read_rows]. apply IH.
    + cbn [Etl.read_rows]. rewrite bind_run.
      destruct (process_row_total c (dict_row fieldnames (x :: cells)) w
                  (surplus_fits _ _ Hr)) as (w1 & Hrow & Ho & Hl).
      rewrite Hrow. destruct (IH (n + 1) w1) as (w' & Hrest & Ho' & Hl').
      exists w'.
      change (data_rows fieldnames (Cells (x :: cells) :: rs))
        with (dict_row fieldnames (x :: cells) :: data_rows fieldnames rs).
      cbn [length List.filter]. split.
      * rewrite Hrest. f_equal. f_equal. lia.
      * split; [congruence |]. rewrite Hl', Hl.
        destruct (accepted int_of_str c _); cbn [length]; lia.
Qed.

(** X15. A file whose header names the pitcher column and a pitch-type
    column, whose records can all be read and have no more cells than
    the header, and whose integers the driver can bind, is ingested
    without an exception: the row count printed
    at the end is the number of records that have cells, and the events
    grow by one for each row whose pitcher value is an integer and whose
    pitch type is not blank, whether or not such an event was there
    before. *)
Theorem tidy_file_is_ingested (f : CsvFile) (w : World) (h : string)
    (hs : list string) (body : list CsvRecord) :
  records f = Cells (h :: hs) :: body ->
  names (h :: hs) "pitcher" ->
  names (h :: hs) "pitch_type" \/ names (h :: hs) "pitch_name" ->
  Forall (fits (h :: hs)) body ->
  Forall (fun row =>
            binds int_of_str (resolve_columns (header_map_of (h :: hs))) row
            = true)
    (data_rows (h :: hs) body) ->
  exists w',
    process_csv f w = Ok (tt, w')
    /\ stdout w'
       = stdout w ++
         [Loading (file_name f); Headers (take 10 (h :: hs));
          Finished (file_name f)
            (Z.of_nat (length (data_rows (h :: hs) body)))]
    /\ length (events (db w'))
       = (length (events (db w))
          + length (List.filter
                      (accepted int_of_str
                         (resolve_columns (header_map_of (h :: hs))))
                      (data_rows (h :: hs) body)))%nat.
Proof.
  intros Hrec Hp Ht Hfit _. unfold Etl.process_csv.
  rewrite bind_run, print_run, Hrec, bind_run, print_run.
  destruct (required_present (h :: hs) Hp Ht) as [-> ->]. cbn [negb orb].
  rewrite bind_run.
  destruct (read_rows_total (h :: hs)
              (resolve_columns (header_map_of (h :: hs))) body 0
              {| db := db w;
                 stdout := (stdout w ++ [Loading (file_name f)])
                           ++ [Headers (take 10 (h :: hs))] |} Hfit)
    as (w1 & Hrows & Ho & Hl).
  cbn [db stdout] in *. rewrite Hrows, print_run. eexists.
  split; [reflexivity |]. cbn [db stdout]. split; [| exact Hl].
  rewrite Ho, <- !app_assoc. reflexivity.
Qed.

End TidyFiles.

Section TidyFilesRuns.

Import Etl EtlSpec EtlView.

Lemma tidy_file_is_ingested_witness :
  records tidy_file
  = Cells ["pitcher"; "pitch_name"; "inning_topbot"]
    :: [Cells ["123"; "FF"; "Top"]; Cells []; Cells ["x"; "SL"; "Bot"];
        Cells ["123"; "CU"]]
  /\ names ["pitcher"; "pitch_name"; "inning_topbot"] "pitcher"
  /\ names ["pitcher"; "pitch_name"; "inning_topbot"] "pitch_name"
  /\ Forall (fits ["pitcher"; "pitch_name"; "inning_topbot"])
       [Cells ["123"; "FF"; "Top"]; Cells []; Cells ["x"; "SL"; "Bot"];
        Cells ["123"; "CU"]]
  /\ Forall (fun row =>
               binds int_decimal
                 (resolve_columns
                    (header_map_of ["pitcher"; "pitch_name"; "inning_topbot"]))
                 row = true)
       (data_rows ["pitcher"; "pitch_name"; "inning_topbot"]
          [Cells ["123"; "FF"; "Top"]; Cells []; Cells ["x"; "SL"; "Bot"];
           Cells ["123"; "CU"]])
  /\ exists w',
       Etl.process_csv int_decimal float_decimal tidy_file (start empty_db)
       = Ok (tt, w')
       /\ length (events (db w')) = 2%nat.
Proof.
  assert (H1 : records tidy_file
               = Cells ["pitcher"; "pitch_name"; "inning_topbot"]
                 :: [Cells ["123"; "FF"; "Top"]; Cells [];
                     Cells ["x"; "SL"; "Bot"]; Cells ["123"; "CU"]])
    by reflexivity.
  assert (H2 : names ["pitcher"; "pitch_name"; "inning_topbot"] "pitcher").
  { exists "pitcher". split; [left; reflexivity | reflexivity]. }
  assert (H3 : names ["pitcher"; "pitch_name"; "inning_topbot"] "pitch_name").
  { exists "pitch_name". split; [right; left; reflexivity | reflexivity]. }
  assert (H4 : Forall (fits ["pitcher"; "pitch_name"; "inning_topbot"])
                 [Cells ["123"; "FF"; "Top"]; Cells [];
                  Cells ["x"; "SL"; "Bot"]; Cells ["123"; "CU"]]).
  { repeat constructor; simpl; lia. }
  assert (H5 : Forall (fun row =>
                 binds int_decimal
                   (resolve_columns
                      (header_map_of
                         ["pitcher"; "pitch_name"; "inning_topbot"]))
                   row = true)
                 (data_rows ["pitcher"; "pitch_name"; "inning_topbot"]
                    [Cells ["123"; "FF"; "Top"]; Cells [];
                     Cells ["x"; "SL"; "Bot"]; Cells ["123"; "CU"]])).
  { cbn [data_rows omap]. repeat constructor; vm_compute; reflexivity. }
  split; [exact H1 |]. split; [exact H2 |]. split; [exact H3 |].
  split; [exact H4 |]. split; [exact H5 |].
  destruct (tidy_file_is_ingested int_decimal float_decimal tidy_file
              (start empty_db) _ _ _ H1 H2 (or_intror H3) H4 H5)
    as (w' & Hrun & _ & Hlen).
  exists w'. split; [exact Hrun |]. rewrite Hlen. vm_compute. reflexivity.
Defined.

End TidyFilesRuns.

(** ** What a recommendation does not depend on *)

Section Isolation.

Import Api Spec View.

Lemma filter_none {A} (f : A -> bool) (l : list A) :
  Forall (fun x => f x = false) l -> List.filter f l = [].
Proof.
  induction 1 as [| x l Hx _ IH]; cbn; [reflexivity |].
  rewrite Hx. exact IH.
Qed.

Lemma select_situation_outside (req : RecommendationRequest)
    (hand : option string) (tbl other : list PitchRow) :
  Forall (outside req) other ->
  select_situation (req_pitcher_id req) (req_balls req) (req_strikes req)
    hand (tbl ++ other)
  = select_situation (req_pitcher_id req) (req_balls req) (req_strikes req)
      hand tbl.
Proof.
  intros H. unfold select_situation. cbv zeta. rewrite List.filter_app.
  rewrite (filter_none _ other), app_nil_r; [reflexivity |].
  eapply List.Forall_impl; [| exact H]. intros r Hr. unfold outside in Hr.
  destruct hand as [h |]; [| exact Hr].
  destruct (situation_where _ _ _ (Some h) r) eqn:E; [| reflexivity].
  apply situation_where_pooled in E. congruence.
Qed.

(** X16. Pitches of other pitchers, of other counts or without a pitch type
    do not bear on a recommendation: with such pitches added to the table
    the endpoint sends the same statements and gives the same answer. *)
Theorem recommendation_ignores_other_situations
    (req : RecommendationRequest) (tbl other : list PitchRow) :
  Forall (outside req) other ->
  run (recommend_pitch req) (tbl ++ other) = run (recommend_pitch req) tbl.
Proof.
  intros H. rewrite !recommend_pitch_run.
  rewrite !(select_situation_outside req _ tbl other H). reflexivity.
Qed.

Lemma recommendation_ignores_other_situations_witness :
  Forall (outside example_request) (map (moved_to 8) example_table)
  /\ run (recommend_pitch example_request)
       (example_table ++ map (moved_to 8) example_table)
     = run (recommend_pitch example_request) example_table.
Proof.
  assert (H : Forall (outside example_request)
                (map (moved_to 8) example_table))
    by (vm_compute; repeat constructor).
  split; [exact H |].
  exact (recommendation_ignores_other_situations _ _ _ H).
Defined.

End Isolation.

(** ** Decorated column names *)

Section Strip.

Import Etl EtlView.

Variable p : ascii -> bool.

Lemma lstrip_by_all (l x : string) :
  all_of p l = true -> Py.lstrip_by p (l +:+ x) = Py.lstrip_by p x.
Proof.
  induction l as [| c l IH]; [reflexivity |].
  rewrite append_cons. cbn. intros H.
  apply andb_true_iff in H as [Hc Hl]. rewrite Hc. exact (IH Hl).
Qed.

Lemma lstrip_by_bare (m : string) :
  bare_by p m -> Py.lstrip_by p m = m.
Proof.
  destruct m as [| c m]; [reflexivity |]. intros H. cbn.
  rewrite (H c); [reflexivity | left; reflexivity].
Qed.

Lemma rstrip_by_all (r : string) :
  all_of p r = true -> Py.rstrip_by p r = "".
Proof.
  induction r as [| c r IH]; cbn; [reflexivity |].
  intros H. apply andb_true_iff in H as [Hc Hr].
  rewrite (IH Hr), Hc. reflexivity.
Qed.

Lemma rstrip_by_app_all (m r : string) :
  all_of p r = true -> Py.rstrip_by p (m +:+ r) = Py.rstrip_by p m.
Proof.
  intros Hr. induction m as [| c m IH].
  - rewrite append_empty. apply rstrip_by_all. exact Hr.
  - rewrite append_cons. cbn. rewrite IH. reflexivity.
Qed.

Lemma last_char_none (m : string) : last_char m = None -> m = "".
Proof.
  destruct m as [| c m]; [reflexivity |]. cbn.
  destruct (last_char m); discriminate.
Qed.

Lemma rstrip_by_last (m : string) :
  (forall c, last_char m = Some c -> p c = false) -> Py.rstrip_by p m = m.
Proof.
  induction m as [| c m IH]; [reflexivity |]. cbn. intros H.
  destruct (last_char m) as [d |] eqn:E.
  - rewrite (IH H). destruct m; [discriminate E | reflexivity].
  - apply last_char_none in E. subst m. cbn.
    rewrite (H c eq_refl). reflexivity.
Qed.

(** [strip] takes off what satisfies [p] at both ends and stops at a text
    whose ends do not. *)
Lemma strip_by_core (l m r : string) :
  all_of p l = true -> all_of p r = true -> bare_by p m ->
  Py.strip_by p (l +:+ m +:+ r) = m.
Proof.
  intros Hl Hr Hm. unfold Py.strip_by. rewrite (lstrip_by_all l _ Hl).
  destruct m as [| c m].
  - rewrite append_empty.
    assert (E : Py.lstrip_by p r = "").
    { clear Hl Hm. induction r as [| d r IH]; cbn; [reflexivity |].
      cbn in Hr. apply andb_true_iff in Hr as [Hd Hr'].
      rewrite Hd. exact (IH Hr'). }
    rewrite E. reflexivity.
  - assert (E : Py.lstrip_by p (String c m +:+ r) = String c m +:+ r).
    { rewrite append_cons. cbn.
      rewrite (Hm c); [reflexivity | left; reflexivity]. }
    rewrite E, (rstrip_by_app_all _ r Hr).
    apply rstrip_by_last. intros d Hd. apply Hm. right. exact Hd.
Qed.

End Strip.

Section Decorated.

Import Etl EtlView.

Lemma all_of_app (p : ascii -> bool) (a b : string) :
  all_of p (a +:+ b) = all_of p a && all_of p b.
Proof.
  induction a as [| c a IH]; [reflexivity |].
  rewrite append_cons. cbn. rewrite IH, andb_assoc. reflexivity.
Qed.

Lemma all_of_weaken (p q : ascii -> bool) (s : string) :
  (forall c, p c = true -> q c = true) ->
  all_of p s = true -> all_of q s = true.
Proof.
  intros H. induction s as [| c s IH]; cbn; [reflexivity |].
  intros Hs. apply andb_true_iff in Hs as [Hc Hs].
  rewrite (H c Hc). exact (IH Hs).
Qed.

Lemma is_space_seven_bit (c : ascii) :
  Py.is_space c = true -> seven_bit c = true.
Proof.
  unfold Py.is_space, seven_bit. cbv zeta. intros H. apply N.ltb_lt.
  apply orb_true_iff in H as [H | H]; apply andb_true_iff in H as [_ H];
    apply N.leb_le in H; lia.
Qed.

Lemma quote_seven_bit (c : ascii) :
  Ascii.eqb double_quote c = true -> seven_bit c = true.
Proof. intros H. apply Ascii.eqb_eq in H. subst c. reflexivity. Qed.

Lemma quote_not_space (c : ascii) :
  Ascii.eqb double_quote c = true -> Py.is_space c = false.
Proof. intros H. apply Ascii.eqb_eq in H. subst c. reflexivity. Qed.

Lemma first_char_app (a b : string) :
  first_char (a +:+ b) =
    match first_char a with Some c => Some c | None => first_char b end.
Proof. destruct a; reflexivity. Qed.

Lemma last_char_app (a b : string) :
  last_char (a +:+ b) =
    match last_char b with Some c => Some c | None => last_char a end.
Proof.
  induction a as [| c a IH].
  - rewrite append_empty. destruct (last_char b); reflexivity.
  - rewrite append_cons. cbn. rewrite IH.
    destruct (last_char b); [reflexivity |].
    destruct (last_char a); reflexivity.
Qed.

Lemma first_char_all (p : ascii -> bool) (s : string) (c : ascii) :
  all_of p s = true -> first_char s = Some c -> p c = true.
Proof.
  destruct s as [| d s]; [discriminate |]. cbn. intros H [= <-].
  apply andb_true_iff in H as [H _]. exact H.
Qed.

Lemma last_char_all (p : ascii -> bool) (s : string) (c : ascii) :
  all_of p s = true -> last_char s = Some c -> p c = true.
Proof.
  induction s as [| d s IH]; [discriminate |]. cbn. intros H.
  apply andb_true_iff in H as [Hd Hs].
  destruct (last_char s) as [e |].
  - intros [= <-]. apply IH; [exact Hs | reflexivity].
  - intros [= <-]. exact Hd.
Qed.

(** A bare name between double quotes has no white space at its ends. *)
Lemma quoted_bare (qs1 nm qs2 : string) :
  all_of (Ascii.eqb double_quote) qs1 = true ->
  all_of (Ascii.eqb double_quote) qs2 = true ->
  bare nm -> bare_by Py.is_space (qs1 +:+ nm +:+ qs2).
Proof.
  intros H1 H2 (_ & Hs & _) c [Hc | Hc].
  - rewrite first_char_app in Hc.
    destruct (first_char qs1) as [d |] eqn:E1.
    { injection Hc as <-. apply quote_not_space.
      exact (first_char_all _ _ _ H1 E1). }
    rewrite first_char_app in Hc.
    destruct (first_char nm) as [d |] eqn:E2.
    { injection Hc as <-. apply Hs. left. exact E2. }
    apply quote_not_space. exact (first_char_all _ _ _ H2 Hc).
  - rewrite last_char_app, last_char_app in Hc.
    destruct (last_char qs2) as [d |] eqn:E2.
    { injection Hc as <-. apply quote_not_space.
      exact (last_char_all _ _ _ H2 E2). }
    destruct (last_char nm) as [d |] eqn:E3.
    { injection Hc as <-. apply Hs. right. exact E3. }
    apply quote_not_space. exact (last_char_all _ _ _ H1 Hc).
Qed.

Lemma substring_all (s : string) : String.substring 0 (String.length s) s = s.
Proof.
  induction s as [| c s IH]; cbn; [reflexivity |]. rewrite IH. reflexivity.
Qed.

Lemma remove_all_fuel_seven_bit (s : string) (n : nat) :
  all_of seven_bit s = true -> Py.remove_all_fuel n bom s = s.
Proof.
  revert s. induction n as [| n IH]; intros s Hs; [reflexivity |].
  destruct s as [| c s]; [reflexivity |].
  cbn in Hs. apply andb_true_iff in Hs as [Hc Hs].
  cbn [Py.remove_all_fuel]. unfold bom at 1. cbn [String.prefix].
  destruct (ascii_dec "239" c) as [<- | _]; [discriminate Hc |].
  rewrite (IH s Hs). reflexivity.
Qed.

Lemma remove_all_fuel_prefix (n : nat) (old : string) (c : ascii)
    (s : string) :
  String.prefix old (String c s) = true ->
  Py.remove_all_fuel (S n) old (String c s) =
    Py.remove_all_fuel n old
      (String.substring (String.length old)
         (String.length (String c s) - String.length old) (String c s)).
Proof. intros H. cbn [Py.remove_all_fuel]. rewrite H. reflexivity. Qed.

Lemma prefix_bom (s : string) : String.prefix bom (bom +:+ s) = true.
Proof.
  unfold bom. rewrite !append_cons, append_empty. cbn [String.prefix].
  repeat match goal with
         | |- context [ascii_dec ?a ?a] =>
             destruct (ascii_dec a a) as [_ | N];
             [| contradiction N; reflexivity]
         end.
  destruct s; reflexivity.
Qed.

Lemma substring_bom (s : string) :
  String.substring (String.length bom)
    (String.length (bom +:+ s) - String.length bom) (bom +:+ s) = s.
Proof.
  unfold bom. rewrite !append_cons, append_empty.
  cbn [String.length Nat.sub String.substring].
  rewrite Nat.sub_0_r. apply substring_all.
Qed.

Lemma remove_all_bom (pre s : string) :
  pre = "" \/ pre = bom -> all_of seven_bit s = true ->
  Py.remove_all bom (pre +:+ s) = s.
Proof.
  intros [-> | ->] Hs; unfold Py.remove_all.
  - apply remove_all_fuel_seven_bit. exact Hs.
  - pose proof (prefix_bom s) as Hp. pose proof (substring_bom s) as Hsub.
    change (String.length (bom +:+ s))
      with (S (S (S (String.length s)))) in *.
    change (bom +:+ s)
      with (String "239" (String "187" (String "191" s))) in *.
    rewrite (remove_all_fuel_prefix _ _ _ _ Hp).
    change (String.length (String "239" (String "187" (String "191" s))))
      with (S (S (S (String.length s)))).
    rewrite Hsub. apply remove_all_fuel_seven_bit. exact Hs.
Qed.

(** X17. A byte-order mark in front, white space around and double quotes
    within it do not change the name of a column: what is left of such a
    header is the bare name. *)
Theorem sanitize_header_strips_marks (pre ws1 qs1 nm qs2 ws2 : string) :
  pre = "" \/ pre = bom ->
  all_of Py.is_space ws1 = true -> all_of Py.is_space ws2 = true ->
  all_of (Ascii.eqb double_quote) qs1 = true ->
  all_of (Ascii.eqb double_quote) qs2 = true ->
  bare nm ->
  sanitize_header (pre +:+ ws1 +:+ (qs1 +:+ nm +:+ qs2) +:+ ws2) = nm.
Proof.
  intros Hpre Hw1 Hw2 Hq1 Hq2 Hnm. unfold sanitize_header.
  rewrite remove_all_bom; [| exact Hpre |].
  - unfold Py.strip.
    rewrite (strip_by_core _ ws1 _ ws2 Hw1 Hw2 (quoted_bare _ _ _ Hq1 Hq2 Hnm)).
    unfold Py.strip_char. apply strip_by_core; [exact Hq1 | exact Hq2 |].
    destruct Hnm as (_ & _ & Hq). exact Hq.
  - destruct Hnm as (Hn & _ & _).
    rewrite !all_of_app, Hn.
    rewrite (all_of_weaken _ _ ws1 is_space_seven_bit Hw1).
    rewrite (all_of_weaken _ _ ws2 is_space_seven_bit Hw2).
    rewrite (all_of_weaken _ _ qs1 quote_seven_bit Hq1).
    rewrite (all_of_weaken _ _ qs2 quote_seven_bit Hq2).
    reflexivity.
Qed.

Lemma sanitize_header_strips_marks_witness :
  bare "pitch_type"
  /\ sanitize_header
       (bom +:+ " " +:+ (String double_quote "" +:+ "pitch_type"
                         +:+ String double_quote "") +:+ String "010" "")
     = "pitch_type".
Proof.
  assert (H : bare "pitch_type").
  { split; [reflexivity |].
    split; intros c [Hc | Hc]; injection Hc as <-; reflexivity. }
  split; [exact H |].
  apply (sanitize_header_strips_marks bom " " (String double_quote "")
           "pitch_type" (String double_quote "") (String "010" ""));
    [right; reflexivity | reflexivity | reflexivity | reflexivity
    | reflexivity | exact H].
Defined.

End Decorated.

(** ** The boundary of the pitches endpoint *)

Section Admission.

Import Api Spec View.

Lemma get_pitches_admitted (tbl : list PitchRow) (pid b s lim : Z)
    (hand : option string) :
  exists resp,
    run (r ← pitcher_pitches pid b s hand lim; mret (Some r)) tbl =
      Ok (Some resp, [SelectLocated pid b s (hand_param hand) lim])
    /\ pitches resp =
         map point_of (select_located pid b s (hand_param hand) lim tbl).
Proof.
  destruct (pitcher_pitches_run tbl pid b s lim hand)
    as (top & bot & _ & _ & Hrun).
  unfold run in *. rewrite bind_run.
  destruct (pitcher_pitches pid b s hand lim _) as [[r c] | e];
    [| discriminate].
  exists r. injection Hrun as Hr Hc. cbn. rewrite Hc.
  split; [reflexivity |]. rewrite Hr. reflexivity.
Qed.

(** X18. The pitches endpoint is reached exactly by the requests that give
    balls of at most 3, strikes of at most 2 and, if any, a limit from 1 to
    2000: any other request is rejected before a statement is sent, and an
    admitted one sends one statement, with a limit of 500 if none was
    given. There is no lower bound on balls and strikes. *)
Theorem pitches_boundary (tbl : list PitchRow) (pid : Z)
    (balls strikes limit : option Z) (hand : option string) :
  (admitted balls strikes limit = false ->
   run (get_pitches pid balls strikes hand limit) tbl = Ok (None, []))
  /\ (admitted balls strikes limit = true ->
      exists b s resp,
        balls = Some b /\ strikes = Some s
        /\ run (get_pitches pid balls strikes hand limit) tbl =
             Ok (Some resp,
                 [SelectLocated pid b s (hand_param hand)
                    (default 500 limit)])).
Proof.
  unfold admitted, get_pitches.
  destruct balls as [b |], strikes as [s |]; cbn [validate balls_query
    strikes_query q_default];
    try (split; [reflexivity | discriminate]).
  - rewrite within_balls, within_strikes.
    destruct (b <=? 3); [| split; [reflexivity | discriminate]].
    destruct (s <=? 2); [| split; [reflexivity | discriminate]].
    cbn [andb].
    destruct limit as [l |]; cbn [validate limit_query q_default default].
    + rewrite within_limit.
      destruct ((1 <=? l) && (l <=? 2000));
        [| split; [reflexivity | discriminate]].
      split; [discriminate |]. intros _.
      destruct (get_pitches_admitted tbl pid b s l hand) as (resp & Hr & _).
      exists b, s, resp. split; [reflexivity |].
      split; [reflexivity | exact Hr].
    + split; [discriminate |]. intros _.
      destruct (get_pitches_admitted tbl pid b s 500 hand) as (resp & Hr & _).
      exists b, s, resp. split; [reflexivity |].
      split; [reflexivity | exact Hr].
  - destruct (within balls_query b); split; try reflexivity; discriminate.
Qed.

Lemma pitches_boundary_witness :
  admitted (Some (-4)) (Some 0) None = true
  /\ admitted (Some 4) (Some 0) None = false
  /\ run (get_pitches 7 (Some 4) (Some 0) None None) located_table
     = Ok (None, [])
  /\ exists resp,
       run (get_pitches 7 (Some (-4)) (Some 0) None None) located_table
       = Ok (Some resp, [SelectLocated 7 (-4) 0 None 500]).
Proof.
  split; [reflexivity |]. split; [reflexivity |]. split.
  - apply (proj1 (pitches_boundary located_table 7 (Some 4) (Some 0) None
                    None)).
    reflexivity.
  - destruct (proj2 (pitches_boundary located_table 7 (Some (-4)) (Some 0)
                       None None) eq_refl)
      as (b & s & resp & Hb & Hs & Hr).
    injection Hb as <-. injection Hs as <-.
    exists resp. exact Hr.
Defined.

End Admission.
